(** * Traffic signal coordinator: a shallow embedding of
      [src/agents/signal_coordinator_agent.py] and its specification.

    The Python module keeps a registry of intersections (a dict of mutable
    dataclass instances) inside a [TrafficSignalCoordinator] object; its
    methods read and mutate that registry and return plain dicts.  Here the
    object is a record, every method is a computation in a small state and
    exception monad, and the Python numbers are modelled as they are:
    [int] as [Z], [float] as IEEE-754 binary64 through the Standard
    Library's [SpecFloat] (precision 53, maximal exponent 1024). *)

From Stdlib Require Import ZArith Lia Bool String List SpecFloat.
From stdpp Require Import base option gmap strings list fin_maps.

Local Open Scope Z_scope.

(** ** Python exceptions and results *)

Inductive exn :=
| ZeroDivisionError
| OverflowError
| ValueError
| KeyError (key : string)
| AttributeError (attribute : string).

Inductive outcome (A : Type) :=
| Returned (a : A)
| Raised (e : exn).
Arguments Returned {A} a.
Arguments Raised {A} e.

#[global] Instance outcome_ret : MRet outcome := fun _ a => Returned a.
#[global] Instance outcome_bind : MBind outcome := fun _ _ k c =>
  match c with
  | Returned a => k a
  | Raised e => Raised e
  end.

(** ** Python floats: IEEE-754 binary64 *)

Module Float.

Definition prec : Z := 53.
Definition emax : Z := 1024.

Definition add : spec_float -> spec_float -> spec_float := SFadd prec emax.
Definition sub : spec_float -> spec_float -> spec_float := SFsub prec emax.
Definition mul : spec_float -> spec_float -> spec_float := SFmul prec emax.
Definition div : spec_float -> spec_float -> spec_float := SFdiv prec emax.

(** The integer [z] as an exact, not yet rounded, mantissa at exponent 0. *)
Definition exact_Z (z : Z) : spec_float :=
  match z with
  | Z0 => S754_zero false
  | Zpos p => S754_finite false p 0
  | Zneg p => S754_finite true p 0
  end.

(** [float(z)]: the nearest binary64 number, ties to even. *)
Definition of_Z (z : Z) : spec_float := binary_normalize prec emax z 0 false.

Definition is_infinity (x : spec_float) : bool :=
  match x with S754_infinity _ => true | _ => false end.

Definition is_zero (x : spec_float) : bool :=
  match x with S754_zero _ => true | _ => false end.

(** A finite float is the dyadic number [m * 2^e]. *)
Definition dyadic (x : spec_float) : option (Z * Z) :=
  match x with
  | S754_zero _ => Some (0, 0)
  | S754_finite s m e => Some (cond_Zopp s (Zpos m), e)
  | _ => None
  end.

Definition dyadic_compare (a b : Z * Z) : comparison :=
  let e := Z.min a.2 b.2 in
  (a.1 * 2 ^ (a.2 - e)) ?= (b.1 * 2 ^ (b.2 - e)).

(** IEEE comparison, by value; [None] when a NaN is involved. *)
Definition compare (x y : spec_float) : option comparison :=
  match x, y with
  | S754_nan, _ | _, S754_nan => None
  | S754_infinity s1, S754_infinity s2 =>
      Some (match s1, s2 with
            | true, false => Lt
            | false, true => Gt
            | _, _ => Eq
            end)
  | S754_infinity s, _ => Some (if s then Lt else Gt)
  | _, S754_infinity s => Some (if s then Gt else Lt)
  | _, _ =>
      match dyadic x, dyadic y with
      | Some a, Some b => Some (dyadic_compare a b)
      | _, _ => None
      end
  end.

Definition ltb (x y : spec_float) : bool :=
  match compare x y with Some Lt => true | _ => false end.

(** Truncation toward zero of a dyadic number. *)
Definition trunc_dyadic (a : Z * Z) : Z :=
  if 0 <=? a.2 then a.1 * 2 ^ a.2 else Z.quot a.1 (2 ^ (- a.2)).

(** Nearest integer, ties to even, of [n / d] for [0 <= n], [0 < d]. *)
Definition round_half_even (n d : Z) : Z :=
  let q := n / d in
  let r := n mod d in
  match 2 * r ?= d with
  | Lt => q
  | Gt => q + 1
  | Eq => if Z.even q then q else q + 1
  end.

(** The correctly rounded quotient [a / b] of two integers, [b <> 0]. *)
Definition div_Z (a b : Z) : spec_float :=
  match a with
  | Z0 => S754_zero (b <? 0)
  | _ => div (exact_Z a) (exact_Z b)
  end.

(** [round(x, 1)]: the decimal with one fractional digit nearest to the
    exact value of [x] (ties to even), read back as a float. *)
Definition round1 (x : spec_float) : spec_float :=
  match x with
  | S754_finite s m e =>
      let n := if 0 <=? e then 10 * Zpos m * 2 ^ e
               else round_half_even (10 * Zpos m) (2 ^ (- e)) in
      if n =? 0 then S754_zero s else div_Z (cond_Zopp s n) 10
  | _ => x
  end.

End Float.

(** ** Python numbers *)

Inductive pynum :=
| PyInt (z : Z)
| PyFloat (f : spec_float).

Definition to_float (x : pynum) : outcome spec_float :=
  match x with
  | PyInt z =>
      let f := Float.of_Z z in
      if Float.is_infinity f then Raised OverflowError else Returned f
  | PyFloat f => Returned f
  end.

(** [x + y], [x - y], [x * y]: integer arithmetic on two ints, float
    arithmetic (after converting an int operand) otherwise. *)
Definition py_arith (iop : Z -> Z -> Z)
    (fop : spec_float -> spec_float -> spec_float) (x y : pynum) : outcome pynum :=
  match x, y with
  | PyInt a, PyInt b => Returned (PyInt (iop a b))
  | _, _ => a ← to_float x; b ← to_float y; Returned (PyFloat (fop a b))
  end.

Definition py_add : pynum -> pynum -> outcome pynum := py_arith Z.add Float.add.
Definition py_sub : pynum -> pynum -> outcome pynum := py_arith Z.sub Float.sub.
Definition py_mul : pynum -> pynum -> outcome pynum := py_arith Z.mul Float.mul.

(** [x / y] (true division). *)
Definition py_truediv (x y : pynum) : outcome pynum :=
  match x, y with
  | PyInt a, PyInt b =>
      if b =? 0 then Raised ZeroDivisionError
      else let q := Float.div_Z a b in
           if Float.is_infinity q then Raised OverflowError
           else Returned (PyFloat q)
  | _, _ =>
      a ← to_float x; b ← to_float y;
      if Float.is_zero b then Raised ZeroDivisionError
      else Returned (PyFloat (Float.div a b))
  end.

(** The exact value carried by a number, for comparisons: Python compares
    an int with a float without rounding the int. *)
Definition py_exact (x : pynum) : spec_float :=
  match x with
  | PyInt z => Float.exact_Z z
  | PyFloat f => f
  end.

Definition py_lt (x y : pynum) : bool := Float.ltb (py_exact x) (py_exact y).
Definition py_gt (x y : pynum) : bool := py_lt y x.

(** [max(a, b)] and [min(a, b)]: the first argument unless the second one
    is strictly larger (smaller). *)
Definition py_max (a b : pynum) : pynum := if py_gt b a then b else a.
Definition py_min (a b : pynum) : pynum := if py_lt b a then b else a.

(** [int(x)] *)
Definition py_int (x : pynum) : outcome Z :=
  match x with
  | PyInt z => Returned z
  | PyFloat S754_nan => Raised ValueError
  | PyFloat (S754_infinity _) => Raised OverflowError
  | PyFloat f => Returned (Float.trunc_dyadic (default (0, 0) (Float.dyadic f)))
  end.

(** [round(x, 1)] *)
Definition py_round1 (x : pynum) : pynum :=
  match x with
  | PyInt z => PyInt z
  | PyFloat f => PyFloat (Float.round1 f)
  end.

Arguments py_arith : simpl never.
Arguments py_add : simpl never.
Arguments py_sub : simpl never.
Arguments py_mul : simpl never.
Arguments py_truediv : simpl never.
Arguments py_lt : simpl never.
Arguments py_gt : simpl never.
Arguments py_max : simpl never.
Arguments py_min : simpl never.
Arguments py_int : simpl never.
Arguments py_round1 : simpl never.
Arguments to_float : simpl never.

(** Float literals of the source. *)
Definition f_0_5 : spec_float := S754_finite false 4503599627370496 (-53).
Definition f_1_0 : spec_float := S754_finite false 4503599627370496 (-52).
Definition f_1_5 : spec_float := S754_finite false 6755399441055744 (-52).
Definition f_0_35 : spec_float := S754_finite false 6305039478318694 (-54).
Definition f_30_0 : spec_float := S754_finite false 8444249301319680 (-48).
Definition f_50_0 : spec_float := S754_finite false 7036874417766400 (-47).

(** ** Data model *)

Inductive SignalPhase := RED | YELLOW | GREEN.

(** A reading of the wall clock ([datetime.now()]); its value plays no role. *)
Definition datetime : Type := Z.

(** [@dataclass TrafficSignal] *)
Record TrafficSignal := {
  signal_id : string;
  intersection_name : string;
  coordinates : spec_float * spec_float;
  cycle_time : Z;
  red_time : Z;
  green_time : Z;
  yellow_time : Z;
  all_red_time : Z;
  current_phase : SignalPhase;
  phase_start_time : option datetime;
  time_in_phase : Z;
  connected_roads : option (list string);
  min_green : Z;
  max_green : Z;
  adaptive_offset : Z
}.

(** [@dataclass Intersection]; its [coordinates] field is named
    [intersection_coordinates] here, as [TrafficSignal] has the name already. *)
Record Intersection := {
  intersection_id : string;
  name : string;
  intersection_coordinates : spec_float * spec_float;
  signals : gmap string TrafficSignal;
  queue_length_north : Z;
  queue_length_south : Z;
  queue_length_east : Z;
  queue_length_west : Z;
  avg_speed : pynum;
  avg_congestion : pynum;
  local_aqi : Z;
  priority_level : string
}.

(** The attributes of a [TrafficSignalCoordinator] object. *)
Record TrafficSignalCoordinator := {
  city_name : string;
  intersections : gmap string Intersection;
  signal_timing_history : gmap string unit;
  coordination_offsets : gmap string Z;
  optimization_mode : string
}.

(** Attribute assignments. *)
Definition set_green_time (v : Z) (s : TrafficSignal) : TrafficSignal :=
  {| signal_id := signal_id s; intersection_name := intersection_name s;
     coordinates := coordinates s; cycle_time := cycle_time s;
     red_time := red_time s; green_time := v; yellow_time := yellow_time s;
     all_red_time := all_red_time s; current_phase := current_phase s;
     phase_start_time := phase_start_time s; time_in_phase := time_in_phase s;
     connected_roads := connected_roads s; min_green := min_green s;
     max_green := max_green s; adaptive_offset := adaptive_offset s |}.

Definition set_red_time (v : Z) (s : TrafficSignal) : TrafficSignal :=
  {| signal_id := signal_id s; intersection_name := intersection_name s;
     coordinates := coordinates s; cycle_time := cycle_time s;
     red_time := v; green_time := green_time s; yellow_time := yellow_time s;
     all_red_time := all_red_time s; current_phase := current_phase s;
     phase_start_time := phase_start_time s; time_in_phase := time_in_phase s;
     connected_roads := connected_roads s; min_green := min_green s;
     max_green := max_green s; adaptive_offset := adaptive_offset s |}.

Definition set_cycle_time (v : Z) (s : TrafficSignal) : TrafficSignal :=
  {| signal_id := signal_id s; intersection_name := intersection_name s;
     coordinates := coordinates s; cycle_time := v;
     red_time := red_time s; green_time := green_time s; yellow_time := yellow_time s;
     all_red_time := all_red_time s; current_phase := current_phase s;
     phase_start_time := phase_start_time s; time_in_phase := time_in_phase s;
     connected_roads := connected_roads s; min_green := min_green s;
     max_green := max_green s; adaptive_offset := adaptive_offset s |}.

Definition set_adaptive_offset (v : Z) (s : TrafficSignal) : TrafficSignal :=
  {| signal_id := signal_id s; intersection_name := intersection_name s;
     coordinates := coordinates s; cycle_time := cycle_time s;
     red_time := red_time s; green_time := green_time s; yellow_time := yellow_time s;
     all_red_time := all_red_time s; current_phase := current_phase s;
     phase_start_time := phase_start_time s; time_in_phase := time_in_phase s;
     connected_roads := connected_roads s; min_green := min_green s;
     max_green := max_green s; adaptive_offset := v |}.

Definition set_signals (v : gmap string TrafficSignal) (x : Intersection) : Intersection :=
  {| intersection_id := intersection_id x; name := name x;
     intersection_coordinates := intersection_coordinates x; signals := v;
     queue_length_north := queue_length_north x;
     queue_length_south := queue_length_south x;
     queue_length_east := queue_length_east x;
     queue_length_west := queue_length_west x;
     avg_speed := avg_speed x; avg_congestion := avg_congestion x;
     local_aqi := local_aqi x; priority_level := priority_level x |}.

Definition set_intersections (v : gmap string Intersection)
    (c : TrafficSignalCoordinator) : TrafficSignalCoordinator :=
  {| city_name := city_name c; intersections := v;
     signal_timing_history := signal_timing_history c;
     coordination_offsets := coordination_offsets c;
     optimization_mode := optimization_mode c |}.

Definition set_coordination_offsets (v : gmap string Z)
    (c : TrafficSignalCoordinator) : TrafficSignalCoordinator :=
  {| city_name := city_name c; intersections := intersections c;
     signal_timing_history := signal_timing_history c;
     coordination_offsets := v;
     optimization_mode := optimization_mode c |}.

(** ** Methods as computations on the coordinator *)

(** A method call takes the object, returns or raises, and leaves the object
    as the call mutated it (also when it raises). *)
Definition M (A : Type) : Type :=
  TrafficSignalCoordinator -> outcome A * TrafficSignalCoordinator.

#[global] Instance M_ret : MRet M := fun _ a st => (Returned a, st).
#[global] Instance M_bind : MBind M := fun _ _ k c st =>
  match c st with
  | (Returned a, st') => k a st'
  | (Raised e, st') => (Raised e, st')
  end.

Definition get : M TrafficSignalCoordinator := fun st => (Returned st, st).
Definition put (st' : TrafficSignalCoordinator) : M unit := fun _ => (Returned tt, st').
Definition raise {A} (e : exn) : M A := fun st => (Raised e, st).
Definition lift {A} (o : outcome A) : M A := fun st => (o, st).

(** A Python dict that is only read back in insertion order: [d[k] = v]
    replaces the value of a present key in place and appends a new one. *)
Fixpoint dict_set {V} (k : string) (v : V) (d : list (string * V)) : list (string * V) :=
  match d with
  | [] => [(k, v)]
  | (k', v') :: d' =>
      if String.eqb k k' then (k, v) :: d' else (k', v') :: dict_set k v d'
  end.

Fixpoint dict_get {V} (k : string) (d : list (string * V)) : option V :=
  match d with
  | [] => None
  | (k', v') :: d' => if String.eqb k k' then Some v' else dict_get k d'
  end.

(** ** Construction: [__init__] and [_initialize_default_intersections] *)

Definition directions : list string := ["north"; "south"; "east"; "west"]%string.

Definition upper_ascii (c : Ascii.ascii) : Ascii.ascii :=
  let n := Ascii.nat_of_ascii c in
  if ((97 <=? n) && (n <=? 122))%nat then Ascii.ascii_of_nat (n - 32) else c.

Fixpoint upper (s : string) : string :=
  match s with
  | EmptyString => EmptyString
  | String c s' => String (upper_ascii c) (upper s')
  end.

Fixpoint index (d : string) (l : list string) : nat :=
  match l with
  | [] => 0
  | d' :: l' => if String.eqb d d' then 0%nat else S (index d l')
  end.

Record default_intersection := {
  di_id : string;
  di_name : string;
  di_coordinates : spec_float * spec_float;
  di_roads : list string
}.

Definition default_intersections : list default_intersection := [
  {| di_id := "INT_001"; di_name := "MG Road - Brigade Road";
     di_coordinates := (S754_finite false 7338108937842144 (-49),
                        S754_finite false 5648245767662050 (-46));
     di_roads := ["MG Road"; "Brigade Road"; "Vittal Mallya Road";
                  "Bengaluru Cantonment"]%string |};
  {| di_id := "INT_002"; di_name := "Koramangala - Indiranagar";
     di_coordinates := (S754_finite false 7338221527832828 (-49),
                        S754_finite false 5649118340089853 (-46));
     di_roads := ["Koramangala Road"; "Indiranagar Main"; "White Field Road";
                  "Old Airport Road"]%string |};
  {| di_id := "INT_003"; di_name := "Connaught Place - Residency Road";
     di_coordinates := (S754_finite false 7335744548037775 (-49),
                        S754_finite false 5647893923941161 (-46));
     di_roads := ["Connaught Place"; "Residency Road"; "Museum Road";
                  "Cubbon Park Road"]%string |};
  {| di_id := "INT_004"; di_name := "Richmond Road - Benson Town";
     di_coordinates := (S754_finite false 7333492748224089 (-49),
                        S754_finite false 5647281715866816 (-46));
     di_roads := ["Richmond Road"; "Benson Town"; "Palace Road";
                  "Tennis Court Road"]%string |};
  {| di_id := "INT_005"; di_name := "Whitefield - Varthur Road Junction";
     di_coordinates := (S754_finite false 7332366848317247 (-49),
                        S754_finite false 5650715710582686 (-46));
     di_roads := ["Whitefield Road"; "Varthur Road"; "Outer Ring Road";
                  "Electronic City Road"]%string |}
]%string.

(** [TrafficSignal(signal_id=.., intersection_name=.., coordinates=..,
    connected_roads=.., phase_start_time=..)] with the dataclass defaults. *)
Definition new_signal (sid iname : string) (coords : spec_float * spec_float)
    (roads : list string) (now : datetime) : TrafficSignal :=
  {| signal_id := sid; intersection_name := iname; coordinates := coords;
     cycle_time := 120; red_time := 60; green_time := 50; yellow_time := 5;
     all_red_time := 5; current_phase := RED; phase_start_time := Some now;
     time_in_phase := 0; connected_roads := Some roads;
     min_green := 15; max_green := 80; adaptive_offset := 0 |}.

(** [Intersection(intersection_id=.., name=.., coordinates=.., signals={})] *)
Definition new_intersection (iid iname : string)
    (coords : spec_float * spec_float) : Intersection :=
  {| intersection_id := iid; name := iname; intersection_coordinates := coords;
     signals := ∅;
     queue_length_north := 0; queue_length_south := 0;
     queue_length_east := 0; queue_length_west := 0;
     avg_speed := PyFloat f_30_0; avg_congestion := PyFloat f_50_0;
     local_aqi := 100; priority_level := "normal" |}.

Section Construction.

(** The clock reading taken while the signal with a given id is built. *)
Variable clock : string -> datetime.

Definition build_signal (d : default_intersection) (direction : string) : TrafficSignal :=
  let signal_id := (di_id d ++ "_" ++ upper direction)%string in
  let road :=
    if negb (String.eqb direction "south")
    then nth (index direction directions) (di_roads d) ""%string
    else nth ((index direction directions + 1) mod 4)%nat (di_roads d) ""%string in
  new_signal signal_id (di_name d) (di_coordinates d) [road] (clock signal_id).

Definition build_intersection (d : default_intersection) : Intersection :=
  fold_left
    (fun x direction =>
       set_signals (<[direction := build_signal d direction]> (signals x)) x)
    directions
    (new_intersection (di_id d) (di_name d) (di_coordinates d)).

Definition _initialize_default_intersections
    (c : TrafficSignalCoordinator) : TrafficSignalCoordinator :=
  fold_left
    (fun c d =>
       set_intersections (<[di_id d := build_intersection d]> (intersections c)) c)
    default_intersections c.

(** [TrafficSignalCoordinator(city_name)] *)
Definition __init__ (city : string) : TrafficSignalCoordinator :=
  _initialize_default_intersections
    {| city_name := city; intersections := ∅; signal_timing_history := ∅;
       coordination_offsets := ∅; optimization_mode := "balanced" |}.

End Construction.

(** ** [_determine_priority] *)

Definition _determine_priority (congestion : pynum) (aqi max_queue : Z) : string :=
  if py_gt congestion (PyInt 70) || (150 <? aqi) || (50 <? max_queue) then "critical"
  else if py_gt congestion (PyInt 50) || (100 <? aqi) || (30 <? max_queue) then "high"
  else if py_gt congestion (PyInt 30) || (50 <? aqi) then "normal"
  else "low".

(** ** [update_intersection_data] *)

(** The [traffic_data] dict: every key may be missing. *)
Record TrafficData := {
  td_queues : option (gmap string Z);
  td_avg_speed : option pynum;
  td_congestion : option pynum
}.

(** The eight attribute assignments of a successful update. *)
Definition store_readings (north south east west : Z) (speed congestion : pynum)
    (pollution_level : Z) (priority : string) (x : Intersection) : Intersection :=
  {| intersection_id := intersection_id x; name := name x;
     intersection_coordinates := intersection_coordinates x;
     signals := signals x;
     queue_length_north := north; queue_length_south := south;
     queue_length_east := east; queue_length_west := west;
     avg_speed := speed; avg_congestion := congestion;
     local_aqi := pollution_level; priority_level := priority |}.

Definition update_intersection_data (intersection_id : string)
    (traffic_data : TrafficData) (pollution_level : Z) : M bool :=
  st ← get;
  match intersections st !! intersection_id with
  | None => mret false
  | Some intersection =>
      let queues := default ∅ (td_queues traffic_data) in
      let north := default 0 (queues !! "north") in
      let south := default 0 (queues !! "south") in
      let east := default 0 (queues !! "east") in
      let west := default 0 (queues !! "west") in
      let speed := default (PyFloat f_30_0) (td_avg_speed traffic_data) in
      let congestion := default (PyFloat f_50_0) (td_congestion traffic_data) in
      let priority :=
        _determine_priority congestion pollution_level
          (Z.max (Z.max (Z.max north south) east) west) in
      _ ← put (set_intersections
                 (<[intersection_id :=
                      store_readings north south east west speed congestion
                        pollution_level priority intersection]>
                    (intersections st)) st);
      mret true
  end.

(** ** [optimize_signal_timing] *)

(** One entry of the returned ['signal_timings'] dict. *)
Record DirectionTiming := {
  dt_green_time : Z;
  dt_red_time : Z;
  dt_yellow_time : Z;
  dt_all_red_time : Z;
  dt_cycle_time : Z;
  dt_queue_length : Z;
  dt_priority : string
}.

(** The returned plan; its ['timestamp'] (a clock reading) is left out. *)
Record TimingPlan := {
  tp_intersection_id : string;
  tp_signal_timings : list (string * DirectionTiming);
  tp_strategy : string;
  tp_emission_reduction : Z;
  tp_flow_improvement : Z;
  tp_urgency : string
}.

Inductive OptimizeResult :=
| OptError (error : string)
| OptPlan (plan : TimingPlan).

Definition select_strategy (intersection : Intersection) : string :=
  if (150 <? local_aqi intersection) && py_gt (avg_congestion intersection) (PyInt 60)
  then "emission_priority"
  else if py_gt (avg_congestion intersection) (PyInt 60) then "flow_priority"
  else if 100 <? local_aqi intersection then "emission_priority"
  else "balanced".

(** [(base_green, base_red, base_cycle, emission_reduction, flow_improvement)] *)
Definition strategy_parameters (strategy : string) : Z * Z * Z * Z * Z :=
  if String.eqb strategy "emission_priority" then (70, 40, 120, 18, -5)
  else if String.eqb strategy "flow_priority" then (60, 50, 120, 5, 15)
  else (50, 60, 120, 10, 8).

(** [intersection.signals[direction].<field> = v]: the local variable
    [intersection] is the registry's own object, so the write shows in the
    registry at once. *)
Definition assign_signal (intersection_id direction : string)
    (f : TrafficSignal -> TrafficSignal) : M unit :=
  st ← get;
  match intersections st !! intersection_id with
  | None => raise (KeyError intersection_id)
  | Some intersection =>
      match signals intersection !! direction with
      | None => raise (KeyError direction)
      | Some s =>
          put (set_intersections
                 (<[intersection_id :=
                      set_signals (<[direction := f s]> (signals intersection)) intersection]>
                    (intersections st)) st)
      end
  end.

(** The numbers of one direction: the first half of the loop body. *)
Definition direction_timing (base_green base_cycle total_queue queue : Z)
    : outcome DirectionTiming :=
  queue_proportion ← py_truediv (PyInt queue) (PyInt total_queue);
  weight ← py_add (PyFloat f_0_5) queue_proportion;
  raw_green ← py_mul (PyInt base_green) weight;
  let adjusted_green := py_max (PyInt 15) (py_min (PyInt 80) raw_green) in
  rest ← py_sub (PyInt base_cycle) adjusted_green;
  adjusted_red ← py_sub rest (PyInt 5);
  green ← py_int adjusted_green;
  red ← py_int adjusted_red;
  Returned
    {| dt_green_time := green; dt_red_time := red; dt_yellow_time := 5;
       dt_all_red_time := 3; dt_cycle_time := base_cycle;
       dt_queue_length := queue;
       dt_priority := if py_gt queue_proportion (PyFloat f_0_35)
                      then "high" else "normal" |}.

(** The body of the loop over the four directions: the entry of the
    returned dict, then the three writes to the stored signal. *)
Definition optimize_direction (intersection_id : string)
    (base_green base_cycle total_queue : Z)
    (signal_timings : list (string * DirectionTiming))
    (direction : string) (queue : Z) : M (list (string * DirectionTiming)) :=
  timing ← lift (direction_timing base_green base_cycle total_queue queue);
  let signal_timings := dict_set direction timing signal_timings in
  _ ← assign_signal intersection_id direction (set_green_time (dt_green_time timing));
  _ ← assign_signal intersection_id direction (set_red_time (dt_red_time timing));
  _ ← assign_signal intersection_id direction (set_cycle_time base_cycle);
  mret signal_timings.

Fixpoint optimize_loop (intersection_id : string)
    (base_green base_cycle total_queue : Z)
    (todo : list (string * Z))
    (signal_timings : list (string * DirectionTiming))
    : M (list (string * DirectionTiming)) :=
  match todo with
  | [] => mret signal_timings
  | (direction, queue) :: todo' =>
      signal_timings ←
        optimize_direction intersection_id base_green base_cycle total_queue
          signal_timings direction queue;
      optimize_loop intersection_id base_green base_cycle total_queue todo' signal_timings
  end.

(** The arguments [pollution_levels] and [traffic_recommendations] are never
    read by the method and are left out. *)
Definition optimize_signal_timing (intersection_id : string) : M OptimizeResult :=
  st ← get;
  match intersections st !! intersection_id with
  | None => mret (OptError "Intersection not found")
  | Some intersection =>
      let queues := [queue_length_north intersection;
                     queue_length_south intersection;
                     queue_length_east intersection;
                     queue_length_west intersection] in
      let strategy := select_strategy intersection in
      let '(base_green, _, base_cycle, emission_reduction, flow_improvement) :=
        strategy_parameters strategy in
      let total_queue := Z.max 1 (fold_left Z.add queues 0) in
      signal_timings ←
        optimize_loop intersection_id base_green base_cycle total_queue
          (zip directions queues) [];
      mret (OptPlan
              {| tp_intersection_id := intersection_id;
                 tp_signal_timings := signal_timings;
                 tp_strategy := strategy;
                 tp_emission_reduction := emission_reduction;
                 tp_flow_improvement := flow_improvement;
                 tp_urgency := priority_level intersection |})
  end.

(** ** [coordinate_green_wave] *)

(** The returned plan; its ['timestamp'] is left out. *)
Record GreenWavePlan := {
  gw_corridor : string;
  gw_intersections : list string;
  gw_offsets_seconds : list (string * Z);
  gw_target_speed_kmph : pynum;
  gw_expected_travel_time_minutes : pynum;
  gw_total_corridor_distance_km : pynum;
  gw_stops_reduced_percent : pynum;
  gw_emissions_reduced_percent : pynum;
  gw_coordination_status : string
}.

Inductive GreenWaveResult :=
| GwError (error : string)
| GwPlan (plan : GreenWavePlan).

(** The loop's local variables [offsets], [total_stops_reduced] and
    [total_emissions_reduced]. *)
Definition wave_acc : Type := list (string * Z) * Z * Z.

(** [offset = int(i * travel_time_per_intersection)] *)
Definition wave_offset (travel_time_per_intersection : pynum) (i : nat) : outcome Z :=
  p ← py_mul (PyInt (Z.of_nat i)) travel_time_per_intersection; py_int p.

(** The body of the loop over [enumerate(intersection_ids)]. *)
Definition green_wave_step (travel_time_per_intersection : pynum)
    (acc : wave_acc) (i : nat) (int_id : string) : M wave_acc :=
  st ← get;
  match intersections st !! int_id with
  | None => mret acc
  | Some intersection =>
      let '(offsets, total_stops_reduced, total_emissions_reduced) := acc in
      offset ← lift (wave_offset travel_time_per_intersection i);
      _ ← put (set_intersections
                 (<[int_id := set_signals (set_adaptive_offset offset <$> signals intersection)
                                intersection]> (intersections st))
                 (set_coordination_offsets (<[int_id := offset]> (coordination_offsets st)) st));
      mret (dict_set int_id offset offsets,
            total_stops_reduced + 12, total_emissions_reduced + 8)
  end.

Fixpoint green_wave_loop (travel_time_per_intersection : pynum)
    (i : nat) (todo : list string) (acc : wave_acc) : M wave_acc :=
  match todo with
  | [] => mret acc
  | int_id :: todo' =>
      acc ← green_wave_step travel_time_per_intersection acc i int_id;
      green_wave_loop travel_time_per_intersection (S i) todo' acc
  end.

Definition coordinate_green_wave (intersection_ids : list string)
    (road_name : string) (target_speed : pynum) : M GreenWaveResult :=
  if (length intersection_ids <? 2)%nat
  then mret (GwError "Need at least 2 intersections for green wave")
  else
    let distance_between := PyFloat f_1_0 in
    let len := PyInt (Z.of_nat (length intersection_ids)) in
    pace ← lift (py_truediv distance_between target_speed);
    travel_time_per_intersection ← lift (py_mul pace (PyInt 60));
    acc ← green_wave_loop travel_time_per_intersection 0 intersection_ids ([], 0, 0);
    let '(offsets, total_stops_reduced, total_emissions_reduced) := acc in
    avg_stops_reduced ← lift (py_truediv (PyInt total_stops_reduced) len);
    avg_emissions_reduced ← lift (py_truediv (PyInt total_emissions_reduced) len);
    hops ← lift (py_sub len (PyInt 1));
    total_distance ← lift (py_mul distance_between hops);
    pace_total ← lift (py_truediv total_distance target_speed);
    travel_time_minutes ← lift (py_mul pace_total (PyInt 60));
    mret (GwPlan
            {| gw_corridor := road_name;
               gw_intersections := intersection_ids;
               gw_offsets_seconds := offsets;
               gw_target_speed_kmph := target_speed;
               gw_expected_travel_time_minutes := py_round1 travel_time_minutes;
               gw_total_corridor_distance_km := py_round1 total_distance;
               gw_stops_reduced_percent := py_round1 avg_stops_reduced;
               gw_emissions_reduced_percent := py_round1 avg_emissions_reduced;
               gw_coordination_status := "active" |}).

(** ** [detect_conflicts] *)

(** The finding dicts, one constructor per ['type']. *)
Inductive Conflict :=
| queue_overflow (direction severity : string) (queue_length capacity : Z)
    (remediation : string)
| opposing_flows_blocked (severity remediation : string)
| high_congestion (severity : string) (congestion_percent : pynum)
    (remediation : string)
| air_quality_emergency (severity : string) (aqi : Z) (remediation : string).

Definition conflict_type (c : Conflict) : string :=
  match c with
  | queue_overflow _ _ _ _ _ => "queue_overflow"
  | opposing_flows_blocked _ _ => "opposing_flows_blocked"
  | high_congestion _ _ _ => "high_congestion"
  | air_quality_emergency _ _ _ => "air_quality_emergency"
  end.

Definition conflict_severity (c : Conflict) : string :=
  match c with
  | queue_overflow _ s _ _ _ => s
  | opposing_flows_blocked s _ => s
  | high_congestion s _ _ => s
  | air_quality_emergency s _ _ => s
  end.

(** [getattr(intersection, f'queue_length_{direction}')] *)
Definition queue_length (direction : string) (intersection : Intersection) : outcome Z :=
  if String.eqb direction "north" then Returned (queue_length_north intersection)
  else if String.eqb direction "south" then Returned (queue_length_south intersection)
  else if String.eqb direction "east" then Returned (queue_length_east intersection)
  else if String.eqb direction "west" then Returned (queue_length_west intersection)
  else Raised (AttributeError ("queue_length_" ++ direction)).

Fixpoint overflow_loop (intersection : Intersection) (queue_capacity : Z)
    (todo : list string) (conflicts : list Conflict) : outcome (list Conflict) :=
  match todo with
  | [] => Returned conflicts
  | direction :: todo' =>
      queue ← queue_length direction intersection;
      if queue_capacity <? queue then
        limit ← py_mul (PyInt queue_capacity) (PyFloat f_1_5);
        overflow_loop intersection queue_capacity todo'
          (conflicts ++
             [queue_overflow direction
                (if py_gt (PyInt queue) limit then "critical" else "high")
                queue queue_capacity "Increase green time for this direction"])
      else overflow_loop intersection queue_capacity todo' conflicts
  end.

Definition detect_conflicts (intersection_id : string) : M (list Conflict) :=
  st ← get;
  match intersections st !! intersection_id with
  | None => mret []
  | Some intersection =>
      let queue_capacity := 100 in
      conflicts ← lift (overflow_loop intersection queue_capacity directions []);
      let conflicts :=
        if ((20 <? queue_length_north intersection) && (20 <? queue_length_south intersection))
           || ((20 <? queue_length_east intersection) && (20 <? queue_length_west intersection))
        then conflicts ++ [opposing_flows_blocked "high"
                             "Distribute green time between opposing directions"]
        else conflicts in
      let conflicts :=
        if py_gt (avg_congestion intersection) (PyInt 70)
        then conflicts ++ [high_congestion "high" (avg_congestion intersection)
                             "Implement emission priority strategy"]
        else conflicts in
      let conflicts :=
        if 200 <? local_aqi intersection
        then conflicts ++ [air_quality_emergency "critical" (local_aqi intersection)
                             "Switch to emission priority mode - maximize green time"]
        else conflicts in
      mret conflicts
  end.

(** ** The specification's own wording, for comparison with the code *)

(** Section 4.2: the priority tiers as a top-down cascade of conditions. *)
Definition priority_cascade (congestion : pynum) (aqi max_queue : Z) : string :=
  if decide (py_gt congestion (PyInt 70) = true \/ 150 < aqi \/ 50 < max_queue)
  then "critical"
  else if decide (py_gt congestion (PyInt 50) = true \/ 100 < aqi \/ 30 < max_queue)
  then "high"
  else if decide (py_gt congestion (PyInt 30) = true \/ 50 < aqi)
  then "normal"
  else "low".

(** Section 4.3, step 1: the strategy decision table, first match wins. *)
Definition strategy_table (aqi : Z) (congestion : pynum) : string :=
  if decide (150 < aqi /\ py_gt congestion (PyInt 60) = true) then "emission_priority"
  else if decide (py_gt congestion (PyInt 60) = true) then "flow_priority"
  else if decide (100 < aqi) then "emission_priority"
  else "balanced".

(** How many of the supplied ids (counted with repetitions) the registry knows. *)
Definition known_count (st : TrafficSignalCoordinator) (ids : list string) : nat :=
  length (filter (fun i => is_Some (intersections st !! i)) ids).

Definition is_wave_error (r : outcome GreenWaveResult) : Prop :=
  r = Returned (GwError "Need at least 2 intersections for green wave").

(** ** Scenarios *)

(** The dict [{'queues': {'north': n, 'south': s, 'east': e, 'west': w}}]. *)
Definition queues_only (n s e w : Z) : TrafficData :=
  {| td_queues := Some (<["north" := n]> (<["south" := s]> (<["east" := e]>
                          (<["west" := w]> ∅))));
     td_avg_speed := None; td_congestion := None |}.

(** A freshly built coordinator, and the state that a call leaves behind. *)
Definition fresh : TrafficSignalCoordinator := __init__ (fun _ => 0) "bengaluru".

Definition after {A} (c : M A) (st : TrafficSignalCoordinator) : TrafficSignalCoordinator :=
  (c st).2.

Definition result {A} (c : M A) (st : TrafficSignalCoordinator) : outcome A :=
  (c st).1.

(** What a method call stored for one signal. *)
Definition stored_signal (st : TrafficSignalCoordinator) (id direction : string)
    : option TrafficSignal :=
  x ← intersections st !! id; signals x !! direction.

Definition f_6_0 : spec_float := S754_finite false 6755399441055744 (-50).
Definition f_12_0 : spec_float := S754_finite false 6755399441055744 (-49).
Definition f_8_0 : spec_float := S754_finite false 4503599627370496 (-49).
Definition f_2_0 : spec_float := S754_finite false 4503599627370496 (-51).
Definition f_0_0 : spec_float := S754_zero false.

(** The plan inside a result, when the call returned one. *)
Definition timing_plan (r : outcome OptimizeResult) : option TimingPlan :=
  match r with Returned (OptPlan p) => Some p | _ => None end.

Definition wave_plan (r : outcome GreenWaveResult) : option GreenWavePlan :=
  match r with Returned (GwPlan p) => Some p | _ => None end.

(** The entry of one direction in the reported ['signal_timings']. *)
Definition reported_timing (r : outcome OptimizeResult) (direction : string)
    : option DirectionTiming :=
  p ← timing_plan r; dict_get direction (tp_signal_timings p).

(** The four stored durations of a signal, summed. *)
Definition stored_cycle_sum (s : TrafficSignal) : Z :=
  green_time s + red_time s + yellow_time s + all_red_time s.

(** ** Vocabulary for the rounding facts *)

(** [x] is zero, or a canonical finite binary64 number below [2^K] in
    magnitude. *)
Definition fgood (K : Z) (x : spec_float) : Prop :=
  match x with
  | S754_zero _ => True
  | S754_finite _ m e =>
      bounded 53 1024 m e = true /\ Z.pos (digits2_pos m) + e <= K
  | _ => False
  end.

(** The mantissa kept by rounding [m] to nearest, ties to even, after
    dropping its [n] low bits. *)
Definition rne_shift (m n : Z) : Z :=
  let q := m / 2 ^ n in
  let r := m mod 2 ^ n in
  match 2 * r ?= 2 ^ n with
  | Lt => q
  | Eq => if Z.even q then q else q + 1
  | Gt => q + 1
  end.

(** Section 4.3, step 2: [(base_green, emission_reduction, flow_improvement)]
    of each strategy. *)
Definition strategy_constants (strategy : string) : Z * Z * Z :=
  if decide (strategy = "emission_priority") then (70, 18, -5)
  else if decide (strategy = "flow_priority") then (60, 5, 15)
  else (50, 10, 8).

(** [max(1, sum(queues))] of an intersection. *)
Definition total_queue_of (x : Intersection) : Z :=
  Z.max 1 (queue_length_north x + queue_length_south x
           + queue_length_east x + queue_length_west x).

(** ** Frames: what a call leaves as it was *)

(** Two signals that differ at most in [green_time], [red_time] and
    [cycle_time]. *)
Definition signal_frame (s s' : TrafficSignal) : Prop :=
  signal_id s' = signal_id s
  /\ intersection_name s' = intersection_name s
  /\ coordinates s' = coordinates s
  /\ yellow_time s' = yellow_time s
  /\ all_red_time s' = all_red_time s
  /\ current_phase s' = current_phase s
  /\ phase_start_time s' = phase_start_time s
  /\ time_in_phase s' = time_in_phase s
  /\ connected_roads s' = connected_roads s
  /\ min_green s' = min_green s
  /\ max_green s' = max_green s
  /\ adaptive_offset s' = adaptive_offset s.

(** Two intersections with the same identity and metrics, the same
    directions, and signals related by [signal_frame]. *)
Definition intersection_frame (x x' : Intersection) : Prop :=
  intersection_id x' = intersection_id x
  /\ name x' = name x
  /\ intersection_coordinates x' = intersection_coordinates x
  /\ queue_length_north x' = queue_length_north x
  /\ queue_length_south x' = queue_length_south x
  /\ queue_length_east x' = queue_length_east x
  /\ queue_length_west x' = queue_length_west x
  /\ avg_speed x' = avg_speed x
  /\ avg_congestion x' = avg_congestion x
  /\ local_aqi x' = local_aqi x
  /\ priority_level x' = priority_level x
  /\ forall d, option_Forall2 signal_frame (signals x !! d) (signals x' !! d).

Definition timing_frame (st st' : TrafficSignalCoordinator) : Prop :=
  city_name st' = city_name st
  /\ signal_timing_history st' = signal_timing_history st
  /\ coordination_offsets st' = coordination_offsets st
  /\ optimization_mode st' = optimization_mode st
  /\ forall id, option_Forall2 intersection_frame
                  (intersections st !! id) (intersections st' !! id).

(** The registry holds a signal for each of the four directions of [x]. *)
Definition four_signals (x : Intersection) : Prop :=
  forall d, d ∈ directions -> is_Some (signals x !! d).

Definition queues_nonneg (x : Intersection) : Prop :=
  0 <= queue_length_north x /\ 0 <= queue_length_south x
  /\ 0 <= queue_length_east x /\ 0 <= queue_length_west x.

(** A computation whose final state is always related to its initial one,
    whether it returns or raises. *)
Definition preserves (R : relation TrafficSignalCoordinator) {A} (c : M A) : Prop :=
  forall st, R st (c st).2.

(** The three writes of the optimizer to a stored signal. *)
Definition write_timing (t : DirectionTiming) (base_cycle : Z) (s : TrafficSignal)
    : TrafficSignal :=
  set_cycle_time base_cycle (set_red_time (dt_red_time t) (set_green_time (dt_green_time t) s)).

(** The coordinator with the intersection [x] stored under [id]. *)
Definition store_intersection (id : string) (x : Intersection)
    (st : TrafficSignalCoordinator) : TrafficSignalCoordinator :=
  set_intersections (<[id := x]> (intersections st)) st.

(** The rounding of the exact mantissa [M] at exponent [e], in units of
    [2^e]. *)
Definition rounded_units (M e : Z) : Z :=
  let n := fexp 53 1024 (Zdigits2 M + e) - e in
  rne_shift M n * 2 ^ n.

(** The floor of the dyadic number [m * 2^e]. *)
Definition dyadic_floor (a : Z * Z) : Z :=
  if 0 <=? a.2 then a.1 * 2 ^ a.2 else a.1 / 2 ^ (- a.2).

(** The order of dyadic numbers. *)
Definition dyadic_le (a b : Z * Z) : Prop := Float.dyadic_compare a b <> Gt.

(** [x] is zero or a positive finite number. *)
Definition fnonneg (x : spec_float) : Prop :=
  match x with
  | S754_zero _ => True
  | S754_finite s _ _ => s = false
  | _ => False
  end.

(** ** Green waves: the quantities of sections 4.4 and 8 *)

(** [travel_time_per_intersection = (distance_between / target_speed) * 60] *)
Definition hop_time (target_speed : pynum) : outcome pynum :=
  pace ← py_truediv (PyFloat f_1_0) target_speed; py_mul pace (PyInt 60).

(** [(distance_between * hops / target_speed) * 60] *)
Definition corridor_time (hops : Z) (target_speed : pynum) : outcome pynum :=
  total_distance ← py_mul (PyFloat f_1_0) (PyInt hops);
  pace ← py_truediv total_distance target_speed;
  py_mul pace (PyInt 60).

(** An intersection whose signals all carry [offset]. *)
Definition with_offset (offset : Z) (x : Intersection) : Intersection :=
  set_signals (set_adaptive_offset offset <$> signals x) x.

(** The last position of [id] in [todo], positions counted from [i]. *)
Fixpoint last_index (id : string) (todo : list string) (i : nat) : option nat :=
  match todo with
  | [] => None
  | x :: todo' =>
      match last_index id todo' (S i) with
      | Some k => Some k
      | None => if decide (x = id) then Some i else None
      end
  end.

(** A target speed that is a positive finite number of at least [2^-900]
    km/h: an int that [float()] converts, or a binary64 number. *)
Definition speed_in_range (target_speed : pynum) : bool :=
  match to_float target_speed with
  | Returned (S754_finite false m e) =>
      bounded 53 1024 m e && (-900 <? Z.pos (digits2_pos m) + e)
  | _ => false
  end.

(** The longest corridor the theorems speak about. *)
Definition corridor_limit : Z := 2 ^ 62.

(** What the loop over [todo], started at position [i], leaves behind: every
    known intersection of [todo] carries the offset [off k] of its last
    position [k], in its signals, in [coordination_offsets] and in the
    [offsets] dict; everything else is as before. *)
Definition wave_written (off : nat -> Z) (i : nat) (todo : list string)
    (st st' : TrafficSignalCoordinator) (offsets offsets' : list (string * Z)) : Prop :=
  city_name st' = city_name st
  /\ signal_timing_history st' = signal_timing_history st
  /\ optimization_mode st' = optimization_mode st
  /\ forall id,
       match intersections st !! id, last_index id todo i with
       | Some x, Some k =>
           intersections st' !! id = Some (with_offset (off k) x)
           /\ coordination_offsets st' !! id = Some (off k)
           /\ dict_get id offsets' = Some (off k)
       | _, _ =>
           intersections st' !! id = intersections st !! id
           /\ coordination_offsets st' !! id = coordination_offsets st !! id
           /\ dict_get id offsets' = dict_get id offsets
       end.

(** ** [generate_signal_plan] *)

(** One entry of the ['cycle_timeline'] list. *)
Record TimelineEntry := {
  tl_phase : string;
  tl_direction : string;
  tl_start : Z;
  tl_duration : Z;
  tl_end : Z
}.

(** The returned plan; its ['timestamp'] is left out. *)
Record SignalPlan := {
  sp_intersection_id : string;
  sp_name : string;
  sp_cycle_timeline : list TimelineEntry;
  sp_total_cycle_time : Z;
  sp_adaptive_offsets : gmap string Z;
  sp_estimated_wait_times_seconds : list (string * Z);
  sp_priority_level : string
}.

Inductive SignalPlanResult :=
| SpError (error : string)
| SpPlan (plan : SignalPlan).

(** [intersection.signals[direction]] *)
Definition signal_of (intersection : Intersection) (direction : string)
    : outcome TrafficSignal :=
  match signals intersection !! direction with
  | Some s => Returned s
  | None => Raised (KeyError direction)
  end.

(** The loop that builds the cycle timeline. *)
Fixpoint timeline_loop (intersection : Intersection) (todo : list string)
    (current_time : Z) (cycle_timeline : list TimelineEntry)
    : outcome (list TimelineEntry) :=
  match todo with
  | [] => Returned cycle_timeline
  | direction :: todo' =>
      signal ← signal_of intersection direction;
      timeline_loop intersection todo'
        (current_time + (green_time signal + yellow_time signal + all_red_time signal))
        (cycle_timeline ++
           [{| tl_phase := "GREEN"; tl_direction := direction;
               tl_start := current_time; tl_duration := green_time signal;
               tl_end := current_time + green_time signal |}])
  end.

(** The loop that estimates the wait times: [int(signal.red_time / 2)]. *)
Fixpoint wait_loop (intersection : Intersection) (todo : list string)
    (wait_times : list (string * Z)) : outcome (list (string * Z)) :=
  match todo with
  | [] => Returned wait_times
  | direction :: todo' =>
      signal ← signal_of intersection direction;
      estimated_wait ← py_truediv (PyInt (red_time signal)) (PyInt 2);
      wait ← py_int estimated_wait;
      wait_loop intersection todo' (dict_set direction wait wait_times)
  end.

(** [sum([s.cycle_time for s in intersection.signals.values()])] *)
Definition cycle_time_sum (sigs : gmap string TrafficSignal) : Z :=
  map_fold (fun _ s acc => acc + cycle_time s) 0 sigs.

Definition generate_signal_plan (intersection_id : string) : M SignalPlanResult :=
  st ← get;
  match intersections st !! intersection_id with
  | None => mret (SpError "Intersection not found")
  | Some intersection =>
      cycle_timeline ← lift (timeline_loop intersection directions 0 []);
      wait_times ← lift (wait_loop intersection directions []);
      mret (SpPlan
              {| sp_intersection_id := intersection_id;
                 sp_name := name intersection;
                 sp_cycle_timeline := cycle_timeline;
                 sp_total_cycle_time := cycle_time_sum (signals intersection) / 4;
                 sp_adaptive_offsets := adaptive_offset <$> signals intersection;
                 sp_estimated_wait_times_seconds := wait_times;
                 sp_priority_level := priority_level intersection |})
  end.

(** ** [get_corridor_status] *)

(** One entry of the ['intersections_status'] list. *)
Record IntersectionStatus := {
  is_id : string;
  is_name : string;
  is_congestion : pynum;
  is_aqi : Z;
  is_queued_vehicles : Z;
  is_priority : string;
  is_conflicts : Z
}.

(** The returned [corridor_data] dict. *)
Record CorridorStatus := {
  cs_intersections : Z;
  cs_avg_congestion : pynum;
  cs_avg_aqi : Z;
  cs_total_vehicles_queued : Z;
  cs_intersections_status : list IntersectionStatus;
  cs_conflicts_detected : Z;
  cs_optimization_needed : bool
}.

(** What the loop carries: [total_congestion], [total_aqi],
    [total_conflicts], and the two entries of [corridor_data] it updates. *)
Record corridor_acc := {
  ca_total_congestion : pynum;
  ca_total_aqi : Z;
  ca_total_conflicts : Z;
  ca_total_vehicles_queued : Z;
  ca_intersections_status : list IntersectionStatus
}.

(** The body of the loop over [corridor_intersections]. *)
Definition corridor_step (acc : corridor_acc) (int_id : string) : M corridor_acc :=
  st ← get;
  match intersections st !! int_id with
  | None => mret acc
  | Some intersection =>
      total_congestion ← lift (py_add (ca_total_congestion acc)
                                 (avg_congestion intersection));
      let total_aqi := ca_total_aqi acc + local_aqi intersection in
      let queues := [queue_length_north intersection; queue_length_south intersection;
                     queue_length_east intersection; queue_length_west intersection] in
      let total_queued := fold_left Z.add queues 0 in
      conflicts ← detect_conflicts int_id;
      let found := Z.of_nat (length conflicts) in
      mret {| ca_total_congestion := total_congestion;
              ca_total_aqi := total_aqi;
              ca_total_conflicts := ca_total_conflicts acc + found;
              ca_total_vehicles_queued := ca_total_vehicles_queued acc + total_queued;
              ca_intersections_status :=
                ca_intersections_status acc ++
                  [{| is_id := int_id; is_name := name intersection;
                      is_congestion := py_round1 (avg_congestion intersection);
                      is_aqi := local_aqi intersection;
                      is_queued_vehicles := total_queued;
                      is_priority := priority_level intersection;
                      is_conflicts := found |}] |}
  end.

Fixpoint corridor_loop (todo : list string) (acc : corridor_acc) : M corridor_acc :=
  match todo with
  | [] => mret acc
  | int_id :: todo' => acc ← corridor_step acc int_id; corridor_loop todo' acc
  end.

Definition get_corridor_status (corridor_intersections : list string)
    : M CorridorStatus :=
  acc ← corridor_loop corridor_intersections
          {| ca_total_congestion := PyInt 0; ca_total_aqi := 0;
             ca_total_conflicts := 0; ca_total_vehicles_queued := 0;
             ca_intersections_status := [] |};
  st ← get;
  let n := Z.of_nat (length (filter (fun i => is_Some (intersections st !! i))
                               corridor_intersections)) in
  averages ←
    (if decide (corridor_intersections <> []) then
       if 0 <? n then
         avg_congestion ← lift (py_truediv (ca_total_congestion acc) (PyInt n));
         avg_aqi ← lift (q ← py_truediv (PyInt (ca_total_aqi acc)) (PyInt n); py_int q);
         mret (py_round1 avg_congestion, avg_aqi)
       else mret (PyInt 0, 0)
     else mret (PyInt 0, 0));
  let '(avg_congestion, avg_aqi) := averages in
  mret {| cs_intersections := Z.of_nat (length corridor_intersections);
          cs_avg_congestion := avg_congestion;
          cs_avg_aqi := avg_aqi;
          cs_total_vehicles_queued := ca_total_vehicles_queued acc;
          cs_intersections_status := ca_intersections_status acc;
          cs_conflicts_detected := ca_total_conflicts acc;
          cs_optimization_needed :=
            (0 <? ca_total_conflicts acc) || py_gt avg_congestion (PyInt 60) |}.

(** ** Vocabulary of the further properties *)

(** A number that is zero: the int [0] or one of the floats [0.0], [-0.0]. *)
Definition is_zero_number (x : pynum) : bool :=
  match x with
  | PyInt z => z =? 0
  | PyFloat f => Float.is_zero f
  end.


(** Two signals that differ at most in [adaptive_offset]. *)
Definition offset_frame_signal (s s' : TrafficSignal) : Prop :=
  s' = set_adaptive_offset (adaptive_offset s') s.

(** Two intersections that differ at most in the [adaptive_offset] of their
    signals. *)
Definition offset_frame_intersection (x x' : Intersection) : Prop :=
  x' = set_signals (signals x') x
  /\ forall d, option_Forall2 offset_frame_signal (signals x !! d) (signals x' !! d).

(** What a green wave over [ids] may change: the [adaptive_offset] of the
    signals of known intersections of [ids] and their entries in
    [coordination_offsets]. *)
Definition wave_frame (ids : list string) (st st' : TrafficSignalCoordinator) : Prop :=
  city_name st' = city_name st
  /\ signal_timing_history st' = signal_timing_history st
  /\ optimization_mode st' = optimization_mode st
  /\ (forall id, option_Forall2 offset_frame_intersection
                   (intersections st !! id) (intersections st' !! id))
  /\ (forall id, id ∉ ids \/ intersections st !! id = None ->
                 intersections st' !! id = intersections st !! id
                 /\ coordination_offsets st' !! id = coordination_offsets st !! id).

(** Two coordinators that know the same intersection ids. *)
Definition same_ids (st1 st2 : TrafficSignalCoordinator) : Prop :=
  forall id, is_Some (intersections st1 !! id) <-> is_Some (intersections st2 !! id).

(** The seconds a direction takes in the cycle timeline:
    [green_time + yellow_time + all_red_time]. *)
Definition phase_span (s : TrafficSignal) : Z :=
  green_time s + yellow_time s + all_red_time s.

(** The seconds taken by the directions [ds], one after the other. *)
Definition elapsed (x : Intersection) (ds : list string) : Z :=
  foldr (fun d acc => default 0 (phase_span <$> signals x !! d) + acc) 0 ds.

(** The timeline entry of direction [d] that starts at [start]. *)
Definition green_phase (d : string) (start : Z) (s : TrafficSignal) : TimelineEntry :=
  {| tl_phase := "GREEN"; tl_direction := d; tl_start := start;
     tl_duration := green_time s; tl_end := start + green_time s |}.

(** The plan inside a result, when the call returned one. *)
Definition signal_plan (r : outcome SignalPlanResult) : option SignalPlan :=
  match r with Returned (SpPlan p) => Some p | _ => None end.

(** [int(signal.red_time / 2)] *)
Definition estimated_wait (s : TrafficSignal) : outcome Z :=
  q ← py_truediv (PyInt (red_time s)) (PyInt 2); py_int q.

(** The queue of a direction; 0 for a name that is no direction. *)
Definition queue_of (direction : string) (x : Intersection) : Z :=
  match queue_length direction x with
  | Returned q => q
  | Raised _ => 0
  end.

Definition f_150_0 : spec_float := S754_finite false 5277655813324800 (-45).

(** The finding that a direction with more than 100 queued vehicles gets. *)
Definition overflow_finding (x : Intersection) (d : string) : option Conflict :=
  let q := queue_of d x in
  if 100 <? q
  then Some (queue_overflow d (if 150 <? q then "critical" else "high") q 100
               "Increase green time for this direction")
  else None.

(** North and south, or east and west, both hold more than 20 vehicles. *)
Definition opposing_blocked (x : Intersection) : bool :=
  ((20 <? queue_length_north x) && (20 <? queue_length_south x))
  || ((20 <? queue_length_east x) && (20 <? queue_length_west x)).

(** The findings of an intersection, in the order of the checks. *)
Definition findings_of (x : Intersection) : list Conflict :=
  omap (overflow_finding x) directions
  ++ (if opposing_blocked x
      then [opposing_flows_blocked "high"
              "Distribute green time between opposing directions"]
      else [])
  ++ (if py_gt (avg_congestion x) (PyInt 70)
      then [high_congestion "high" (avg_congestion x)
              "Implement emission priority strategy"]
      else [])
  ++ (if 200 <? local_aqi x
      then [air_quality_emergency "critical" (local_aqi x)
              "Switch to emission priority mode - maximize green time"]
      else []).

(** The sum of a list of ints. *)
Definition Zsum (l : list Z) : Z := foldr Z.add 0 l.

(** The status entry of a known intersection of a corridor. *)
Definition status_entry (id : string) (x : Intersection) : IntersectionStatus :=
  {| is_id := id; is_name := name x;
     is_congestion := py_round1 (avg_congestion x);
     is_aqi := local_aqi x;
     is_queued_vehicles :=
       fold_left Z.add [queue_length_north x; queue_length_south x;
                        queue_length_east x; queue_length_west x] 0;
     is_priority := priority_level x;
     is_conflicts := Z.of_nat (length (findings_of x)) |}.

(** The entries of the known ids of a corridor, in corridor order. *)
Definition known_entries (st : TrafficSignalCoordinator) (ids : list string)
    : list IntersectionStatus :=
  omap (fun id => status_entry id <$> intersections st !! id) ids.

(** The accumulator that the loop of [get_corridor_status] starts from. *)
Definition corridor_start : corridor_acc :=
  {| ca_total_congestion := PyInt 0; ca_total_aqi := 0;
     ca_total_conflicts := 0; ca_total_vehicles_queued := 0;
     ca_intersections_status := [] |}.

(** The readings that [get_corridor_status] can always average: a float
    congestion and an AQI below [2^1021] in magnitude. *)
Definition plain_readings (x : Intersection) : Prop :=
  (exists c, avg_congestion x = PyFloat c) /\ Z.abs (local_aqi x) <= 2 ^ 1021.

(** The four directions with the queue of each, as the optimizer reads them. *)
Definition direction_queues (x : Intersection) : list (string * Z) :=
  zip directions [queue_length_north x; queue_length_south x;
                  queue_length_east x; queue_length_west x].

(** Two intersections with the same readings (queues, congestion, AQI,
    priority) and signals for the same directions. *)
Definition same_readings (x1 x2 : Intersection) : Prop :=
  queue_length_north x1 = queue_length_north x2
  /\ queue_length_south x1 = queue_length_south x2
  /\ queue_length_east x1 = queue_length_east x2
  /\ queue_length_west x1 = queue_length_west x2
  /\ avg_congestion x1 = avg_congestion x2
  /\ local_aqi x1 = local_aqi x2
  /\ priority_level x1 = priority_level x2
  /\ forall d, is_Some (signals x1 !! d) <-> is_Some (signals x2 !! d).

(** Two coordinators whose intersection [id], if any, has signals for the
    same directions. *)
Definition same_signal_keys (id : string) (st1 st2 : TrafficSignalCoordinator) : Prop :=
  option_Forall2
    (fun x1 x2 => forall d, is_Some (signals x1 !! d) <-> is_Some (signals x2 !! d))
    (intersections st1 !! id) (intersections st2 !! id).

(** Two computations that, started on coordinators related by [R], give the
    same outcome and leave coordinators related by [R]. *)
Definition simulates (R : relation TrafficSignalCoordinator) {A} (c1 c2 : M A) : Prop :=
  forall st1 st2, R st1 st2 -> (c1 st1).1 = (c2 st2).1 /\ R (c1 st1).2 (c2 st2).2.

(** [x] is a positive finite float with [lo <= x <= hi]. *)
Definition between (lo hi : Z) (x : spec_float) : Prop :=
  exists a, Float.dyadic x = Some a /\ 0 < a.1
            /\ dyadic_le (lo, 0) a /\ dyadic_le a (hi, 0).

(** ** Coordinators in use: the constructor followed by method calls *)

(** One call of a method, with its arguments. *)
Inductive call :=
| call_update_intersection_data (intersection_id : string)
    (traffic_data : TrafficData) (pollution_level : Z)
| call_optimize_signal_timing (intersection_id : string)
| call_coordinate_green_wave (intersection_ids : list string) (road_name : string)
    (target_speed : pynum)
| call_detect_conflicts (intersection_id : string)
| call_get_corridor_status (corridor_intersections : list string)
| call_generate_signal_plan (intersection_id : string).

(** The coordinator that a call leaves behind, whether it returns or raises. *)
Definition run_call (c : call) (st : TrafficSignalCoordinator) : TrafficSignalCoordinator :=
  match c with
  | call_update_intersection_data id traffic_data pollution_level =>
      after (update_intersection_data id traffic_data pollution_level) st
  | call_optimize_signal_timing id => after (optimize_signal_timing id) st
  | call_coordinate_green_wave ids road_name target_speed =>
      after (coordinate_green_wave ids road_name target_speed) st
  | call_detect_conflicts id => after (detect_conflicts id) st
  | call_get_corridor_status ids => after (get_corridor_status ids) st
  | call_generate_signal_plan id => after (generate_signal_plan id) st
  end.

Definition run_calls (cs : list call) (st : TrafficSignalCoordinator)
    : TrafficSignalCoordinator :=
  fold_left (fun st c => run_call c st) cs st.

(** The ids of the intersections that the constructor registers. *)
Definition default_ids : list string := di_id <$> default_intersections.

(** The fields of the signal of direction [d] of [x] that are as the
    constructor set them. *)
Definition static_ok (x : Intersection) (d : string) (s : TrafficSignal) : Prop :=
  signal_id s = (intersection_id x ++ "_" ++ upper d)%string
  /\ intersection_name s = name x
  /\ coordinates s = intersection_coordinates x
  /\ current_phase s = RED /\ time_in_phase s = 0
  /\ yellow_time s = 5 /\ all_red_time s = 5
  /\ min_green s = 15 /\ max_green s = 80.

(** The timings of a signal: in range, with the cycle time of 120. *)
Definition timing_ok (s : TrafficSignal) : Prop :=
  cycle_time s = 120
  /\ 15 <= green_time s <= 80
  /\ 35 <= red_time s <= 100.

(** The registry holds the intersections of the constructor, each with its
    four signals, and nothing else. *)
Definition structure_ok (city : string) (st : TrafficSignalCoordinator) : Prop :=
  city_name st = city
  /\ optimization_mode st = "balanced"
  /\ signal_timing_history st = ∅
  /\ (forall id, is_Some (intersections st !! id) <-> id ∈ default_ids)
  /\ (forall id, is_Some (coordination_offsets st !! id) -> id ∈ default_ids)
  /\ forall id x, intersections st !! id = Some x ->
       intersection_id x = id
       /\ (forall d, is_Some (signals x !! d) <-> d ∈ directions)
       /\ forall d s, signals x !! d = Some s -> static_ok x d s.

Definition timings_ok (st : TrafficSignalCoordinator) : Prop :=
  forall id x d s,
    intersections st !! id = Some x -> signals x !! d = Some s -> timing_ok s.

(** Every signal carries the offset that [coordination_offsets] records for
    its intersection, and 0 when it records none. *)
Definition offsets_ok (st : TrafficSignalCoordinator) : Prop :=
  forall id x d s,
    intersections st !! id = Some x -> signals x !! d = Some s ->
    adaptive_offset s = default 0 (coordination_offsets st !! id).

Definition well_formed (city : string) (st : TrafficSignalCoordinator) : Prop :=
  structure_ok city st /\ timings_ok st /\ offsets_ok st.

(** A computation that keeps a property of the coordinator, whether it
    returns or raises. *)
Definition keeps (P : TrafficSignalCoordinator -> Prop) {A} (c : M A) : Prop :=
  forall st, P st -> P (c st).2.

(** The float [6e-307], a positive target speed at which a corridor of
    three hops overflows. *)
Definition f_6e_307 : spec_float := S754_finite false 7590084499024148 (-1070).

(** * Facts about binary64 rounding *)

(** ** Digits *)

Lemma fexp_eq (e : Z) : fexp 53 1024 e = Z.max (e - 53) (-1074).
Proof. reflexivity. Qed.

Lemma digits2_pos_bounds (p : positive) :
  2 ^ (Z.pos (digits2_pos p) - 1) <= Z.pos p < 2 ^ Z.pos (digits2_pos p).
Proof.
  induction p as [p IH|p IH|]; simpl digits2_pos.
  - rewrite Pos2Z.inj_succ.
    replace (Z.succ (Z.pos (digits2_pos p)) - 1)
      with (Z.succ (Z.pos (digits2_pos p) - 1)) by lia.
    rewrite !Z.pow_succ_r by lia. lia.
  - rewrite Pos2Z.inj_succ.
    replace (Z.succ (Z.pos (digits2_pos p)) - 1)
      with (Z.succ (Z.pos (digits2_pos p) - 1)) by lia.
    rewrite !Z.pow_succ_r by lia. lia.
  - simpl. lia.
Qed.

Lemma Zdigits2_log2 (m : Z) : 0 < m -> Zdigits2 m = Z.log2 m + 1.
Proof.
  intros Hm. destruct m as [|p|p]; try lia.
  change (Zdigits2 (Z.pos p)) with (Z.pos (digits2_pos p)).
  pose proof (digits2_pos_bounds p) as [H1 H2].
  rewrite (Z.log2_unique (Z.pos p) (Z.pos (digits2_pos p) - 1)); [lia|lia|].
  split; [exact H1|]. replace (Z.succ (Z.pos (digits2_pos p) - 1))
    with (Z.pos (digits2_pos p)) by lia. exact H2.
Qed.

Lemma Zdigits2_nonneg (m : Z) : 0 <= Zdigits2 m.
Proof. destruct m; simpl; lia. Qed.

Lemma Zdigits2_bounds (m : Z) :
  0 < m -> 2 ^ (Zdigits2 m - 1) <= m < 2 ^ Zdigits2 m.
Proof. intros Hm. destruct m as [|p|p]; try lia. apply digits2_pos_bounds. Qed.

Lemma Zdigits2_unique (m k : Z) : 2 ^ (k - 1) <= m < 2 ^ k -> 0 < m -> Zdigits2 m = k.
Proof.
  intros [H1 H2] Hm. pose proof (Zdigits2_bounds m Hm) as [H3 H4].
  pose proof (Zdigits2_nonneg m) as Hd.
  assert (Hk : 0 <= k).
  { destruct (Z_lt_le_dec k 0) as [Hneg|]; [|assumption].
    rewrite (Z.pow_neg_r 2 k Hneg) in H2. lia. }
  destruct (Z_lt_le_dec (Zdigits2 m) k) as [Hlt|Hge].
  - assert (2 ^ Zdigits2 m <= 2 ^ (k - 1)) by (apply Z.pow_le_mono_r; lia). lia.
  - destruct (Z_lt_le_dec k (Zdigits2 m)) as [Hlt|Hge']; [|lia].
    assert (2 ^ k <= 2 ^ (Zdigits2 m - 1)) by (apply Z.pow_le_mono_r; lia). lia.
Qed.

Lemma Zdigits2_le (m k : Z) : 0 <= k -> 0 <= m < 2 ^ k -> Zdigits2 m <= k.
Proof.
  intros Hk [H0 Hm]. destruct (Z.eq_dec m 0) as [->|Hne]; [simpl; lia|].
  pose proof (Zdigits2_bounds m ltac:(lia)) as [H1 _].
  destruct (Z_lt_le_dec k (Zdigits2 m)) as [Hlt|]; [|assumption].
  assert (2 ^ k <= 2 ^ (Zdigits2 m - 1)) by (apply Z.pow_le_mono_r; lia). lia.
Qed.

Lemma Zdigits2_mono (a b : Z) : 0 <= a <= b -> Zdigits2 a <= Zdigits2 b.
Proof.
  intros [Ha Hab]. destruct (Z.eq_dec a 0) as [->|Hne]; [apply Zdigits2_nonneg|].
  rewrite !Zdigits2_log2 by lia.
  pose proof (Z.log2_le_mono a b Hab). lia.
Qed.

Lemma Zdigits2_pow2 (k : Z) : 0 <= k -> Zdigits2 (2 ^ k) = k + 1.
Proof.
  intros Hk. apply Zdigits2_unique; [|apply Z.pow_pos_nonneg; lia].
  replace (k + 1 - 1) with k by lia. split; [lia|].
  apply Z.pow_lt_mono_r; lia.
Qed.

Lemma Zdigits2_shiftl (m k : Z) : 0 < m -> 0 <= k -> Zdigits2 (m * 2 ^ k) = Zdigits2 m + k.
Proof.
  intros Hm Hk. pose proof (Zdigits2_bounds m Hm) as [H1 H2].
  pose proof (Zdigits2_nonneg m).
  assert (0 < Zdigits2 m).
  { destruct (Z.eq_dec (Zdigits2 m) 0) as [E|]; [|lia]. rewrite E in H2. simpl in H2. lia. }
  assert (0 < 2 ^ k) by (apply Z.pow_pos_nonneg; lia).
  apply Zdigits2_unique; [|nia].
  replace (Zdigits2 m + k - 1) with (Zdigits2 m - 1 + k) by lia.
  rewrite !Z.pow_add_r by lia. nia.
Qed.

Lemma Zdigits2_div_pow2 (m n : Z) :
  0 <= n -> 2 ^ n <= m -> Zdigits2 (m / 2 ^ n) = Zdigits2 m - n.
Proof.
  intros Hn Hm.
  assert (Hp : 0 < 2 ^ n) by (apply Z.pow_pos_nonneg; lia).
  pose proof (Zdigits2_bounds m ltac:(lia)) as [H1 H2].
  assert (Hd : n < Zdigits2 m).
  { destruct (Z_lt_le_dec n (Zdigits2 m)) as [|Hge]; [assumption|].
    assert (2 ^ Zdigits2 m <= 2 ^ n)
      by (apply Z.pow_le_mono_r; [lia|assumption]). lia. }
  assert (Hq : 0 < m / 2 ^ n) by (apply Z.div_str_pos; lia).
  apply Zdigits2_unique; [|assumption].
  split.
  - apply Z.div_le_lower_bound; [assumption|].
    rewrite <- Z.pow_add_r by (pose proof (Zdigits2_nonneg m); lia).
    replace (n + (Zdigits2 m - n - 1)) with (Zdigits2 m - 1) by lia. assumption.
  - apply Z.div_lt_upper_bound; [assumption|].
    rewrite <- Z.pow_add_r by lia.
    replace (n + (Zdigits2 m - n)) with (Zdigits2 m) by lia. assumption.
Qed.

Lemma Zdigits2_mul_le (a b : Z) :
  0 < a -> 0 < b -> Zdigits2 a + Zdigits2 b - 1 <= Zdigits2 (a * b) <= Zdigits2 a + Zdigits2 b.
Proof.
  intros Ha Hb. rewrite !Zdigits2_log2 by nia.
  pose proof (Z.log2_mul_below a b Ha Hb).
  pose proof (Z.log2_mul_above a b ltac:(lia) ltac:(lia)). lia.
Qed.

(** ** Shifting a mantissa to the right *)

Lemma iter_pos_nat {A} (f : A -> A) (p : positive) (x : A) :
  SpecFloat.iter_pos f p x = Nat.iter (Pos.to_nat p) f x.
Proof.
  revert x. induction p as [p IH|p IH|]; intros x; simpl SpecFloat.iter_pos.
  - rewrite !IH, Pos2Nat.inj_xI.
    replace (S (2 * Pos.to_nat p)) with (Pos.to_nat p + (Pos.to_nat p + 1))%nat by lia.
    rewrite !Nat.iter_add. reflexivity.
  - rewrite !IH, Pos2Nat.inj_xO.
    replace (2 * Pos.to_nat p)%nat with (Pos.to_nat p + Pos.to_nat p)%nat by lia.
    rewrite Nat.iter_add. reflexivity.
  - reflexivity.
Qed.

Lemma shr_1_m (mrs : shr_record) :
  0 <= shr_m mrs -> shr_m (shr_1 mrs) = shr_m mrs / 2.
Proof.
  destruct mrs as [m r s]. simpl shr_m. intros Hm.
  destruct m as [|[p|p|]|p]; try lia; simpl shr_1; simpl shr_m.
  - reflexivity.
  - apply (Z.div_unique _ _ _ 1); lia.
  - apply (Z.div_unique _ _ _ 0); lia.
  - reflexivity.
Qed.

Lemma iter_shr_m (k : nat) (mrs : shr_record) :
  0 <= shr_m mrs ->
  shr_m (Nat.iter k shr_1 mrs) = shr_m mrs / 2 ^ Z.of_nat k.
Proof.
  intros Hm. induction k as [|k IH].
  - simpl. rewrite Z.div_1_r. reflexivity.
  - rewrite Nat2Z.inj_succ, Z.pow_succ_r by lia. simpl Nat.iter.
    rewrite shr_1_m, IH.
    + rewrite Z.div_div by (try apply Z.pow_pos_nonneg; lia).
      f_equal. lia.
    + rewrite IH. apply Z.div_pos; [assumption|apply Z.pow_pos_nonneg; lia].
Qed.

(** [shr] by [n >= 0] divides the mantissa by [2^n] and adds [n] to the
    exponent. *)
Lemma shr_m_e (mrs : shr_record) (e n : Z) :
  0 <= shr_m mrs -> 0 <= n ->
  shr_m (shr mrs e n).1 = shr_m mrs / 2 ^ n /\ (shr mrs e n).2 = e + n.
Proof.
  intros Hm Hn. destruct n as [|p|p]; try lia; simpl.
  - rewrite Z.div_1_r. split; [reflexivity|lia].
  - rewrite iter_pos_nat, iter_shr_m, positive_nat_Z by assumption. split; reflexivity.
Qed.

Lemma shr_record_of_loc_m (m : Z) (l : location) : shr_m (shr_record_of_loc m l) = m.
Proof. destruct l as [|[]]; reflexivity. Qed.

Lemma round_nearest_even_cases (m : Z) (l : location) :
  round_nearest_even m l = m \/ round_nearest_even m l = m + 1.
Proof.
  destruct l as [|[]]; simpl; auto. destruct (Z.even m); auto.
Qed.

(** ** Rounding yields a canonical number of bounded magnitude *)

(** The first shift of [binary_round_aux] brings the mantissa to the
    exponent [fexp (digits + e)]. *)
Lemma shr_fexp_first (mx ex : Z) (lx : location) :
  0 <= mx ->
  ex <= fexp 53 1024 (Zdigits2 mx + ex) ->
  exists mrs',
    shr_fexp 53 1024 mx ex lx = (mrs', fexp 53 1024 (Zdigits2 mx + ex))
    /\ shr_m mrs' = mx / 2 ^ (fexp 53 1024 (Zdigits2 mx + ex) - ex).
Proof.
  intros Hmx Hex. unfold shr_fexp.
  destruct (shr_m_e (shr_record_of_loc mx lx) ex
              (fexp 53 1024 (Zdigits2 mx + ex) - ex)) as [Hm He];
    [rewrite shr_record_of_loc_m; assumption|lia|].
  rewrite shr_record_of_loc_m in Hm.
  destruct (shr (shr_record_of_loc mx lx) ex (fexp 53 1024 (Zdigits2 mx + ex) - ex))
    as [mrs' e'].
  simpl fst in Hm. simpl snd in He. exists mrs'. split; [f_equal; lia|exact Hm].
Qed.

(** The second shift does nothing to a mantissa of at most 53 digits. *)
Lemma shr_fexp_exact_keep (m e : Z) :
  fexp 53 1024 (Zdigits2 m + e) <= e ->
  shr_fexp 53 1024 m e loc_Exact = ({| shr_m := m; shr_r := false; shr_s := false |}, e).
Proof.
  intros H. unfold shr_fexp.
  destruct (fexp 53 1024 (Zdigits2 m + e) - e) eqn:E; try lia; reflexivity.
Qed.

(** It halves the mantissa [2^53]. *)
Lemma shr_fexp_exact_carry (e : Z) :
  -1074 <= e ->
  shr_fexp 53 1024 (2 ^ 53) e loc_Exact
    = ({| shr_m := 2 ^ 52; shr_r := false; shr_s := false |}, e + 1).
Proof.
  intros H. unfold shr_fexp. change (Zdigits2 (2 ^ 53)) with 54. rewrite fexp_eq.
  replace (Z.max (54 + e - 53) (-1074) - e) with 1 by lia. reflexivity.
Qed.

Lemma round_aux_good (sx : bool) (mx ex : Z) (lx : location) (k : Z) :
  0 <= mx ->
  ex <= fexp 53 1024 (Zdigits2 mx + ex) ->
  Zdigits2 mx + ex <= k ->
  -1074 <= k <= 1023 ->
  fgood (k + 1) (binary_round_aux 53 1024 sx mx ex lx).
Proof.
  intros Hmx Hex Hk Hrange.
  unfold binary_round_aux.
  destruct (shr_fexp_first mx ex lx Hmx Hex) as (mrs' & -> & Hm').
  remember (fexp 53 1024 (Zdigits2 mx + ex)) as fe eqn:Hfe.
  rewrite fexp_eq in Hfe.
  pose proof (Zdigits2_nonneg mx) as Hd.
  assert (Hfe970 : -1074 <= fe <= 970 /\ fe <= k) by lia.
  remember (shr_m mrs') as m' eqn:Em'.
  assert (Hpow : 0 < 2 ^ (fe - ex)) by (apply Z.pow_pos_nonneg; lia).
  assert (Hm'0 : 0 <= m') by (rewrite Hm'; apply Z.div_pos; lia).
  (* the kept mantissa has at most 53 digits and stays below [2^(k - fe)] *)
  assert (Hm'53 : m' < 2 ^ 53 /\ m' < 2 ^ (k - fe)
                  /\ (-1074 < fe -> 2 ^ 52 <= m')).
  { destruct (Z.eq_dec mx 0) as [->|Hne].
    - rewrite Hm', Z.div_0_l by lia. simpl in Hfe.
      repeat split; try (apply Z.pow_pos_nonneg; lia). intros. simpl in Hex. lia.
    - pose proof (Zdigits2_bounds mx ltac:(lia)) as [Hlo Hhi].
      assert (Hlt : forall j, 0 <= j -> Zdigits2 mx <= j + (fe - ex) -> m' < 2 ^ j).
      { intros j Hj Hdj. rewrite Hm'. apply Z.div_lt_upper_bound; [assumption|].
        rewrite <- Z.pow_add_r by lia.
        eapply Z.lt_le_trans; [exact Hhi|]. apply Z.pow_le_mono_r; lia. }
      repeat split.
      + apply Hlt; lia.
      + apply Hlt; lia.
      + intros Hfe'. rewrite Hm'. apply Z.div_le_lower_bound; [assumption|].
        rewrite <- Z.pow_add_r by lia.
        replace (fe - ex + 52) with (Zdigits2 mx - 1) by lia. assumption. }
  destruct Hm'53 as (H53 & HK & Hnorm).
  remember (round_nearest_even m' (loc_of_shr_record mrs')) as m1 eqn:Em1.
  assert (Hm1 : m1 = m' \/ m1 = m' + 1)
    by (rewrite Em1; apply round_nearest_even_cases).
  destruct (Z.eq_dec m1 (2 ^ 53)) as [E53|Hne53].
  - (* the rounding carried into a 54th digit *)
    rewrite E53, shr_fexp_exact_carry by lia.
    assert (Hk53 : 53 <= k - fe).
    { destruct (Z_lt_le_dec (k - fe) 53) as [Hlt|]; [|assumption].
      assert (2 ^ (k - fe) <= 2 ^ 52) by (apply Z.pow_le_mono_r; lia). lia. }
    change (shr_m {| shr_m := 2 ^ 52; shr_r := false; shr_s := false |})
      with (Z.pos 4503599627370496).
    cbv iota beta.
    destruct (fe + 1 <=? 1024 - 53) eqn:Hle; [|apply Z.leb_gt in Hle; lia].
    unfold fgood, bounded, canonical_mantissa.
    change (Z.pos (digits2_pos 4503599627370496)) with 53.
    rewrite fexp_eq. split; [|lia].
    apply andb_true_intro. split; [apply Z.eqb_eq; lia|assumption].
  - assert (Hm1b : 0 <= m1 < 2 ^ 53) by lia.
    pose proof (Zdigits2_le m1 53 ltac:(lia) Hm1b) as Hd1.
    rewrite shr_fexp_exact_keep by (rewrite fexp_eq; lia).
    cbv iota beta. simpl shr_m.
    destruct m1 as [|p1|p1] eqn:Ep; [exact I| |lia].
    destruct (fe <=? 1024 - 53) eqn:Hle; [|apply Z.leb_gt in Hle; lia].
    unfold fgood, bounded, canonical_mantissa.
    change (Z.pos (digits2_pos p1)) with (Zdigits2 (Z.pos p1)).
    split; [apply andb_true_intro; split; [apply Z.eqb_eq|assumption]|].
    + rewrite fexp_eq.
      destruct (Z_le_gt_dec fe (-1074)) as [Hmin|Hbig]; [lia|].
      assert (2 ^ 52 <= Z.pos p1) by lia.
      rewrite (Zdigits2_unique (Z.pos p1) 53); lia.
    + assert (Zdigits2 (Z.pos p1) <= k - fe + 1); [|lia].
      apply Zdigits2_le; [lia|]. split; [lia|].
      rewrite Z.pow_add_r by lia. lia.
Qed.

Lemma fgood_weaken (K K' : Z) (x : spec_float) : K <= K' -> fgood K x -> fgood K' x.
Proof. intros HK. destruct x; simpl; try tauto. intros [? ?]. split; [assumption|lia]. Qed.

Lemma fgood_finite (K : Z) (x : spec_float) :
  fgood K x -> Float.is_infinity x = false /\ x <> S754_nan.
Proof. destruct x; simpl; try tauto; intros _; split; try reflexivity; discriminate. Qed.

(** What [bounded] says about a mantissa and its exponent. *)
Lemma bounded_canonical (m : positive) (e : Z) :
  bounded 53 1024 m e = true ->
  e = Z.max (Z.pos (digits2_pos m) + e - 53) (-1074) /\ e <= 971.
Proof.
  unfold bounded, canonical_mantissa. intros H.
  apply andb_prop in H as [H1 H2]. apply Z.eqb_eq in H1. apply Z.leb_le in H2.
  rewrite fexp_eq in H1. lia.
Qed.

(** ** Multiplication *)

Lemma mul_good (Ka Kb : Z) (a b : spec_float) :
  fgood Ka a -> fgood Kb b -> Ka + Kb <= 1023 ->
  fgood (Z.max (Ka + Kb) (-1074) + 1) (Float.mul a b).
Proof.
  intros Ha Hb HK.
  destruct a as [sa|sa| |sa ma ea], b as [sb|sb| |sb mb eb]; simpl in Ha, Hb;
    try tauto; try exact I.
  destruct Ha as [Hca Hka], Hb as [Hcb Hkb].
  apply bounded_canonical in Hca as [Hea _], Hcb as [Heb _].
  unfold Float.mul, SFmul. fold Float.prec. fold Float.emax.
  change Float.prec with 53. change Float.emax with 1024.
  pose proof (Zdigits2_mul_le (Z.pos ma) (Z.pos mb) ltac:(lia) ltac:(lia)) as [Hlo Hhi].
  change (Zdigits2 (Z.pos ma)) with (Z.pos (digits2_pos ma)) in *.
  change (Zdigits2 (Z.pos mb)) with (Z.pos (digits2_pos mb)) in *.
  change (Z.pos (ma * mb)) with (Z.pos ma * Z.pos mb).
  apply round_aux_good; try lia.
  rewrite fexp_eq. lia.
Qed.

(** ** Alignment, normalisation, addition and subtraction *)

Lemma iter_xO_pow2 (m d : positive) : Z.pos (Pos.iter xO m d) = Z.pos m * 2 ^ Z.pos d.
Proof.
  induction d as [|d IH] using Pos.peano_ind.
  - simpl. lia.
  - rewrite Pos.iter_succ, Pos2Z.inj_succ, Z.pow_succ_r by lia.
    rewrite Pos2Z.inj_xO, IH. lia.
Qed.

Lemma shl_align_spec (mx : positive) (ex ex' : Z) :
  (shl_align mx ex ex').2 = Z.min ex ex'
  /\ Z.pos (shl_align mx ex ex').1 = Z.pos mx * 2 ^ (ex - Z.min ex ex').
Proof.
  unfold shl_align. destruct (ex' - ex) as [|d|d] eqn:E; simpl.
  - replace (ex - Z.min ex ex') with 0 by lia. split; lia.
  - replace (ex - Z.min ex ex') with 0 by lia. split; lia.
  - rewrite iter_xO_pow2. replace (ex - Z.min ex ex') with (Z.pos d) by lia.
    split; lia.
Qed.

Lemma round_good (sx : bool) (mx : positive) (ex k : Z) :
  Z.pos (digits2_pos mx) + ex <= k ->
  -1074 <= k <= 1023 ->
  fgood (k + 1) (binary_round 53 1024 sx mx ex).
Proof.
  intros Hk Hrange. unfold binary_round.
  pose proof (shl_align_spec mx ex (fexp 53 1024 (Z.pos (digits2_pos mx) + ex)))
    as [He Hm].
  destruct (shl_align mx ex (fexp 53 1024 (Z.pos (digits2_pos mx) + ex))) as [mz ez].
  simpl in He, Hm.
  assert (Hd : Zdigits2 (Z.pos mz) + ez = Z.pos (digits2_pos mx) + ex).
  { rewrite Hm, Zdigits2_shiftl by lia.
    change (Zdigits2 (Z.pos mx)) with (Z.pos (digits2_pos mx)). lia. }
  apply round_aux_good; try lia.
  rewrite Hd. lia.
Qed.

Lemma normalize_good (m e : Z) (szero : bool) (k : Z) :
  Zdigits2 (Z.abs m) + e <= k ->
  -1074 <= k <= 1023 ->
  fgood (k + 1) (binary_normalize 53 1024 m e szero).
Proof.
  intros Hk Hrange. destruct m as [|p|p]; simpl.
  - exact I.
  - apply round_good; assumption.
  - apply round_good; assumption.
Qed.

Lemma of_Z_good (z k : Z) :
  0 <= k <= 1023 -> Z.abs z < 2 ^ k -> fgood (k + 1) (Float.of_Z z).
Proof.
  intros Hk Hz. unfold Float.of_Z. apply normalize_good; [|lia].
  pose proof (Zdigits2_le (Z.abs z) k ltac:(lia) ltac:(lia)). lia.
Qed.

(** An aligned sum or difference of two mantissas below [2^Ka] and [2^Kb]. *)
Lemma aligned_digits (sa sb : bool) (ma mb : positive) (ea eb Ka Kb : Z)
    (op : Z -> Z -> Z) :
  (forall x y, Z.abs (op x y) <= Z.abs x + Z.abs y) ->
  Z.pos (digits2_pos ma) + ea <= Ka ->
  Z.pos (digits2_pos mb) + eb <= Kb ->
  Zdigits2 (Z.abs (op (cond_Zopp sa (Z.pos (shl_align ma ea (Z.min ea eb)).1))
                      (cond_Zopp sb (Z.pos (shl_align mb eb (Z.min ea eb)).1))))
    + Z.min ea eb <= Z.max Ka Kb + 1.
Proof.
  intros Hop Ha Hb.
  pose proof (shl_align_spec ma ea (Z.min ea eb)) as [_ Hma].
  pose proof (shl_align_spec mb eb (Z.min ea eb)) as [_ Hmb].
  rewrite Hma, Hmb.
  replace (Z.min ea (Z.min ea eb)) with (Z.min ea eb) by lia.
  replace (Z.min eb (Z.min ea eb)) with (Z.min ea eb) by lia.
  set (ez := Z.min ea eb).
  pose proof (digits2_pos_bounds ma) as [_ Hua].
  pose proof (digits2_pos_bounds mb) as [_ Hub].
  assert (Hpa : 0 < 2 ^ (ea - ez)) by (apply Z.pow_pos_nonneg; lia).
  assert (Hpb : 0 < 2 ^ (eb - ez)) by (apply Z.pow_pos_nonneg; lia).
  assert (Hva : Z.pos ma * 2 ^ (ea - ez) < 2 ^ (Z.max Ka Kb - ez)).
  { eapply Z.lt_le_trans; [apply Z.mul_lt_mono_pos_r; [assumption|exact Hua]|].
    rewrite <- Z.pow_add_r by lia. apply Z.pow_le_mono_r; lia. }
  assert (Hvb : Z.pos mb * 2 ^ (eb - ez) < 2 ^ (Z.max Ka Kb - ez)).
  { eapply Z.lt_le_trans; [apply Z.mul_lt_mono_pos_r; [assumption|exact Hub]|].
    rewrite <- Z.pow_add_r by lia. apply Z.pow_le_mono_r; lia. }
  assert (Hk : 0 <= Z.max Ka Kb - ez).
  { destruct (Z_lt_le_dec (Z.max Ka Kb - ez) 0) as [Hneg|]; [|assumption].
    rewrite (Z.pow_neg_r 2 _ Hneg) in Hva. lia. }
  match goal with |- Zdigits2 (Z.abs ?v) + _ <= _ =>
    assert (Hv : Z.abs v < 2 ^ (Z.max Ka Kb - ez + 1)) end.
  { rewrite Z.pow_add_r, Z.pow_1_r by lia.
    eapply Z.le_lt_trans; [apply Hop|].
    destruct sa, sb; simpl cond_Zopp; lia. }
  match goal with |- Zdigits2 (Z.abs ?v) + _ <= _ =>
    pose proof (Zdigits2_le (Z.abs v) (Z.max Ka Kb - ez + 1) ltac:(lia) ltac:(lia)) end.
  lia.
Qed.

Lemma add_good (Ka Kb : Z) (a b : spec_float) :
  fgood Ka a -> fgood Kb b -> -1075 <= Z.max Ka Kb <= 1022 ->
  fgood (Z.max Ka Kb + 2) (Float.add a b).
Proof.
  intros Ha Hb HK.
  destruct a as [sa|sa| |sa ma ea], b as [sb|sb| |sb mb eb]; simpl in Ha, Hb;
    try tauto.
  - destruct sa, sb; exact I.
  - simpl. split; [tauto|lia].
  - simpl. split; [tauto|lia].
  - unfold Float.add, SFadd. change Float.prec with 53. change Float.emax with 1024.
    cbv zeta.
    replace (Z.max Ka Kb + 2) with (Z.max Ka Kb + 1 + 1) by lia.
    apply normalize_good; [|lia].
    apply (aligned_digits sa sb ma mb ea eb Ka Kb Z.add); [intros; lia|tauto|tauto].
Qed.

Lemma sub_good (Ka Kb : Z) (a b : spec_float) :
  fgood Ka a -> fgood Kb b -> -1075 <= Z.max Ka Kb <= 1022 ->
  fgood (Z.max Ka Kb + 2) (Float.sub a b).
Proof.
  intros Ha Hb HK.
  destruct a as [sa|sa| |sa ma ea], b as [sb|sb| |sb mb eb]; simpl in Ha, Hb;
    try tauto.
  - destruct sa, sb; exact I.
  - simpl. split; [tauto|lia].
  - simpl. split; [tauto|lia].
  - unfold Float.sub, SFsub. change Float.prec with 53. change Float.emax with 1024.
    cbv zeta.
    replace (Z.max Ka Kb + 2) with (Z.max Ka Kb + 1 + 1) by lia.
    apply normalize_good; [|lia].
    apply (aligned_digits sa sb ma mb ea eb Ka Kb Z.sub); [intros; lia|tauto|tauto].
Qed.

(** ** Division *)

Lemma div_core_good (mx my : positive) (ex ey : Z) :
  let A := Z.pos (digits2_pos mx) + ex - (Z.pos (digits2_pos my) + ey) in
  let '(mz, ez, _) := SFdiv_core_binary 53 1024 (Z.pos mx) ex (Z.pos my) ey in
  0 <= mz
  /\ ez <= fexp 53 1024 (Zdigits2 mz + ez)
  /\ Zdigits2 mz + ez <= Z.max (A + 1) (-1074).
Proof.
  intros A. unfold SFdiv_core_binary.
  change (Zdigits2 (Z.pos mx)) with (Z.pos (digits2_pos mx)).
  change (Zdigits2 (Z.pos my)) with (Z.pos (digits2_pos my)).
  fold A. cbv zeta.
  remember (Z.min (fexp 53 1024 A) (ex - ey)) as e' eqn:He'.
  rewrite fexp_eq in He'.
  remember (ex - ey - e') as s eqn:Hs.
  assert (Hs0 : 0 <= s) by lia.
  remember (match s with
            | 0 => Z.pos mx
            | Z.pos _ => Z.shiftl (Z.pos mx) s
            | Z.neg _ => 0
            end) as m' eqn:Hm'.
  assert (Em' : m' = Z.pos mx * 2 ^ s).
  { rewrite Hm'. destruct s as [|p|p]; [simpl; lia| |lia].
    apply Z.shiftl_mul_pow2. lia. }
  clear Hm'.
  destruct (Z.div_eucl m' (Z.pos my)) as [q r] eqn:Ediv.
  assert (Hq : q = m' / Z.pos my) by (unfold Z.div; rewrite Ediv; reflexivity).
  clear Ediv.
  pose proof (digits2_pos_bounds mx) as [Hlx Hux].
  pose proof (digits2_pos_bounds my) as [Hly Huy].
  set (dx := Z.pos (digits2_pos mx)) in *. set (dy := Z.pos (digits2_pos my)) in *.
  assert (Hdx : 0 < dx) by (unfold dx; lia).
  assert (Hdy : 0 < dy) by (unfold dy; lia).
  assert (Hp : 0 < 2 ^ s) by (apply Z.pow_pos_nonneg; lia).
  assert (Hm'lo : 2 ^ (dx + s - 1) <= m').
  { rewrite Em'. replace (dx + s - 1) with (dx - 1 + s) by lia.
    rewrite Z.pow_add_r by lia. apply Z.mul_le_mono_nonneg_r; lia. }
  assert (Hm'hi : m' < 2 ^ (dx + s)).
  { rewrite Em', Z.pow_add_r by lia. apply Z.mul_lt_mono_pos_r; lia. }
  assert (Hq0 : 0 <= q) by (rewrite Hq; apply Z.div_pos; lia).
  assert (Hqlo : q * Z.pos my <= m').
  { rewrite Hq, Z.mul_comm. apply Z.mul_div_le. lia. }
  split; [assumption|].
  assert (HA : A = dx + s - dy + e') by (unfold A; lia).
  split.
  - rewrite fexp_eq.
    destruct (Z_le_gt_dec e' (-1074)) as [Hmin|Hbig]; [lia|].
    assert (H53 : 53 <= dx + s - dy) by lia.
    assert (Hqbig : 2 ^ (dx + s - dy - 1) <= q).
    { rewrite Hq. apply Z.div_le_lower_bound; [lia|].
      eapply Z.le_trans; [|exact Hm'lo].
      replace (dx + s - 1) with (dy + (dx + s - dy - 1)) by lia.
      rewrite Z.pow_add_r by lia.
      apply Z.mul_le_mono_nonneg_r; [apply Z.pow_nonneg; lia|lia]. }
    assert (Hdq : dx + s - dy <= Zdigits2 q).
    { pose proof (Zdigits2_mono (2 ^ (dx + s - dy - 1)) q) as Hmono.
      rewrite Zdigits2_pow2 in Hmono by lia.
      assert (0 <= 2 ^ (dx + s - dy - 1)) by (apply Z.pow_nonneg; lia). lia. }
    lia.
  - destruct (Z.eq_dec q 0) as [->|Hqne]; [simpl; lia|].
    assert (Hpos : 0 <= dx + s - dy + 1).
    { destruct (Z_lt_le_dec (dx + s - dy + 1) 0) as [Hneg|]; [|assumption].
      assert (2 ^ (dx + s) <= 2 ^ (dy - 1)) by (apply Z.pow_le_mono_r; lia). nia. }
    assert (Hqhi : q < 2 ^ (dx + s - dy + 1)).
    { assert (Hlt : q * 2 ^ (dy - 1) < 2 ^ (dx + s - dy + 1) * 2 ^ (dy - 1)).
      { rewrite <- Z.pow_add_r by lia.
        replace (dx + s - dy + 1 + (dy - 1)) with (dx + s) by lia.
        eapply Z.le_lt_trans; [|exact Hm'hi].
        eapply Z.le_trans; [|exact Hqlo].
        apply Z.mul_le_mono_nonneg_l; lia. }
      apply Z.mul_lt_mono_pos_r in Hlt; [assumption|].
      apply Z.pow_pos_nonneg; lia. }
    pose proof (Zdigits2_le q (dx + s - dy + 1) Hpos ltac:(lia)). lia.
Qed.

Lemma div_finite_good (sa sb : bool) (ma mb : positive) (ea eb Ka Lb : Z) :
  Z.pos (digits2_pos ma) + ea <= Ka ->
  Lb <= Z.pos (digits2_pos mb) + eb ->
  Ka - Lb <= 1022 ->
  fgood (Z.max (Ka - Lb + 1) (-1074) + 1)
    (Float.div (S754_finite sa ma ea) (S754_finite sb mb eb)).
Proof.
  intros Ha Hb HK. unfold Float.div, SFdiv.
  change Float.prec with 53. change Float.emax with 1024.
  pose proof (div_core_good ma mb ea eb) as H. cbv zeta in H.
  destruct (SFdiv_core_binary 53 1024 (Z.pos ma) ea (Z.pos mb) eb) as [[mz ez] lz].
  destruct H as (H0 & Hpre & Hdig).
  apply round_aux_good; try assumption; lia.
Qed.

(** The quotient of two integers, the dividend not larger in magnitude than
    [2^j] times the divisor. *)
Lemma div_Z_good (a b j : Z) :
  b <> 0 -> 0 <= j <= 1021 -> Z.abs a <= 2 ^ j * Z.abs b ->
  fgood (j + 3) (Float.div_Z a b).
Proof.
  intros Hb Hj Hab. unfold Float.div_Z.
  destruct a as [|pa|pa]; [exact I| |];
    (destruct b as [|pb|pb]; [lia| |]); unfold Float.exact_Z;
    (eapply fgood_weaken;
     [|apply (div_finite_good _ _ _ _ 0 0 (Z.pos (digits2_pos pb) + j + 1)
                (Z.pos (digits2_pos pb))); try lia]); try lia;
    pose proof (digits2_pos_bounds pb) as [_ Hub];
    assert (Hlt : Z.pos pa < 2 ^ (Z.pos (digits2_pos pb) + j))
      by (rewrite Z.pow_add_r by lia;
          assert (0 < 2 ^ j) by (apply Z.pow_pos_nonneg; lia); nia);
    pose proof (Zdigits2_le (Z.pos pa) (Z.pos (digits2_pos pb) + j) ltac:(lia) ltac:(lia)) as Hd;
    change (Zdigits2 (Z.pos pa)) with (Z.pos (digits2_pos pa)) in Hd; lia.
Qed.

(** ** Comparison with an integer, and truncation *)

Lemma fgood_dyadic (K : Z) (x : spec_float) : fgood K x -> is_Some (Float.dyadic x).
Proof. destruct x; simpl; try tauto; eauto. Qed.

Lemma py_int_dyadic (x : spec_float) (a : Z * Z) :
  Float.dyadic x = Some a -> py_int (PyFloat x) = Returned (Float.trunc_dyadic a).
Proof. destruct x; simpl; try discriminate; intros [= <-]; reflexivity. Qed.

(** [x < n] for an integer [n > 0] bounds [int(x)] from above. *)
Lemma ltb_int_r (x : spec_float) (n : Z) (a : Z * Z) :
  0 < n -> Float.ltb x (Float.exact_Z n) = true -> Float.dyadic x = Some a ->
  Float.trunc_dyadic a < n.
Proof.
  intros Hn Hlt Ha. destruct n as [|pn|pn]; try lia.
  unfold Float.ltb, Float.compare in Hlt. simpl Float.exact_Z in Hlt.
  destruct x as [s|s| |s m e]; simpl in Ha; try discriminate; injection Ha as <-.
  - unfold Float.trunc_dyadic. simpl. lia.
  - simpl in Hlt. unfold Float.dyadic_compare, Float.trunc_dyadic in *. simpl in *.
    destruct (Z.compare_spec (cond_Zopp s (Z.pos m) * 2 ^ (e - Z.min e 0))
                (Z.pos pn * 2 ^ (0 - Z.min e 0))) as [?|Hc|?]; try discriminate.
    destruct (Z.leb_spec 0 e) as [He|He].
    + replace (Z.min e 0) with 0 in Hc by lia.
      replace (e - 0) with e in Hc by lia. simpl in Hc. lia.
    + replace (Z.min e 0) with e in Hc by lia.
      replace (e - e) with 0 in Hc by lia. replace (0 - e) with (- e) in Hc by lia.
      assert (Hp : 0 < 2 ^ (- e)) by (apply Z.pow_pos_nonneg; lia).
      destruct s; simpl cond_Zopp in *.
      * rewrite Z.quot_opp_l by lia.
        pose proof (Z.quot_pos (Z.pos m) (2 ^ (- e)) ltac:(lia) Hp). lia.
      * rewrite Z.quot_div_nonneg by lia.
        apply Z.div_lt_upper_bound; lia.
Qed.

(** [n < x] for an integer [n >= 0] bounds [int(x)] from below. *)
Ltac lt_of_compare H :=
  match type of H with (?a ?= ?b) = Lt => change (a < b) in H end.

Lemma ltb_dyadic (x y : spec_float) (a b : Z * Z) :
  Float.dyadic x = Some a -> Float.dyadic y = Some b ->
  Float.ltb x y = true -> Float.dyadic_compare a b = Lt.
Proof.
  intros Ha Hb. unfold Float.ltb, Float.compare.
  destruct x as [sx|sx| |sx mx ex]; try discriminate;
    destruct y as [sy|sy| |sy my ey]; try discriminate;
    rewrite Ha, Hb; destruct (Float.dyadic_compare a b); try discriminate; reflexivity.
Qed.

Lemma dyadic_exact_Z (n : Z) : Float.dyadic (Float.exact_Z n) = Some (n, 0).
Proof. destruct n; reflexivity. Qed.

Lemma ltb_int_l (x : spec_float) (n : Z) (a : Z * Z) :
  0 <= n -> Float.ltb (Float.exact_Z n) x = true -> Float.dyadic x = Some a ->
  n <= Float.trunc_dyadic a.
Proof.
  intros Hn Hlt Ha.
  pose proof (ltb_dyadic _ _ _ _ (dyadic_exact_Z n) Ha Hlt) as Hc.
  clear Hlt. unfold Float.dyadic_compare in Hc.
  destruct x as [s|s| |s m e]; simpl in Ha; try discriminate; injection Ha as <-;
    simpl in Hc; unfold Float.trunc_dyadic; simpl.
  - change (2 ^ (0 - Z.min 0 0)) with 1 in Hc. lt_of_compare Hc. lia.
  - lt_of_compare Hc.
    assert (Hs : s = false).
    { destruct s; [|reflexivity]. simpl in Hc.
      assert (0 < 2 ^ (e - Z.min 0 e)) by (apply Z.pow_pos_nonneg; lia).
      assert (0 <= 2 ^ (0 - Z.min 0 e)) by (apply Z.pow_nonneg; lia). nia. }
    subst s. simpl cond_Zopp in *.
    destruct (Z.leb_spec 0 e) as [He|He].
    + replace (Z.min 0 e) with 0 in Hc by lia. simpl in Hc.
      replace (e - 0) with e in Hc by lia. lia.
    + replace (Z.min 0 e) with e in Hc by lia.
      replace (e - e) with 0 in Hc by lia. replace (0 - e) with (- e) in Hc by lia.
      assert (Hp : 0 < 2 ^ (- e)) by (apply Z.pow_pos_nonneg; lia).
      rewrite Z.quot_div_nonneg by lia.
      apply Z.div_le_lower_bound; lia.
Qed.

(** ** Rounding an exact mantissa: the value of the result *)

Lemma shr_1_spec (mrs : shr_record) :
  0 <= shr_m mrs ->
  shr_1 mrs = {| shr_m := shr_m mrs / 2; shr_r := Z.odd (shr_m mrs);
                 shr_s := shr_r mrs || shr_s mrs |}.
Proof.
  destruct mrs as [m r s]. simpl shr_m. simpl shr_r. simpl shr_s. intros Hm.
  destruct m as [|[p|p|]|p]; try lia; simpl shr_1; f_equal.
  - apply (Z.div_unique _ _ _ 1); lia.
  - apply (Z.div_unique _ _ _ 0); lia.
Qed.

(** After [k + 1] steps from an exact mantissa [M]: the quotient, the bit
    just dropped, and whether anything below it was dropped. *)
Lemma iter_shr_exact (k : nat) (M : Z) :
  0 <= M ->
  Nat.iter (S k) shr_1 {| shr_m := M; shr_r := false; shr_s := false |}
    = {| shr_m := M / 2 ^ Z.of_nat (S k);
         shr_r := Z.odd (M / 2 ^ Z.of_nat k);
         shr_s := negb (M mod 2 ^ Z.of_nat k =? 0) |}.
Proof.
  intros HM. induction k as [|k IH].
  - change (Nat.iter 1 shr_1 ?x) with (shr_1 x).
    rewrite shr_1_spec by assumption. simpl shr_m. simpl shr_r. simpl shr_s.
    change (Z.of_nat 1) with 1. change (Z.of_nat 0) with 0.
    rewrite Z.pow_0_r, Z.pow_1_r, Z.div_1_r, Z.mod_1_r. reflexivity.
  - change (Nat.iter (S (S k)) shr_1 ?x) with (shr_1 (Nat.iter (S k) shr_1 x)).
    rewrite IH.
    assert (Hp : 0 < 2 ^ Z.of_nat k) by (apply Z.pow_pos_nonneg; lia).
    assert (Hp' : 0 < 2 ^ Z.of_nat (S k)) by (apply Z.pow_pos_nonneg; lia).
    rewrite shr_1_spec by (simpl; apply Z.div_pos; lia). simpl shr_m. simpl shr_r.
    simpl shr_s. f_equal.
    + rewrite Z.div_div by lia. f_equal.
      rewrite (Nat2Z.inj_succ (S k)), Z.pow_succ_r by lia. lia.
    + (* the sticky bit *)
      rewrite (Nat2Z.inj_succ k), Z.pow_succ_r by lia.
      rewrite (Z.mul_comm 2), Z.rem_mul_r by lia.
      pose proof (Z.mod_pos_bound M (2 ^ Z.of_nat k) Hp) as Hlow.
      pose proof (Z.mod_pos_bound (M / 2 ^ Z.of_nat k) 2 ltac:(lia)) as Hbit.
      rewrite (Zmod_odd (M / 2 ^ Z.of_nat k)) in *.
      destruct (Z.odd (M / 2 ^ Z.of_nat k)); simpl orb;
        destruct (Z.eqb_spec (M mod 2 ^ Z.of_nat k) 0) as [E|E]; simpl negb;
        symmetry; try (apply negb_true_iff); try (apply negb_false_iff);
        try (apply Z.eqb_neq); try (apply Z.eqb_eq); nia.
Qed.

Lemma rne_shift_0 (M : Z) : rne_shift M 0 = M.
Proof.
  unfold rne_shift. simpl. rewrite Z.div_1_r, Z.mod_1_r. reflexivity.
Qed.

(** The mantissa chosen by [round_nearest_even] after a shift by [n > 0]
    bits is the nearest-even quotient. *)
Lemma shr_exact_rne (M e : Z) (p : positive) :
  0 <= M ->
  let mrs := (shr (shr_record_of_loc M loc_Exact) e (Z.pos p)).1 in
  round_nearest_even (shr_m mrs) (loc_of_shr_record mrs) = rne_shift M (Z.pos p).
Proof.
  intros HM. simpl. rewrite iter_pos_nat.
  destruct (Pos2Nat.is_succ p) as [k Hk]. rewrite Hk, iter_shr_exact by assumption.
  assert (Ep : Z.pos p = Z.of_nat (S k)) by lia.
  rewrite Ep. clear Hk Ep.
  assert (Hp : 0 < 2 ^ Z.of_nat k) by (apply Z.pow_pos_nonneg; lia).
  unfold rne_shift.
  set (q := M / 2 ^ Z.of_nat (S k)).
  assert (Hrem : M mod 2 ^ Z.of_nat (S k)
                 = M mod 2 ^ Z.of_nat k + 2 ^ Z.of_nat k * ((M / 2 ^ Z.of_nat k) mod 2)).
  { rewrite (Nat2Z.inj_succ k), Z.pow_succ_r by lia.
    rewrite (Z.mul_comm 2), Z.rem_mul_r by lia. reflexivity. }
  rewrite Hrem. rewrite (Nat2Z.inj_succ k), Z.pow_succ_r by lia.
  pose proof (Z.mod_pos_bound M (2 ^ Z.of_nat k) Hp) as Hlow.
  rewrite (Zmod_odd (M / 2 ^ Z.of_nat k)).
  destruct (Z.odd (M / 2 ^ Z.of_nat k)); simpl loc_of_shr_record;
    destruct (Z.eqb_spec (M mod 2 ^ Z.of_nat k) 0) as [E|E]; simpl negb;
    cbv iota; simpl round_nearest_even;
    match goal with
    | |- context [?a ?= ?b] => destruct (Z.compare_spec a b)
    end; try reflexivity; exfalso; nia.
Qed.

(** ** Properties of the nearest-even quotient *)

Lemma rne_shift_cases (M n : Z) :
  0 <= n ->
  (rne_shift M n = M / 2 ^ n \/ rne_shift M n = M / 2 ^ n + 1)
  /\ (M mod 2 ^ n = 0 -> rne_shift M n = M / 2 ^ n).
Proof.
  intros Hn. assert (Hp : 0 < 2 ^ n) by (apply Z.pow_pos_nonneg; lia).
  unfold rne_shift. split.
  - destruct (2 * (M mod 2 ^ n) ?= 2 ^ n); [destruct (Z.even (M / 2 ^ n))| |]; auto.
  - intros ->. destruct (Z.compare_spec (2 * 0) (2 ^ n)); try reflexivity; lia.
Qed.

(** A multiple of [2^n] below [M] stays below its rounding. *)
Lemma rne_shift_lower (M n g : Z) : 0 <= n -> g * 2 ^ n <= M -> g <= rne_shift M n.
Proof.
  intros Hn Hg. assert (Hp : 0 < 2 ^ n) by (apply Z.pow_pos_nonneg; lia).
  assert (g <= M / 2 ^ n) by (apply Z.div_le_lower_bound; lia).
  destruct (rne_shift_cases M n Hn) as [[-> | ->] _]; lia.
Qed.

(** A multiple of [2^n] above [M] stays above its rounding. *)
Lemma rne_shift_upper (M n g : Z) : 0 <= n -> M <= g * 2 ^ n -> rne_shift M n <= g.
Proof.
  intros Hn Hg. assert (Hp : 0 < 2 ^ n) by (apply Z.pow_pos_nonneg; lia).
  pose proof (Z.div_mod M (2 ^ n) ltac:(lia)) as Hdm.
  pose proof (Z.mod_pos_bound M (2 ^ n) Hp) as Hr.
  destruct (rne_shift_cases M n Hn) as [[E | E] Hexact]; rewrite E.
  - nia.
  - destruct (Z.eq_dec (M mod 2 ^ n) 0) as [E0|Hne].
    + rewrite (Hexact E0) in E. lia.
    + nia.
Qed.

Lemma rne_shift_mono (M1 M2 n : Z) :
  0 <= n -> M1 <= M2 -> rne_shift M1 n <= rne_shift M2 n.
Proof.
  intros Hn HM. assert (Hp : 0 < 2 ^ n) by (apply Z.pow_pos_nonneg; lia).
  pose proof (Z.div_le_mono M1 M2 (2 ^ n) Hp HM) as Hq.
  destruct (Z.eq_dec (M1 / 2 ^ n) (M2 / 2 ^ n)) as [Eq|Hne].
  - pose proof (Z.div_mod M1 (2 ^ n) ltac:(lia)) as H1.
    pose proof (Z.div_mod M2 (2 ^ n) ltac:(lia)) as H2.
    assert (Hr : M1 mod 2 ^ n <= M2 mod 2 ^ n) by nia.
    unfold rne_shift. rewrite Eq.
    destruct (Z.compare_spec (2 * (M1 mod 2 ^ n)) (2 ^ n)),
      (Z.compare_spec (2 * (M2 mod 2 ^ n)) (2 ^ n));
      destruct (Z.even (M2 / 2 ^ n)); lia.
  - destruct (rne_shift_cases M1 n Hn) as [[-> | ->] _],
      (rne_shift_cases M2 n Hn) as [[-> | ->] _]; lia.
Qed.

(** Rounding depends on the value only: [k] more low zero bits change
    nothing. *)
Lemma rne_shift_scale (M n k : Z) :
  0 <= n -> 0 <= k -> rne_shift (M * 2 ^ k) (n + k) = rne_shift M n.
Proof.
  intros Hn Hk.
  assert (Hpn : 0 < 2 ^ n) by (apply Z.pow_pos_nonneg; lia).
  assert (Hpk : 0 < 2 ^ k) by (apply Z.pow_pos_nonneg; lia).
  unfold rne_shift. rewrite Z.pow_add_r by lia.
  rewrite Z.div_mul_cancel_r by lia.
  rewrite Z.mul_mod_distr_r by lia.
  destruct (Z.compare_spec (2 * (M mod 2 ^ n * 2 ^ k)) (2 ^ n * 2 ^ k)),
    (Z.compare_spec (2 * (M mod 2 ^ n)) (2 ^ n)); try reflexivity; exfalso; nia.
Qed.

Lemma kept_mantissa_bound (M e : Z) :
  0 <= M -> e <= fexp 53 1024 (Zdigits2 M + e) ->
  0 <= M / 2 ^ (fexp 53 1024 (Zdigits2 M + e) - e) < 2 ^ 53.
Proof.
  intros HM He. rewrite fexp_eq in *.
  remember (Z.max (Zdigits2 M + e - 53) (-1074)) as fe eqn:Hfe.
  assert (Hp : 0 < 2 ^ (fe - e)) by (apply Z.pow_pos_nonneg; lia).
  split; [apply Z.div_pos; lia|].
  destruct (Z.eq_dec M 0) as [->|Hne].
  - rewrite Z.div_0_l by lia. apply Z.pow_pos_nonneg; lia.
  - pose proof (Zdigits2_bounds M ltac:(lia)) as [_ Hhi].
    pose proof (Zdigits2_nonneg M).
    apply Z.div_lt_upper_bound; [assumption|].
    rewrite <- Z.pow_add_r by lia.
    eapply Z.lt_le_trans; [exact Hhi|]. apply Z.pow_le_mono_r; lia.
Qed.

(** The second half of [binary_round_aux], on a rounded mantissa. *)
Lemma round_aux_stage2 (sx : bool) (m1 fe : Z) :
  0 <= m1 <= 2 ^ 53 -> -1074 <= fe <= 970 ->
  (let '(mrs'', e'') := shr_fexp 53 1024 m1 fe loc_Exact in
   match shr_m mrs'' with
   | 0 => S754_zero sx
   | Z.pos m => if e'' <=? 1024 - 53 then S754_finite sx m e'' else S754_infinity sx
   | Z.neg _ => S754_nan
   end)
  = match m1 with
    | 0 => S754_zero sx
    | Z.pos p =>
        if Z.pos p =? 2 ^ 53 then S754_finite sx 4503599627370496 (fe + 1)
        else S754_finite sx p fe
    | Z.neg _ => S754_nan
    end.
Proof.
  intros Hm1 Hfe. destruct (Z.eq_dec m1 (2 ^ 53)) as [->|Hne].
  - rewrite shr_fexp_exact_carry by lia.
    change (shr_m {| shr_m := 2 ^ 52; shr_r := false; shr_s := false |})
      with (Z.pos 4503599627370496).
    cbv iota beta.
    destruct (fe + 1 <=? 1024 - 53) eqn:Hle; [|apply Z.leb_gt in Hle; lia].
    reflexivity.
  - pose proof (Zdigits2_le m1 53 ltac:(lia) ltac:(lia)) as Hd1.
    rewrite shr_fexp_exact_keep by (rewrite fexp_eq; lia).
    cbv iota beta. simpl shr_m.
    destruct m1 as [|p|p]; [reflexivity| |lia].
    destruct (fe <=? 1024 - 53) eqn:Hle; [|apply Z.leb_gt in Hle; lia].
    destruct (Z.eqb_spec (Z.pos p) (2 ^ 53)); [contradiction|reflexivity].
Qed.

(** The value of a rounded exact mantissa, in units of [2^e]. *)
Lemma round_aux_exact (sx : bool) (M e k : Z) :
  0 < M ->
  e <= fexp 53 1024 (Zdigits2 M + e) ->
  Zdigits2 M + e <= k ->
  -1074 <= k <= 1023 ->
  exists a,
    Float.dyadic (binary_round_aux 53 1024 sx M e loc_Exact) = Some a
    /\ a.1 = cond_Zopp sx (Z.abs a.1)
    /\ Z.abs a.1 * 2 ^ (a.2 - e)
       = rne_shift M (fexp 53 1024 (Zdigits2 M + e) - e)
         * 2 ^ (fexp 53 1024 (Zdigits2 M + e) - e)
    /\ (a.1 <> 0 -> e <= a.2).
Proof.
  intros HM He Hk Hrange.
  pose proof (kept_mantissa_bound M e ltac:(lia) He) as Hkept.
  remember (fexp 53 1024 (Zdigits2 M + e)) as fe eqn:Hfe.
  assert (Hfe' : fe = Z.max (Zdigits2 M + e - 53) (-1074))
    by (rewrite Hfe; apply fexp_eq).
  pose proof (Zdigits2_nonneg M) as Hd.
  assert (Hfer : -1074 <= fe <= 970) by lia.
  assert (Hfirst : exists mrs',
             shr_fexp 53 1024 M e loc_Exact = (mrs', fe)
             /\ round_nearest_even (shr_m mrs') (loc_of_shr_record mrs')
                = rne_shift M (fe - e)).
  { unfold shr_fexp. rewrite <- Hfe.
    destruct (fe - e) as [|p|p] eqn:En; try lia.
    - eexists. split; [simpl; f_equal; lia|]. simpl. symmetry. apply rne_shift_0.
    - pose proof (shr_exact_rne M e p ltac:(lia)) as Hrne. cbv zeta in Hrne.
      destruct (shr (shr_record_of_loc M loc_Exact) e (Z.pos p)) as [mrs' e'] eqn:Es.
      assert (e' = fe).
      { pose proof (shr_m_e (shr_record_of_loc M loc_Exact) e (Z.pos p)
                      ltac:(simpl; lia) ltac:(lia)) as [_ He'].
        rewrite Es in He'. simpl in He'. lia. }
      subst e'. exists mrs'. split; [reflexivity|exact Hrne]. }
  destruct Hfirst as (mrs' & Hshr & Hrne).
  unfold binary_round_aux. rewrite Hshr, Hrne.
  destruct (rne_shift_cases M (fe - e) ltac:(lia)) as [Hcases _].
  remember (rne_shift M (fe - e)) as m1 eqn:Em1.
  assert (Hm1 : 0 <= m1 <= 2 ^ 53) by lia.
  rewrite (round_aux_stage2 sx m1 fe Hm1 Hfer).
  assert (Hp : 0 < 2 ^ (fe - e)) by (apply Z.pow_pos_nonneg; lia).
  destruct m1 as [|p|p]; [| |lia].
  - exists (0, 0). simpl. repeat split; try (destruct sx; reflexivity); lia.
  - destruct (Z.eqb_spec (Z.pos p) (2 ^ 53)) as [E|Hne].
    + exists (cond_Zopp sx (2 ^ 52), fe + 1). simpl fst. simpl snd.
      split; [reflexivity|].
      split; [destruct sx; reflexivity|].
      split; [|intros _; lia].
      rewrite E. replace (Z.abs (cond_Zopp sx (2 ^ 52))) with (2 ^ 52)
        by (destruct sx; reflexivity).
      replace (fe + 1 - e) with (1 + (fe - e)) by lia.
      rewrite Z.pow_add_r by lia. change (2 ^ 53) with (2 ^ 52 * 2 ^ 1). ring.
    + exists (cond_Zopp sx (Z.pos p), fe). simpl fst. simpl snd.
      split; [reflexivity|].
      replace (Z.abs (cond_Zopp sx (Z.pos p))) with (Z.pos p)
        by (destruct sx; reflexivity).
      split; [reflexivity|]. split; [reflexivity|intros _; lia].
Qed.

(** ** Rounding is monotone *)

Lemma rounded_units_mono (e M1 M2 : Z) :
  0 < M1 <= M2 ->
  e <= fexp 53 1024 (Zdigits2 M1 + e) ->
  rounded_units M1 e <= rounded_units M2 e.
Proof.
  intros [H1 H12] He. unfold rounded_units. cbv zeta.
  pose proof (Zdigits2_mono M1 M2 ltac:(lia)) as Hd.
  pose proof (Zdigits2_bounds M1 H1) as [Hlo1 Hhi1].
  pose proof (Zdigits2_bounds M2 ltac:(lia)) as [Hlo2 Hhi2].
  rewrite !fexp_eq in *.
  remember (Zdigits2 M1) as d1. remember (Zdigits2 M2) as d2.
  remember (Z.max (d1 + e - 53) (-1074) - e) as n1 eqn:En1.
  remember (Z.max (d2 + e - 53) (-1074) - e) as n2 eqn:En2.
  assert (Hn1 : 0 <= n1) by lia. assert (Hn12 : n1 <= n2) by lia.
  assert (Hp1 : 0 < 2 ^ n1) by (apply Z.pow_pos_nonneg; lia).
  assert (Hp2 : 0 < 2 ^ n2) by (apply Z.pow_pos_nonneg; lia).
  destruct (Z.eq_dec n1 n2) as [<-|Hne].
  - apply Z.mul_le_mono_nonneg_r; [lia|]. apply rne_shift_mono; lia.
  - assert (Hn2 : n2 = d2 - 53) by lia.
    assert (Hd12 : d1 < d2) by lia.
    apply Z.le_trans with (2 ^ (d2 - 1)).
    + (* the smaller number rounds to at most [2^(d2 - 1)] *)
      assert (Hup : rne_shift M1 n1 <= 2 ^ (d2 - 1 - n1)).
      { apply rne_shift_upper; [lia|].
        rewrite <- Z.pow_add_r by lia. replace (d2 - 1 - n1 + n1) with (d2 - 1) by lia.
        apply Z.le_trans with (2 ^ d1); [lia|]. apply Z.pow_le_mono_r; lia. }
      assert (E : 2 ^ (d2 - 1) = 2 ^ (d2 - 1 - n1) * 2 ^ n1)
        by (rewrite <- Z.pow_add_r by lia; f_equal; lia).
      rewrite E. apply Z.mul_le_mono_nonneg_r; lia.
    + (* the larger one to at least [2^(d2 - 1)] *)
      assert (Hlow : 2 ^ (d2 - 1 - n2) <= rne_shift M2 n2).
      { apply rne_shift_lower; [lia|].
        rewrite <- Z.pow_add_r by lia. replace (d2 - 1 - n2 + n2) with (d2 - 1) by lia.
        assumption. }
      assert (E : 2 ^ (d2 - 1) = 2 ^ (d2 - 1 - n2) * 2 ^ n2)
        by (rewrite <- Z.pow_add_r by lia; f_equal; lia).
      rewrite E. apply Z.mul_le_mono_nonneg_r; lia.
Qed.

Lemma rounded_units_scale (M e k : Z) :
  0 < M -> 0 <= k -> e <= fexp 53 1024 (Zdigits2 M + e) ->
  rounded_units (M * 2 ^ k) (e - k) = rounded_units M e * 2 ^ k.
Proof.
  intros HM Hk He. unfold rounded_units. cbv zeta.
  rewrite Zdigits2_shiftl by lia.
  replace (Zdigits2 M + k + (e - k)) with (Zdigits2 M + e) by lia.
  remember (fexp 53 1024 (Zdigits2 M + e)) as fe.
  replace (fe - (e - k)) with (fe - e + k) by lia.
  rewrite rne_shift_scale by lia. rewrite Z.pow_add_r by lia. ring.
Qed.

Lemma dyadic_le_scaled (a b : Z * Z) (E : Z) :
  0 <= a.1 -> 0 <= b.1 ->
  (a.1 <> 0 -> E <= a.2) -> (b.1 <> 0 -> E <= b.2) ->
  a.1 * 2 ^ (a.2 - E) <= b.1 * 2 ^ (b.2 - E) ->
  dyadic_le a b.
Proof.
  destruct a as [ma ea], b as [mb eb]. simpl. intros Ha Hb Hea Heb Hle.
  unfold dyadic_le, Float.dyadic_compare. simpl.
  intros Hgt. apply Z.compare_gt_iff in Hgt.
  set (e' := Z.min ea eb) in *.
  assert (Hpa : 0 < 2 ^ (ea - e')) by (apply Z.pow_pos_nonneg; lia).
  assert (Hpb : 0 < 2 ^ (eb - e')) by (apply Z.pow_pos_nonneg; lia).
  destruct (Z.eq_dec ma 0) as [->|Hma]; [nia|].
  destruct (Z.eq_dec mb 0) as [->|Hmb].
  - assert (0 < 2 ^ (ea - E)) by (apply Z.pow_pos_nonneg; lia). nia.
  - specialize (Hea Hma). specialize (Heb Hmb).
    assert (HE : 0 < 2 ^ (e' - E)) by (apply Z.pow_pos_nonneg; lia).
    replace (ea - E) with (ea - e' + (e' - E)) in Hle by lia.
    replace (eb - E) with (eb - e' + (e' - E)) in Hle by lia.
    rewrite !Z.pow_add_r in Hle by lia. nia.
Qed.

(** The exact mantissa with the smaller value rounds to the smaller number. *)
Lemma round_aux_exact_mono (M1 e1 M2 e2 k : Z) :
  0 < M1 -> 0 < M2 ->
  e1 <= fexp 53 1024 (Zdigits2 M1 + e1) ->
  e2 <= fexp 53 1024 (Zdigits2 M2 + e2) ->
  Zdigits2 M1 + e1 <= k -> Zdigits2 M2 + e2 <= k ->
  -1074 <= k <= 1023 ->
  M1 * 2 ^ (e1 - Z.min e1 e2) <= M2 * 2 ^ (e2 - Z.min e1 e2) ->
  exists a1 a2,
    Float.dyadic (binary_round_aux 53 1024 false M1 e1 loc_Exact) = Some a1
    /\ Float.dyadic (binary_round_aux 53 1024 false M2 e2 loc_Exact) = Some a2
    /\ 0 <= a1.1 /\ 0 <= a2.1
    /\ dyadic_le a1 a2.
Proof.
  intros HM1 HM2 He1 He2 Hk1 Hk2 Hk Hle.
  destruct (round_aux_exact false M1 e1 k HM1 He1 Hk1 Hk) as (a1 & Hd1 & Hs1 & Hv1 & Hn1).
  destruct (round_aux_exact false M2 e2 k HM2 He2 Hk2 Hk) as (a2 & Hd2 & Hs2 & Hv2 & Hn2).
  simpl cond_Zopp in Hs1, Hs2.
  exists a1, a2. split; [assumption|]. split; [assumption|].
  split; [lia|]. split; [lia|].
  set (e0 := Z.min e1 e2) in *.
  fold (rounded_units M1 e1) in Hv1. fold (rounded_units M2 e2) in Hv2.
  assert (Hp1 : 0 < 2 ^ (e1 - e0)) by (apply Z.pow_pos_nonneg; lia).
  assert (Hp2 : 0 < 2 ^ (e2 - e0)) by (apply Z.pow_pos_nonneg; lia).
  assert (Hs1' : a1.1 * 2 ^ (a1.2 - e0) = rounded_units (M1 * 2 ^ (e1 - e0)) e0).
  { pose proof (rounded_units_scale M1 e1 (e1 - e0) HM1 ltac:(lia) He1) as Hsc.
    replace (e1 - (e1 - e0)) with e0 in Hsc by lia.
    rewrite Hsc, <- Hv1, <- Hs1.
    destruct (Z.eq_dec a1.1 0) as [E|Hne]; [rewrite E; lia|].
    specialize (Hn1 Hne).
    replace (a1.2 - e0) with (a1.2 - e1 + (e1 - e0)) by lia.
    rewrite Z.pow_add_r by lia. ring. }
  assert (Hs2' : a2.1 * 2 ^ (a2.2 - e0) = rounded_units (M2 * 2 ^ (e2 - e0)) e0).
  { pose proof (rounded_units_scale M2 e2 (e2 - e0) HM2 ltac:(lia) He2) as Hsc.
    replace (e2 - (e2 - e0)) with e0 in Hsc by lia.
    rewrite Hsc, <- Hv2, <- Hs2.
    destruct (Z.eq_dec a2.1 0) as [E|Hne]; [rewrite E; lia|].
    specialize (Hn2 Hne).
    replace (a2.2 - e0) with (a2.2 - e2 + (e2 - e0)) by lia.
    rewrite Z.pow_add_r by lia. ring. }
  apply (dyadic_le_scaled a1 a2 e0); try lia.
  rewrite Hs1', Hs2'. apply rounded_units_mono; [nia|].
  rewrite Zdigits2_shiftl by lia.
  replace (Zdigits2 M1 + (e1 - e0) + e0) with (Zdigits2 M1 + e1) by lia. lia.
Qed.

(** ** Truncation is monotone *)

Lemma trunc_floor_nonneg (a : Z * Z) :
  0 <= a.1 -> Float.trunc_dyadic a = dyadic_floor a.
Proof.
  intros Ha. unfold Float.trunc_dyadic, dyadic_floor.
  destruct (0 <=? a.2) eqn:E; [reflexivity|].
  apply Z.leb_gt in E. apply Z.quot_div_nonneg; [assumption|].
  apply Z.pow_pos_nonneg; lia.
Qed.

Lemma dyadic_floor_scaled (a : Z * Z) (E : Z) :
  E <= a.2 -> E <= 0 -> dyadic_floor a = (a.1 * 2 ^ (a.2 - E)) / 2 ^ (- E).
Proof.
  intros HE HE0. unfold dyadic_floor.
  assert (Hp : 0 < 2 ^ (- E)) by (apply Z.pow_pos_nonneg; lia).
  destruct (Z.leb_spec 0 a.2) as [Ha|Ha].
  - replace (a.2 - E) with (a.2 + - E) by lia.
    rewrite Z.pow_add_r, Z.mul_assoc by lia. rewrite Z.div_mul by lia. reflexivity.
  - assert (Hq : 0 < 2 ^ (a.2 - E)) by (apply Z.pow_pos_nonneg; lia).
    replace (- E) with (- a.2 + (a.2 - E)) by lia.
    rewrite Z.pow_add_r by lia. rewrite Z.div_mul_cancel_r by lia. reflexivity.
Qed.

Lemma dyadic_floor_mono (a b : Z * Z) :
  dyadic_le a b -> dyadic_floor a <= dyadic_floor b.
Proof.
  unfold dyadic_le, Float.dyadic_compare. intros Hle.
  set (E := Z.min (Z.min a.2 b.2) 0).
  assert (HA : a.1 * 2 ^ (a.2 - E) <= b.1 * 2 ^ (b.2 - E)).
  { destruct (Z.compare_spec (a.1 * 2 ^ (a.2 - Z.min a.2 b.2))
                (b.1 * 2 ^ (b.2 - Z.min a.2 b.2))) as [Hc|Hc|Hc];
      try contradiction;
      assert (Hp : 0 < 2 ^ (Z.min a.2 b.2 - E)) by (apply Z.pow_pos_nonneg; lia);
      replace (a.2 - E) with (a.2 - Z.min a.2 b.2 + (Z.min a.2 b.2 - E)) by lia;
      replace (b.2 - E) with (b.2 - Z.min a.2 b.2 + (Z.min a.2 b.2 - E)) by lia;
      rewrite !Z.pow_add_r by lia; nia. }
  rewrite (dyadic_floor_scaled a E), (dyadic_floor_scaled b E) by lia.
  apply Z.div_le_mono; [apply Z.pow_pos_nonneg; lia|assumption].
Qed.

(** ** Signs *)

Lemma round_aux_sign (sx : bool) (mx ex : Z) (lx : location) :
  match binary_round_aux 53 1024 sx mx ex lx with
  | S754_finite s _ _ => s = sx
  | _ => True
  end.
Proof.
  unfold binary_round_aux.
  destruct (shr_fexp 53 1024 mx ex lx) as [mrs' e'].
  destruct (shr_fexp 53 1024 _ e' loc_Exact) as [mrs'' e''].
  destruct (shr_m mrs''); try exact I. destruct (e'' <=? 1024 - 53); auto.
Qed.

Lemma mul_nonneg (a b : spec_float) (K : Z) :
  fnonneg a -> fnonneg b -> fgood K (Float.mul a b) -> fnonneg (Float.mul a b).
Proof.
  destruct a as [sa|sa| |sa ma ea], b as [sb|sb| |sb mb eb]; simpl; try tauto.
  intros -> -> Hg. unfold Float.mul, SFmul in *.
  pose proof (round_aux_sign (xorb false false) (Z.pos (ma * mb)) (ea + eb) loc_Exact) as Hs.
  change Float.prec with 53 in *. change Float.emax with 1024 in *.
  destruct (binary_round_aux 53 1024 (xorb false false) (Z.pos (ma * mb)) (ea + eb) loc_Exact);
    simpl in *; tauto.
Qed.

Lemma div_nonneg (ma mb : positive) (ea eb K : Z) :
  fgood K (Float.div (S754_finite false ma ea) (S754_finite false mb eb)) ->
  fnonneg (Float.div (S754_finite false ma ea) (S754_finite false mb eb)).
Proof.
  unfold Float.div, SFdiv. change Float.prec with 53. change Float.emax with 1024.
  destruct (SFdiv_core_binary 53 1024 (Z.pos ma) ea (Z.pos mb) eb) as [[mz ez] lz].
  pose proof (round_aux_sign (xorb false false) mz ez lz) as Hs.
  destruct (binary_round_aux 53 1024 (xorb false false) mz ez lz); simpl in *; tauto.
Qed.

(** ** Multiplication by a fixed non-negative factor is monotone *)

Lemma mul_precondition (ma mb : positive) (ea eb : Z) :
  bounded 53 1024 ma ea = true -> bounded 53 1024 mb eb = true ->
  ea + eb <= fexp 53 1024 (Zdigits2 (Z.pos ma * Z.pos mb) + (ea + eb)).
Proof.
  intros Ha Hb.
  apply bounded_canonical in Ha as [Hea _], Hb as [Heb _].
  pose proof (Zdigits2_mul_le (Z.pos ma) (Z.pos mb) ltac:(lia) ltac:(lia)) as [Hlo Hhi].
  change (Zdigits2 (Z.pos ma)) with (Z.pos (digits2_pos ma)) in *.
  change (Zdigits2 (Z.pos mb)) with (Z.pos (digits2_pos mb)) in *.
  rewrite fexp_eq. lia.
Qed.

Lemma dyadic_le_zero_l (b : Z * Z) : 0 <= b.1 -> dyadic_le (0, 0) b.
Proof.
  intros Hb. apply (dyadic_le_scaled (0, 0) b (Z.min 0 b.2)); simpl; try lia.
Qed.

Lemma mul_mono (x y t : spec_float) (Kx Ky Kt : Z) (ax ay : Z * Z) :
  fgood Kx x -> fgood Ky y -> fgood Kt t ->
  fnonneg x -> fnonneg y -> fnonneg t ->
  Z.max Kx Ky + Kt <= 1023 ->
  Float.dyadic x = Some ax -> Float.dyadic y = Some ay -> dyadic_le ax ay ->
  exists a b,
    Float.dyadic (Float.mul x t) = Some a /\ Float.dyadic (Float.mul y t) = Some b
    /\ 0 <= a.1 /\ 0 <= b.1 /\ dyadic_le a b.
Proof.
  intros Hgx Hgy Hgt Hnx Hny Hnt HK Hax Hay Hle.
  pose proof (mul_good Kx Kt x t Hgx Hgt ltac:(lia)) as Hgxt.
  pose proof (mul_good Ky Kt y t Hgy Hgt ltac:(lia)) as Hgyt.
  pose proof (mul_nonneg x t _ Hnx Hnt Hgxt) as Hnxt.
  pose proof (mul_nonneg y t _ Hny Hnt Hgyt) as Hnyt.
  assert (Hpos : forall z, fnonneg z -> forall a, Float.dyadic z = Some a -> 0 <= a.1).
  { intros z Hz a Ha. destruct z as [s|s| |s m e]; simpl in *; try tauto;
      injection Ha as <-; [simpl; lia|subst s; simpl; lia]. }
  destruct (fgood_dyadic _ _ Hgxt) as [a Ha], (fgood_dyadic _ _ Hgyt) as [b Hb].
  exists a, b. split; [assumption|]. split; [assumption|].
  split; [exact (Hpos _ Hnxt _ Ha)|]. split; [exact (Hpos _ Hnyt _ Hb)|].
  destruct t as [st|st| |st mt et]; simpl in Hgt, Hnt; try tauto.
  - (* the factor is zero *)
    destruct x as [sx|sx| |sx mx ex], y as [sy|sy| |sy my ey]; simpl in Hgx, Hgy;
      try tauto; simpl in Ha, Hb; injection Ha as <-; injection Hb as <-;
      apply dyadic_le_zero_l; simpl; lia.
  - subst st. destruct Hgt as [Hct Hkt].
    destruct x as [sx|sx| |sx mx ex]; simpl in Hgx, Hnx; try tauto.
    + (* zero times the factor *)
      simpl in Ha. injection Ha as <-. apply dyadic_le_zero_l.
      exact (Hpos _ Hnyt _ Hb).
    + subst sx. destruct Hgx as [Hcx Hkx]. simpl in Hax. injection Hax as <-.
      destruct y as [sy|sy| |sy my ey]; simpl in Hgy, Hny; try tauto.
      * (* a positive number is not below zero *)
        exfalso. simpl in Hay. injection Hay as <-.
        unfold dyadic_le, Float.dyadic_compare in Hle. simpl in Hle.
        apply Hle. apply Z.compare_gt_iff.
        assert (0 < 2 ^ (ex - Z.min ex 0)) by (apply Z.pow_pos_nonneg; lia). nia.
      * subst sy. destruct Hgy as [Hcy Hky]. simpl in Hay. injection Hay as <-.
        unfold Float.mul, SFmul in Ha, Hb.
        change Float.prec with 53 in *. change Float.emax with 1024 in *.
        simpl xorb in Ha, Hb.
        change (Z.pos (mx * mt)) with (Z.pos mx * Z.pos mt) in Ha.
        change (Z.pos (my * mt)) with (Z.pos my * Z.pos mt) in Hb.
        pose proof (Zdigits2_mul_le (Z.pos mx) (Z.pos mt) ltac:(lia) ltac:(lia)) as [_ Hdx].
        pose proof (Zdigits2_mul_le (Z.pos my) (Z.pos mt) ltac:(lia) ltac:(lia)) as [_ Hdy].
        change (Zdigits2 (Z.pos mx)) with (Z.pos (digits2_pos mx)) in *.
        change (Zdigits2 (Z.pos my)) with (Z.pos (digits2_pos my)) in *.
        change (Zdigits2 (Z.pos mt)) with (Z.pos (digits2_pos mt)) in *.
        destruct (round_aux_exact_mono (Z.pos mx * Z.pos mt) (ex + et)
                    (Z.pos my * Z.pos mt) (ey + et)
                    (Z.max (Z.max Kx Ky + Kt) (-1074)))
          as (a' & b' & Ha' & Hb' & _ & _ & Hle'); try lia.
        -- apply mul_precondition; assumption.
        -- apply mul_precondition; assumption.
        -- unfold dyadic_le, Float.dyadic_compare in Hle. simpl in Hle.
           replace (Z.min (ex + et) (ey + et)) with (Z.min ex ey + et) by lia.
           replace (ex + et - (Z.min ex ey + et)) with (ex - Z.min ex ey) by lia.
           replace (ey + et - (Z.min ex ey + et)) with (ey - Z.min ex ey) by lia.
           destruct (Z.compare_spec (Z.pos mx * 2 ^ (ex - Z.min ex ey))
                       (Z.pos my * 2 ^ (ey - Z.min ex ey))); try contradiction; nia.
        -- rewrite Ha in Ha'. rewrite Hb in Hb'.
           injection Ha' as <-. injection Hb' as <-. exact Hle'.
Qed.

(** ** Conversion of non-negative integers *)

Lemma fnonneg_dyadic (x : spec_float) (a : Z * Z) :
  fnonneg x -> Float.dyadic x = Some a -> 0 <= a.1.
Proof.
  destruct x as [s|s| |s m e]; simpl; try tauto; intros Hs Ha; injection Ha as <-.
  - simpl. lia.
  - subst s. simpl. lia.
Qed.

Lemma of_Z_nonneg (z k : Z) :
  0 <= k <= 1023 -> 0 <= z < 2 ^ k ->
  fgood (k + 1) (Float.of_Z z) /\ fnonneg (Float.of_Z z).
Proof.
  intros Hk Hz.
  pose proof (of_Z_good z k Hk ltac:(lia)) as Hg. split; [assumption|].
  unfold Float.of_Z, binary_normalize in *.
  change Float.prec with 53 in *. change Float.emax with 1024 in *.
  destruct z as [|p|p]; [exact I| |lia].
  unfold binary_round in *.
  destruct (shl_align p 0 _) as [mz ez].
  pose proof (round_aux_sign false (Z.pos mz) ez loc_Exact) as Hs.
  destruct (binary_round_aux 53 1024 false (Z.pos mz) ez loc_Exact); simpl in *; tauto.
Qed.

Lemma of_Z_mono (i j k : Z) :
  0 <= k <= 1023 -> 0 <= i <= j -> j < 2 ^ k ->
  exists a b,
    Float.dyadic (Float.of_Z i) = Some a /\ Float.dyadic (Float.of_Z j) = Some b
    /\ dyadic_le a b.
Proof.
  intros Hk Hij Hj.
  destruct (of_Z_nonneg i k Hk ltac:(lia)) as [Hgi Hni].
  destruct (of_Z_nonneg j k Hk ltac:(lia)) as [Hgj Hnj].
  destruct (fgood_dyadic _ _ Hgi) as [a Ha], (fgood_dyadic _ _ Hgj) as [b Hb].
  exists a, b. split; [assumption|]. split; [assumption|].
  destruct i as [|pi|pi]; [| |lia].
  - simpl in Ha. injection Ha as <-. apply dyadic_le_zero_l.
    exact (fnonneg_dyadic _ _ Hnj Hb).
  - destruct j as [|pj|pj]; try lia.
    unfold Float.of_Z, binary_normalize, binary_round in Ha, Hb.
    change Float.prec with 53 in *. change Float.emax with 1024 in *.
    pose proof (shl_align_spec pi 0 (fexp 53 1024 (Z.pos (digits2_pos pi) + 0))) as [He1 Hm1].
    pose proof (shl_align_spec pj 0 (fexp 53 1024 (Z.pos (digits2_pos pj) + 0))) as [He2 Hm2].
    destruct (shl_align pi 0 _) as [m1 e1], (shl_align pj 0 _) as [m2 e2].
    simpl in He1, Hm1, He2, Hm2. rewrite <- He1 in Hm1. rewrite <- He2 in Hm2.
    assert (Hd1 : Zdigits2 (Z.pos m1) + e1 = Z.pos (digits2_pos pi) + 0).
    { rewrite Hm1, Zdigits2_shiftl by lia.
      change (Zdigits2 (Z.pos pi)) with (Z.pos (digits2_pos pi)). lia. }
    assert (Hd2 : Zdigits2 (Z.pos m2) + e2 = Z.pos (digits2_pos pj) + 0).
    { rewrite Hm2, Zdigits2_shiftl by lia.
      change (Zdigits2 (Z.pos pj)) with (Z.pos (digits2_pos pj)). lia. }
    pose proof (Zdigits2_le (Z.pos pi) k ltac:(lia) ltac:(lia)) as Hk1.
    pose proof (Zdigits2_le (Z.pos pj) k ltac:(lia) ltac:(lia)) as Hk2.
    change (Zdigits2 (Z.pos pi)) with (Z.pos (digits2_pos pi)) in Hk1.
    change (Zdigits2 (Z.pos pj)) with (Z.pos (digits2_pos pj)) in Hk2.
    destruct (round_aux_exact_mono (Z.pos m1) e1 (Z.pos m2) e2 k)
      as (a' & b' & Ha' & Hb' & _ & _ & Hle'); try lia.
    + rewrite Hd1. lia.
    + rewrite Hd2. lia.
    + rewrite Hm1, Hm2.
      set (E := Z.min e1 e2).
      assert (HE : E <= e1 /\ E <= e2 /\ e1 <= 0 /\ e2 <= 0) by lia.
      rewrite <- !Z.mul_assoc, <- !Z.pow_add_r by lia.
      replace (0 - e1 + (e1 - E)) with (- E) by lia.
      replace (0 - e2 + (e2 - E)) with (- E) by lia.
      assert (0 <= 2 ^ (- E)) by (apply Z.pow_nonneg; lia). nia.
    + rewrite Ha in Ha'. rewrite Hb in Hb'.
      injection Ha' as <-. injection Hb' as <-. exact Hle'.
Qed.

(** ** Division *)

Lemma div_good (a : spec_float) (sb : bool) (mb : positive) (eb Ka Lb : Z) :
  fgood Ka a ->
  Lb <= Z.pos (digits2_pos mb) + eb ->
  Ka - Lb <= 1022 ->
  fgood (Z.max (Ka - Lb + 1) (-1074) + 1) (Float.div a (S754_finite sb mb eb)).
Proof.
  intros Ha Hb HK. destruct a as [sa|sa| |sa ma ea]; simpl in Ha.
  - exact I.
  - contradiction.
  - contradiction.
  - destruct Ha as [_ Ha]. apply div_finite_good; assumption.
Qed.

Lemma div_fnonneg (a : spec_float) (mb : positive) (eb K : Z) :
  fnonneg a ->
  fgood K (Float.div a (S754_finite false mb eb)) ->
  fnonneg (Float.div a (S754_finite false mb eb)).
Proof.
  destruct a as [sa|sa| |sa ma ea]; simpl; try tauto.
  intros -> Hg. exact (div_nonneg ma mb ea eb K Hg).
Qed.

(** Dividing a multiple [c * p] by [p] leaves the exact mantissa [c]. *)
Lemma div_core_multiple (c p : positive) (d : Z) :
  Zdigits2 (Z.pos (c * p)) - Zdigits2 (Z.pos p) = d -> d <= 53 ->
  SFdiv_core_binary 53 1024 (Z.pos (c * p)) 0 (Z.pos p) 0
  = (Z.pos c * 2 ^ (- fexp 53 1024 d), fexp 53 1024 d, loc_Exact).
Proof.
  intros Hd Hd53. unfold SFdiv_core_binary. cbv zeta.
  replace (Zdigits2 (Z.pos (c * p)) + 0 - (Zdigits2 (Z.pos p) + 0)) with d by lia.
  pose proof (fexp_eq d) as Hfe. set (fe := fexp 53 1024 d) in *.
  replace (Z.min fe (0 - 0)) with fe by lia.
  assert (Hm : match 0 - 0 - fe with
               | 0 => Z.pos (c * p)
               | Z.pos _ => Z.shiftl (Z.pos (c * p)) (0 - 0 - fe)
               | Z.neg _ => 0
               end = Z.pos c * 2 ^ (- fe) * Z.pos p).
  { destruct (0 - 0 - fe) as [|s|s] eqn:E.
    - replace (- fe) with 0 by lia. rewrite Pos2Z.inj_mul. simpl (2 ^ 0). lia.
    - rewrite Z.shiftl_mul_pow2 by lia. replace (- fe) with (Z.pos s) by lia.
      rewrite Pos2Z.inj_mul. ring.
    - lia. }
  rewrite Hm.
  destruct (Z.div_eucl (Z.pos c * 2 ^ (- fe) * Z.pos p) (Z.pos p)) as [q r] eqn:E.
  assert (Hq : q = Z.pos c * 2 ^ (- fe) * Z.pos p / Z.pos p)
    by (unfold Z.div; rewrite E; reflexivity).
  assert (Hr : r = (Z.pos c * 2 ^ (- fe) * Z.pos p) mod Z.pos p)
    by (unfold Z.modulo; rewrite E; reflexivity).
  rewrite Z.div_mul in Hq by lia. rewrite Z.mod_mul in Hr by lia. subst q r.
  unfold new_location. destruct (Z.even (Z.pos p)); reflexivity.
Qed.

Lemma div_Z_multiple (c : positive) (L : Z) (x : spec_float) :
  0 < L -> (8 <= Z.pos c < 16)%Z ->
  binary_round_aux 53 1024 false (Z.pos c * 2 ^ 50) (-50) loc_Exact = x ->
  binary_round_aux 53 1024 false (Z.pos c * 2 ^ 49) (-49) loc_Exact = x ->
  Float.div_Z (Z.pos c * L) L = x.
Proof.
  intros HL Hc H50 H49. destruct L as [|p|p]; try lia.
  change (Z.pos c * Z.pos p) with (Z.pos (c * p)).
  unfold Float.div_Z, Float.div, Float.exact_Z, SFdiv.
  change Float.prec with 53. change Float.emax with 1024.
  assert (Hd : Zdigits2 (Z.pos (c * p)) - Zdigits2 (Z.pos p) = 3
               \/ Zdigits2 (Z.pos (c * p)) - Zdigits2 (Z.pos p) = 4).
  { pose proof (Zdigits2_shiftl (Z.pos p) 3 ltac:(lia) ltac:(lia)) as H3.
    pose proof (Zdigits2_shiftl (Z.pos p) 4 ltac:(lia) ltac:(lia)) as H4.
    assert (H8 : 0 <= Z.pos p * 2 ^ 3 <= Z.pos (c * p))
      by (rewrite Pos2Z.inj_mul; change (2 ^ 3) with 8; nia).
    pose proof (Zdigits2_mono _ _ H8) as Hlo.
    pose proof (Zdigits2_bounds (Z.pos (c * p)) ltac:(lia)) as [Hb _].
    pose proof (Zdigits2_bounds (Z.pos p) ltac:(lia)) as [_ Hp].
    assert (Hlt : Zdigits2 (Z.pos (c * p)) - 1 < Zdigits2 (Z.pos p) + 4).
    { pose proof (Zdigits2_nonneg (Z.pos p)) as Hnn.
      destruct (Z.le_gt_cases (Zdigits2 (Z.pos p) + 4) (Zdigits2 (Z.pos (c * p)) - 1))
        as [Hge|Hlt]; [exfalso|lia].
      pose proof (Z.pow_le_mono_r 2 _ _ ltac:(lia) Hge) as Hpow.
      rewrite Z.pow_add_r in Hpow by lia.
      rewrite Pos2Z.inj_mul in Hb, Hpow. change (2 ^ 4) with 16 in Hpow.
      assert (Hcp : Z.pos c * Z.pos p <= 15 * Z.pos p) by nia.
      lia. }
    lia. }
  destruct Hd as [Hd|Hd]; rewrite (div_core_multiple c p _ Hd) by lia.
  - exact H50.
  - exact H49.
Qed.

Lemma div_Z_twelve (L : Z) : 0 < L -> Float.div_Z (12 * L) L = f_12_0.
Proof.
  intros HL. apply (div_Z_multiple 12 L f_12_0 HL); [lia| |]; vm_compute; reflexivity.
Qed.

Lemma div_Z_eight (L : Z) : 0 < L -> Float.div_Z (8 * L) L = f_8_0.
Proof.
  intros HL. apply (div_Z_multiple 8 L f_8_0 HL); [lia| |]; vm_compute; reflexivity.
Qed.


(** * The numbers of the optimizer *)

Lemma outcome_bind_ret {A B} (a : A) (k : A -> outcome B) : mbind k (Returned a) = k a.
Proof. reflexivity. Qed.

Lemma py_truediv_int (a b K : Z) :
  b <> 0 -> fgood K (Float.div_Z a b) ->
  py_truediv (PyInt a) (PyInt b) = Returned (PyFloat (Float.div_Z a b)).
Proof.
  intros Hb Hg. unfold py_truediv.
  destruct (Z.eqb_spec b 0) as [?|_]; [contradiction|].
  cbv zeta. destruct (fgood_finite _ _ Hg) as [-> _]. reflexivity.
Qed.

Lemma to_float_int (z K : Z) :
  fgood K (Float.of_Z z) -> to_float (PyInt z) = Returned (Float.of_Z z).
Proof.
  intros Hg. unfold to_float. cbv zeta.
  destruct (fgood_finite _ _ Hg) as [-> _]. reflexivity.
Qed.

Lemma py_arith_int_float iop fop (z K : Z) (b : spec_float) :
  fgood K (Float.of_Z z) ->
  py_arith iop fop (PyInt z) (PyFloat b) = Returned (PyFloat (fop (Float.of_Z z) b)).
Proof. intros Hg. unfold py_arith. rewrite (to_float_int z K Hg). reflexivity. Qed.

Lemma py_arith_float_int iop fop (z K : Z) (a : spec_float) :
  fgood K (Float.of_Z z) ->
  py_arith iop fop (PyFloat a) (PyInt z) = Returned (PyFloat (fop a (Float.of_Z z))).
Proof. intros Hg. unfold py_arith. rewrite (to_float_int z K Hg). reflexivity. Qed.

Lemma py_int_good (K : Z) (x : spec_float) :
  fgood K x -> exists a, Float.dyadic x = Some a
                         /\ py_int (PyFloat x) = Returned (Float.trunc_dyadic a).
Proof.
  intros Hg. destruct (fgood_dyadic K x Hg) as [a Ha].
  exists a. split; [assumption|apply py_int_dyadic; assumption].
Qed.

Lemma f_0_5_good : fgood 0 f_0_5.
Proof. split; [reflexivity|simpl; lia]. Qed.

(** For a queue within [0, total_queue] the numbers of a direction are
    computed without an exception, and the green time is within 15..80. *)
Lemma direction_timing_total (base_green total_queue queue : Z) :
  0 <= base_green < 128 -> 1 <= total_queue -> 0 <= queue <= total_queue ->
  exists t,
    direction_timing base_green 120 total_queue queue = Returned t
    /\ 15 <= dt_green_time t <= 80
    /\ dt_yellow_time t = 5 /\ dt_all_red_time t = 3
    /\ dt_cycle_time t = 120 /\ dt_queue_length t = queue.
Proof.
  intros Hbg Htotal Hq. unfold direction_timing.
  assert (Hp : fgood 3 (Float.div_Z queue total_queue))
    by (apply (div_Z_good queue total_queue 0); simpl; lia).
  rewrite (py_truediv_int queue total_queue 3) by (try assumption; lia).
  rewrite outcome_bind_ret.
  change (py_add (PyFloat f_0_5) (PyFloat (Float.div_Z queue total_queue)))
    with (Returned (PyFloat (Float.add f_0_5 (Float.div_Z queue total_queue)))).
  rewrite outcome_bind_ret.
  pose proof (add_good 0 3 _ _ f_0_5_good Hp ltac:(lia)) as Hw.
  change (Z.max 0 3 + 2) with 5 in Hw.
  remember (Float.add f_0_5 (Float.div_Z queue total_queue)) as w eqn:Ew.
  assert (Hbgf : fgood 8 (Float.of_Z base_green))
    by (apply (of_Z_good base_green 7); simpl; lia).
  unfold py_mul. rewrite (py_arith_int_float _ _ base_green 8) by assumption.
  rewrite outcome_bind_ret.
  pose proof (mul_good 8 5 _ _ Hbgf Hw ltac:(lia)) as Hraw.
  change (Z.max (8 + 5) (-1074) + 1) with 14 in Hraw.
  remember (Float.mul (Float.of_Z base_green) w) as raw eqn:Eraw.
  assert (H120 : fgood 8 (Float.of_Z 120)) by (apply (of_Z_good 120 7); simpl; lia).
  assert (H5 : fgood 8 (Float.of_Z 5)) by (apply (of_Z_good 5 7); simpl; lia).
  unfold py_min. destruct (py_lt (PyFloat raw) (PyInt 80)) eqn:Hlt80.
  - unfold py_max. destruct (py_gt (PyFloat raw) (PyInt 15)) eqn:Hgt15.
    + (* the green time is the unclamped float *)
      unfold py_sub. rewrite (py_arith_int_float _ _ 120 8) by assumption.
      rewrite outcome_bind_ret.
      pose proof (sub_good 8 14 _ _ H120 Hraw ltac:(lia)) as Hrest.
      change (Z.max 8 14 + 2) with 16 in Hrest.
      rewrite (py_arith_float_int _ _ 5 8) by assumption.
      rewrite outcome_bind_ret.
      pose proof (sub_good 16 8 _ _ Hrest H5 ltac:(lia)) as Hred.
      destruct (py_int_good _ _ Hraw) as (a & Ha & ->).
      destruct (py_int_good _ _ Hred) as (b & Hb & ->).
      rewrite !outcome_bind_ret.
      eexists. split; [reflexivity|]. simpl.
      pose proof (ltb_int_r raw 80 a ltac:(lia) Hlt80 Ha).
      pose proof (ltb_int_l raw 15 a ltac:(lia) Hgt15 Ha).
      repeat split; lia.
    + eexists. split; [reflexivity|]. simpl. repeat split; lia.
  - eexists. split; [reflexivity|]. simpl. repeat split; lia.
Qed.

(** * The optimizer's loop *)

Lemma dict_get_set_eq {V} (k : string) (v : V) (d : list (string * V)) :
  dict_get k (dict_set k v d) = Some v.
Proof.
  induction d as [|[k' v'] d IH]; simpl.
  - rewrite String.eqb_refl. reflexivity.
  - destruct (String.eqb_spec k k') as [->|Hne]; simpl.
    + rewrite String.eqb_refl. reflexivity.
    + destruct (String.eqb_spec k k'); [contradiction|exact IH].
Qed.

Lemma dict_get_set_ne {V} (k k' : string) (v : V) (d : list (string * V)) :
  k <> k' -> dict_get k' (dict_set k v d) = dict_get k' d.
Proof.
  intros Hne. induction d as [|[k0 v0] d IH]; simpl.
  - destruct (String.eqb_spec k' k); [congruence|reflexivity].
  - destruct (String.eqb_spec k k0) as [->|Hne0]; simpl.
    + destruct (String.eqb_spec k' k0); [congruence|reflexivity].
    + destruct (String.eqb_spec k' k0); [reflexivity|exact IH].
Qed.

Lemma assign_signal_ok (id d : string) (f : TrafficSignal -> TrafficSignal)
    (st : TrafficSignalCoordinator) (x : Intersection) (s : TrafficSignal) :
  intersections st !! id = Some x -> signals x !! d = Some s ->
  assign_signal id d f st
    = (Returned tt, store_intersection id (set_signals (<[d := f s]> (signals x)) x) st).
Proof.
  intros Hx Hs. unfold assign_signal, mbind, M_bind, get, put.
  rewrite Hx, Hs. reflexivity.
Qed.

Lemma store_intersection_lookup (id : string) (x : Intersection)
    (st : TrafficSignalCoordinator) :
  intersections (store_intersection id x st) !! id = Some x.
Proof. unfold store_intersection. simpl. apply lookup_insert_eq. Qed.

Lemma store_intersection_twice (id : string) (x x' : Intersection)
    (st : TrafficSignalCoordinator) :
  store_intersection id x' (store_intersection id x st) = store_intersection id x' st.
Proof.
  unfold store_intersection, set_intersections. simpl. rewrite insert_insert_eq.
  reflexivity.
Qed.

Lemma optimize_direction_ok (id : string) (bg bc total : Z)
    (acc : list (string * DirectionTiming)) (d : string) (q : Z)
    (st : TrafficSignalCoordinator) (x : Intersection) (s : TrafficSignal)
    (t : DirectionTiming) :
  intersections st !! id = Some x -> signals x !! d = Some s ->
  direction_timing bg bc total q = Returned t ->
  optimize_direction id bg bc total acc d q st
    = (Returned (dict_set d t acc),
       store_intersection id
         (set_signals (<[d := write_timing t bc s]> (signals x)) x) st).
Proof.
  intros Hx Hs Ht. unfold optimize_direction.
  unfold mbind at 1. unfold M_bind, lift. rewrite Ht. cbv zeta.
  unfold mbind at 1. unfold M_bind.
  rewrite (assign_signal_ok id d _ st x s Hx Hs).
  unfold mbind at 1. unfold M_bind.
  erewrite assign_signal_ok;
    [|apply store_intersection_lookup|simpl; apply lookup_insert_eq].
  unfold mbind at 1. unfold M_bind.
  erewrite assign_signal_ok;
    [|apply store_intersection_lookup|simpl; apply lookup_insert_eq].
  unfold mret, M_ret. f_equal.
  rewrite !store_intersection_twice. simpl. rewrite !insert_insert_eq.
  reflexivity.
Qed.

Lemma store_intersection_same (id : string) (x : Intersection)
    (st : TrafficSignalCoordinator) :
  intersections st !! id = Some x -> store_intersection id x st = st.
Proof.
  intros Hx. unfold store_intersection, set_intersections.
  rewrite insert_id by assumption. destruct st; reflexivity.
Qed.

Lemma set_signals_same (x : Intersection) : set_signals (signals x) x = x.
Proof. destruct x; reflexivity. Qed.

Lemma optimize_loop_ok (id : string) (bg total : Z) :
  0 <= bg < 128 -> 1 <= total ->
  forall (todo : list (string * Z)) (acc : list (string * DirectionTiming))
         (st : TrafficSignalCoordinator) (x : Intersection),
    intersections st !! id = Some x ->
    Forall (fun dq => is_Some (signals x !! dq.1) /\ 0 <= dq.2 <= total) todo ->
    NoDup todo.*1 ->
    exists acc' x',
      optimize_loop id bg 120 total todo acc st
        = (Returned acc', store_intersection id x' st)
      /\ x' = set_signals (signals x') x
      /\ (forall d q, (d, q) ∈ todo ->
            exists t s,
              direction_timing bg 120 total q = Returned t
              /\ 15 <= dt_green_time t <= 80
              /\ dict_get d acc' = Some t
              /\ signals x !! d = Some s
              /\ signals x' !! d = Some (write_timing t 120 s))
      /\ (forall d, d ∉ todo.*1 ->
            dict_get d acc' = dict_get d acc /\ signals x' !! d = signals x !! d).
Proof.
  intros Hbg Htotal todo.
  induction todo as [|[d q] todo IH]; intros acc st x Hx Hall Hnd.
  - exists acc, x. simpl. unfold mret, M_ret.
    rewrite store_intersection_same by assumption.
    split; [reflexivity|]. split; [symmetry; apply set_signals_same|].
    split; [intros d q Hin; apply elem_of_nil in Hin; contradiction|].
    intros d _. split; reflexivity.
  - apply Forall_cons in Hall as [[[s Hs] Hq] Hall]. simpl in Hs, Hq.
    rewrite fmap_cons in Hnd. apply NoDup_cons in Hnd as [Hd Hnd]. simpl in Hd.
    destruct (direction_timing_total bg total q Hbg Htotal Hq) as (t & Ht & Hgreen & _).
    simpl optimize_loop. unfold mbind at 1. unfold M_bind.
    rewrite (optimize_direction_ok id bg 120 total acc d q st x s t Hx Hs Ht).
    set (x1 := set_signals (<[d := write_timing t 120 s]> (signals x)) x).
    destruct (IH (dict_set d t acc) (store_intersection id x1 st) x1) as
      (acc' & x' & Hrun & Hx' & Hdone & Hrest).
    + apply store_intersection_lookup.
    + eapply Forall_impl; [exact Hall|]. intros [d' q'] [Hsome Hq']. simpl in *.
      split; [|assumption]. destruct (decide (d = d')) as [->|Hne].
      * rewrite lookup_insert_eq. eauto.
      * rewrite lookup_insert_ne by assumption. assumption.
    + assumption.
    + exists acc', x'. rewrite Hrun, store_intersection_twice.
      split; [reflexivity|]. split; [rewrite Hx' at 1; reflexivity|].
      destruct (Hrest d Hd) as [Hacc Hsig].
      split.
      * intros d' q' Hin. apply elem_of_cons in Hin as [[= -> ->]|Hin].
        -- exists t, s. rewrite Hacc, dict_get_set_eq, Hsig. simpl.
           rewrite lookup_insert_eq. auto.
        -- destruct (Hdone d' q' Hin) as (t' & s' & Ht' & Hg' & Hacc' & Hs' & Hsig').
           assert (Hne : d <> d').
           { intros ->. apply Hd. apply (list_elem_of_fmap_2 fst _ _ Hin). }
           exists t', s'. simpl in Hs'. rewrite lookup_insert_ne in Hs' by assumption.
           auto 6.
      * intros d' Hd'. rewrite fmap_cons in Hd'. simpl in Hd'.
        apply not_elem_of_cons in Hd' as [Hne Hd'].
        destruct (Hrest d' Hd') as [Hacc' Hsig'].
        rewrite Hacc', Hsig', dict_get_set_ne by congruence. simpl.
        rewrite lookup_insert_ne by congruence. split; reflexivity.
Qed.

(** * What the optimizer leaves as it was *)

Lemma signal_frame_refl (s : TrafficSignal) : signal_frame s s.
Proof. unfold signal_frame. tauto. Qed.

Lemma signal_frame_trans (a b c : TrafficSignal) :
  signal_frame a b -> signal_frame b c -> signal_frame a c.
Proof. unfold signal_frame. intuition congruence. Qed.

Lemma intersection_frame_refl (x : Intersection) : intersection_frame x x.
Proof.
  unfold intersection_frame. repeat split; try reflexivity.
  intros d. destruct (signals x !! d); constructor. apply signal_frame_refl.
Qed.

Lemma intersection_frame_trans (a b c : Intersection) :
  intersection_frame a b -> intersection_frame b c -> intersection_frame a c.
Proof.
  unfold intersection_frame.
  intros (?&?&?&?&?&?&?&?&?&?&?&Hab) (?&?&?&?&?&?&?&?&?&?&?&Hbc).
  repeat split; try congruence.
  intros d. specialize (Hab d). specialize (Hbc d).
  destruct Hab; inversion Hbc; subst; constructor.
  eapply signal_frame_trans; eassumption.
Qed.

Lemma timing_frame_refl (st : TrafficSignalCoordinator) : timing_frame st st.
Proof.
  unfold timing_frame. repeat split; try reflexivity.
  intros id. destruct (intersections st !! id); constructor.
  apply intersection_frame_refl.
Qed.

Lemma timing_frame_trans (a b c : TrafficSignalCoordinator) :
  timing_frame a b -> timing_frame b c -> timing_frame a c.
Proof.
  unfold timing_frame. intros (?&?&?&?&Hab) (?&?&?&?&Hbc).
  repeat split; try congruence.
  intros id. specialize (Hab id). specialize (Hbc id).
  destruct Hab; inversion Hbc; subst; constructor.
  eapply intersection_frame_trans; eassumption.
Qed.

Lemma preserves_bind {A B} (c : M A) (k : A -> M B) :
  preserves timing_frame c -> (forall a, preserves timing_frame (k a)) ->
  preserves timing_frame (mbind k c).
Proof.
  intros Hc Hk st. unfold mbind, M_bind. specialize (Hc st).
  destruct (c st) as [[a|e] st1]; simpl in *; [|assumption].
  eapply timing_frame_trans; [eassumption|apply Hk].
Qed.

Lemma preserves_pure {A} (o : outcome A) : preserves timing_frame (lift o).
Proof. intros st. apply timing_frame_refl. Qed.

Lemma preserves_ret {A} (a : A) : preserves timing_frame (mret a : M A).
Proof. intros st. apply timing_frame_refl. Qed.

Lemma preserves_assign (id d : string) (f : TrafficSignal -> TrafficSignal) :
  (forall s, signal_frame s (f s)) -> preserves timing_frame (assign_signal id d f).
Proof.
  intros Hf st. unfold assign_signal, mbind, M_bind, get, put, raise.
  destruct (intersections st !! id) as [x|] eqn:Hx; [|apply timing_frame_refl].
  destruct (signals x !! d) as [s|] eqn:Hs; [|apply timing_frame_refl].
  simpl. unfold timing_frame. simpl. repeat split; try reflexivity.
  intros id'. destruct (decide (id = id')) as [<-|Hne].
  - rewrite lookup_insert_eq, Hx. constructor.
    unfold intersection_frame. simpl. repeat split; try reflexivity.
    intros d'. destruct (decide (d = d')) as [<-|Hne'].
    + rewrite lookup_insert_eq, Hs. constructor. apply Hf.
    + rewrite lookup_insert_ne by assumption.
      destruct (signals x !! d'); constructor. apply signal_frame_refl.
  - rewrite lookup_insert_ne by assumption.
    destruct (intersections st !! id'); constructor. apply intersection_frame_refl.
Qed.

Lemma preserves_optimize_loop (id : string) (bg bc total : Z)
    (todo : list (string * Z)) (acc : list (string * DirectionTiming)) :
  preserves timing_frame (optimize_loop id bg bc total todo acc).
Proof.
  revert acc. induction todo as [|[d q] todo IH]; intros acc; simpl.
  - apply preserves_ret.
  - apply preserves_bind; [|intros a; apply IH].
    unfold optimize_direction.
    apply preserves_bind; [apply preserves_pure|]. intros t.
    repeat (apply preserves_bind;
            [apply preserves_assign; intros s; unfold signal_frame; simpl; tauto|];
            intros _).
    apply preserves_ret.
Qed.

Lemma preserves_optimize (id : string) :
  preserves timing_frame (optimize_signal_timing id).
Proof.
  intros st. unfold optimize_signal_timing.
  unfold mbind at 1. unfold M_bind, get.
  destruct (intersections st !! id) as [x|]; [|apply timing_frame_refl].
  destruct (strategy_parameters (select_strategy x)) as [[[[bg br] bc] er] fi].
  apply (preserves_bind (optimize_loop id bg bc _ _ _)).
  - apply preserves_optimize_loop.
  - intros a. apply preserves_ret.
Qed.

(** Every entry that the loop reports comes from [direction_timing]. *)
Lemma direction_timing_constants (bg bc total q : Z) (t : DirectionTiming) :
  direction_timing bg bc total q = Returned t ->
  dt_yellow_time t = 5 /\ dt_all_red_time t = 3
  /\ dt_cycle_time t = bc /\ dt_queue_length t = q.
Proof.
  unfold direction_timing, mbind, outcome_bind.
  repeat match goal with
  | |- context [match ?o with Returned _ => _ | Raised _ => _ end] =>
      destruct o; try discriminate
  end.
  intros [= <-]. simpl. tauto.
Qed.

Lemma optimize_direction_inv (id : string) (bg bc total : Z)
    (acc acc1 : list (string * DirectionTiming)) (d : string) (q : Z)
    (st st1 : TrafficSignalCoordinator) :
  optimize_direction id bg bc total acc d q st = (Returned acc1, st1) ->
  exists t, direction_timing bg bc total q = Returned t /\ acc1 = dict_set d t acc.
Proof.
  unfold optimize_direction, mbind, M_bind, lift, mret, M_ret.
  destruct (direction_timing bg bc total q) as [t|e]; [|discriminate].
  repeat match goal with
  | |- context [match ?c with (_, _) => _ end] =>
      destruct c as [[[]|?] ?]; try discriminate
  end.
  intros [= <- _]. eauto.
Qed.

Lemma optimize_loop_reports (P : DirectionTiming -> Prop) (id : string) (bg bc total : Z)
    (todo : list (string * Z)) :
  (forall q t, direction_timing bg bc total q = Returned t -> P t) ->
  forall acc acc' st st',
    optimize_loop id bg bc total todo acc st = (Returned acc', st') ->
    (forall d t, dict_get d acc = Some t -> P t) ->
    forall d t, dict_get d acc' = Some t -> P t.
Proof.
  intros HP. induction todo as [|[d0 q0] todo IH]; intros acc acc' st st' Hrun Hacc.
  - simpl in Hrun. injection Hrun as <- _. exact Hacc.
  - simpl in Hrun. unfold mbind at 1 in Hrun. unfold M_bind in Hrun.
    destruct (optimize_direction id bg bc total acc d0 q0 st) as [[acc1|e] st1] eqn:E;
      [|discriminate].
    apply optimize_direction_inv in E as (t0 & Ht0 & ->).
    apply (IH _ _ _ _ Hrun). intros d t.
    destruct (decide (d0 = d)) as [<-|Hne].
    + rewrite dict_get_set_eq. intros [= <-]. eapply HP; eassumption.
    + rewrite dict_get_set_ne by assumption. apply Hacc.
Qed.

(** * The specification's claims *)

(** ** Priority classifier *)

(** C2: on every input the classifier returns the tier given by the
    top-down cascade of the specification, which is one of the four tiers;
    scenario A (queues 35/25/20/28, congestion 53, AQI 120) is [high]. *)
Theorem determine_priority_cascade (congestion : pynum) (aqi max_queue : Z) :
  _determine_priority congestion aqi max_queue = priority_cascade congestion aqi max_queue
  /\ _determine_priority congestion aqi max_queue
       ∈ ["critical"; "high"; "normal"; "low"]%string
  /\ _determine_priority (PyInt 53) 120 (Z.max (Z.max (Z.max 35 25) 20) 28) = "high"%string.
Proof.
  split; [|split].
  - unfold _determine_priority, priority_cascade.
    repeat match goal with
    | |- context [decide ?P] => destruct (decide P)
    | |- context [py_gt ?a ?b] => destruct (py_gt a b) eqn:?
    | |- context [?a <? ?b] => destruct (Z.ltb_spec a b)
    end; simpl; try reflexivity; exfalso; intuition (try discriminate; try lia).
  - unfold _determine_priority.
    repeat match goal with |- context [if ?b then _ else _] => destruct b end;
      rewrite !elem_of_cons; auto 6.
  - reflexivity.
Qed.

(** ** Registry update *)

(** C8: an unknown id gives [False] and leaves the coordinator as it was:
    no intersection is created.  A known id gives [True], and the registry
    then holds for it an intersection with the four queue lengths, the
    speed, the congestion and the AQI of the call (with the defaults of
    [dict.get] for missing keys) and the priority that the classifier
    computes from the congestion, the AQI and the largest of the four queues;
    its id, name, coordinates and signals are as before.  In both cases every
    other intersection and the rest of the coordinator are as before. *)
Theorem update_intersection_data_contract
    (st : TrafficSignalCoordinator) (id : string) (td : TrafficData) (aqi : Z) :
  city_name (after (update_intersection_data id td aqi) st) = city_name st
  /\ signal_timing_history (after (update_intersection_data id td aqi) st)
     = signal_timing_history st
  /\ coordination_offsets (after (update_intersection_data id td aqi) st)
     = coordination_offsets st
  /\ optimization_mode (after (update_intersection_data id td aqi) st)
     = optimization_mode st
  /\ (forall id', id' <> id ->
        intersections (after (update_intersection_data id td aqi) st) !! id'
        = intersections st !! id')
  /\ match intersections st !! id with
     | None =>
         result (update_intersection_data id td aqi) st = Returned false
         /\ intersections (after (update_intersection_data id td aqi) st) !! id = None
         /\ after (update_intersection_data id td aqi) st = st
     | Some x =>
         result (update_intersection_data id td aqi) st = Returned true
         /\ exists x',
              intersections (after (update_intersection_data id td aqi) st) !! id = Some x'
              /\ queue_length_north x' = default 0 (default ∅ (td_queues td) !! "north")
              /\ queue_length_south x' = default 0 (default ∅ (td_queues td) !! "south")
              /\ queue_length_east x' = default 0 (default ∅ (td_queues td) !! "east")
              /\ queue_length_west x' = default 0 (default ∅ (td_queues td) !! "west")
              /\ avg_speed x' = default (PyFloat f_30_0) (td_avg_speed td)
              /\ avg_congestion x' = default (PyFloat f_50_0) (td_congestion td)
              /\ local_aqi x' = aqi
              /\ priority_level x'
                 = _determine_priority (avg_congestion x') aqi
                     (Z.max (Z.max (Z.max (queue_length_north x') (queue_length_south x'))
                               (queue_length_east x')) (queue_length_west x'))
              /\ intersection_id x' = intersection_id x
              /\ name x' = name x
              /\ intersection_coordinates x' = intersection_coordinates x
              /\ signals x' = signals x
     end.
Proof.
  unfold after, result, update_intersection_data, mbind, M_bind, get, put, mret, M_ret.
  destruct (intersections st !! id) as [x|] eqn:Hx; simpl.
  - do 4 (split; [reflexivity|]).
    split; [intros id' Hne; apply lookup_insert_ne; congruence|].
    split; [reflexivity|].
    eexists. split; [apply lookup_insert_eq|]. simpl. repeat split; reflexivity.
  - do 4 (split; [reflexivity|]). split; [reflexivity|].
    split; [reflexivity|]. split; [exact Hx|reflexivity].
Qed.

(** ** Conflict detector *)

Lemma directions_cases (d : string) :
  d ∈ directions ->
  d = "north"%string \/ d = "south"%string \/ d = "east"%string \/ d = "west"%string.
Proof.
  unfold directions. rewrite !elem_of_cons, elem_of_nil. tauto.
Qed.

Ltac in_directions :=
  unfold directions; rewrite !elem_of_cons; auto 6.

(** With one queue at 120 and the others within 0..20, the four queue
    lengths of the intersection. *)
Lemma single_queue_cases (x : Intersection) (d : string) :
  d ∈ directions ->
  queue_length d x = Returned 120 ->
  (forall d', d' ∈ directions -> d' <> d ->
     forall q, queue_length d' x = Returned q -> 0 <= q <= 20) ->
  let others a b c := 0 <= a <= 20 /\ 0 <= b <= 20 /\ 0 <= c <= 20 in
  (d = "north"%string /\ queue_length_north x = 120
     /\ others (queue_length_south x) (queue_length_east x) (queue_length_west x))
  \/ (d = "south"%string /\ queue_length_south x = 120
     /\ others (queue_length_north x) (queue_length_east x) (queue_length_west x))
  \/ (d = "east"%string /\ queue_length_east x = 120
     /\ others (queue_length_north x) (queue_length_south x) (queue_length_west x))
  \/ (d = "west"%string /\ queue_length_west x = 120
     /\ others (queue_length_north x) (queue_length_south x) (queue_length_east x)).
Proof.
  intros Hd Hq Hothers others.
  assert (Hn : d <> "north"%string -> 0 <= queue_length_north x <= 20).
  { intros Hne. apply (Hothers "north"%string); [in_directions|congruence|reflexivity]. }
  assert (Hs : d <> "south"%string -> 0 <= queue_length_south x <= 20).
  { intros Hne. apply (Hothers "south"%string); [in_directions|congruence|reflexivity]. }
  assert (He : d <> "east"%string -> 0 <= queue_length_east x <= 20).
  { intros Hne. apply (Hothers "east"%string); [in_directions|congruence|reflexivity]. }
  assert (Hw : d <> "west"%string -> 0 <= queue_length_west x <= 20).
  { intros Hne. apply (Hothers "west"%string); [in_directions|congruence|reflexivity]. }
  clear Hothers.
  destruct (directions_cases d Hd) as [ -> | [ -> | [ -> | -> ] ] ];
    injection Hq as Hq; [left|right; left|right; right; left|right; right; right];
    (split; [reflexivity|]); (split; [exact Hq|]); unfold others;
    repeat split; first [apply Hn|apply Hs|apply He|apply Hw]; discriminate.
Qed.

Lemma overflow_loop_one (x : Intersection) (d : string) :
  d ∈ directions ->
  queue_length d x = Returned 120 ->
  (forall d', d' ∈ directions -> d' <> d ->
     forall q, queue_length d' x = Returned q -> 0 <= q <= 20) ->
  overflow_loop x 100 directions []
    = Returned [queue_overflow d "high" 120 100 "Increase green time for this direction"].
Proof.
  intros Hd Hq Hothers.
  destruct (single_queue_cases x d Hd Hq Hothers)
    as [ (-> & Hv & H1 & H2 & H3) | [ (-> & Hv & H1 & H2 & H3)
       | [ (-> & Hv & H1 & H2 & H3) | (-> & Hv & H1 & H2 & H3) ] ] ];
    unfold overflow_loop, directions, queue_length; simpl; rewrite Hv;
    repeat match goal with
    | |- context [100 <? 120] => change (100 <? 120) with true; cbv iota
    | |- context [100 <? ?b] => destruct (Z.ltb_spec 100 b); [lia|]
    end; vm_compute; reflexivity.
Qed.

(** C9: [detect_conflicts] never changes the coordinator; for an unknown
    id it returns the empty list; for a known intersection where one
    direction has a queue of 120 and the rest is nominal (the other queues
    within 0..20, congestion not above 70, AQI not above 200) it returns
    exactly one finding, a [queue_overflow] of severity [high]. *)
Theorem detect_conflicts_contract (st : TrafficSignalCoordinator) (id : string) :
  after (detect_conflicts id) st = st
  /\ (intersections st !! id = None -> result (detect_conflicts id) st = Returned [])
  /\ (forall x d,
        intersections st !! id = Some x ->
        d ∈ directions ->
        queue_length d x = Returned 120 ->
        (forall d', d' ∈ directions -> d' <> d ->
           forall q, queue_length d' x = Returned q -> 0 <= q <= 20) ->
        py_gt (avg_congestion x) (PyInt 70) = false ->
        local_aqi x <= 200 ->
        exists c,
          result (detect_conflicts id) st = Returned [c]
          /\ c = queue_overflow d "high" 120 100 "Increase green time for this direction"
          /\ conflict_type c = "queue_overflow"%string
          /\ conflict_severity c = "high"%string).
Proof.
  unfold after, result, detect_conflicts, mbind, M_bind, get, lift, mret, M_ret.
  cbv beta iota. destruct (intersections st !! id) as [x|] eqn:Hx.
  - split; [|split; [discriminate|]].
    + destruct (overflow_loop x 100 directions []); reflexivity.
    + intros x0 d [= <-] Hd Hq Hothers Hcong Haqi.
      rewrite (overflow_loop_one x d Hd Hq Hothers), Hcong.
      destruct (Z.ltb_spec 200 (local_aqi x)) as [?|_]; [lia|].
      assert (Hopp :
        (20 <? queue_length_north x) && (20 <? queue_length_south x)
        || (20 <? queue_length_east x) && (20 <? queue_length_west x) = false).
      { destruct (single_queue_cases x d Hd Hq Hothers)
          as [ (-> & Hv & H1 & H2 & H3) | [ (-> & Hv & H1 & H2 & H3)
             | [ (-> & Hv & H1 & H2 & H3) | (-> & Hv & H1 & H2 & H3) ] ] ];
          repeat match goal with
          | H : 0 <= ?b <= 20 |- context [20 <? ?b] =>
              destruct (Z.ltb_spec 20 b); [lia|]
          end; rewrite ?andb_false_r, ?andb_false_l; reflexivity. }
      rewrite Hopp. eexists. repeat split; reflexivity.
  - split; [reflexivity|]. split; [reflexivity|]. intros; discriminate.
Qed.

Lemma detect_conflicts_contract_witness :
  exists c,
    result (detect_conflicts "INT_001")
      (after (update_intersection_data "INT_001" (queues_only 120 0 0 0) 100) fresh)
      = Returned [c]
    /\ c = queue_overflow "north" "high" 120 100 "Increase green time for this direction"
    /\ conflict_type c = "queue_overflow"%string
    /\ conflict_severity c = "high"%string.
Proof.
  destruct (intersections
              (after (update_intersection_data "INT_001" (queues_only 120 0 0 0) 100) fresh)
              !! "INT_001"%string) as [x|] eqn:Hx; [|vm_compute in Hx; discriminate].
  apply (proj2 (proj2 (detect_conflicts_contract
           (after (update_intersection_data "INT_001" (queues_only 120 0 0 0) 100) fresh)
           "INT_001"))) with (x := x); vm_compute in Hx; injection Hx as <-.
  - vm_compute. reflexivity.
  - in_directions.
  - reflexivity.
  - intros d' Hd' Hne q.
    destruct (directions_cases d' Hd') as [ -> | [ -> | [ -> | -> ] ] ];
      try congruence; vm_compute; intros [= <-]; split; discriminate.
  - reflexivity.
  - vm_compute. discriminate.
Defined.

(** ** Scenarios that the code does not handle as the specification says *)

(** C1, at the failing input: with one vehicle queued in every direction of
    [INT_001] the unrounded green is 37.5 s and the unrounded red 77.5 s;
    [int()] truncates both, so the reported and the stored timing is green
    37 and red 77, one second short of [120 - 37 - 5 = 78]. *)
Theorem optimize_truncates_green_and_red :
  let st := after (update_intersection_data "INT_001" (queues_only 1 1 1 1) 100) fresh in
  let r := result (optimize_signal_timing "INT_001") st in
  let st' := after (optimize_signal_timing "INT_001") st in
  reported_timing r "north"
    = Some {| dt_green_time := 37; dt_red_time := 77; dt_yellow_time := 5;
              dt_all_red_time := 3; dt_cycle_time := 120; dt_queue_length := 1;
              dt_priority := "normal" |}
  /\ green_time <$> stored_signal st' "INT_001" "north" = Some 37
  /\ red_time <$> stored_signal st' "INT_001" "north" = Some 77
  /\ 77 <> 120 - 37 - 5.
Proof. vm_compute. repeat split; discriminate. Qed.

(** C5, at the failing input: a target speed of zero, int or float, makes
    [coordinate_green_wave] raise [ZeroDivisionError]; the divisor
    [target_speed] is used as it comes. *)
Theorem coordinate_green_wave_zero_speed :
  result (coordinate_green_wave ["INT_001"; "INT_002"]%string "main_corridor" (PyInt 0))
    fresh = Raised ZeroDivisionError
  /\ result (coordinate_green_wave ["INT_001"; "INT_002"]%string "main_corridor"
               (PyFloat f_0_0)) fresh = Raised ZeroDivisionError.
Proof. vm_compute. split; reflexivity. Qed.

(** C3 as stated fails: two ids that the registry does not know are fewer
    than two known intersections, and yet the call returns a plan. *)
Lemma green_wave_of_unknown_ids :
  ~ (is_wave_error
       (result (coordinate_green_wave ["X"; "Y"]%string "corridor" (PyFloat f_30_0)) fresh)
     <-> (known_count fresh ["X"; "Y"]%string < 2)%nat).
Proof.
  intros [_ H].
  assert (Hk : (known_count fresh ["X"; "Y"]%string < 2)%nat) by (vm_compute; lia).
  specialize (H Hk). vm_compute in H. discriminate.
Qed.

(** C4 as stated fails: with one known and one unknown id the reported
    stop reduction is 6.0, not 12.0, and the emission reduction 4.0, not 8.0;
    the reported travel time is 2.0 minutes, that of one hop, where the
    formula over the one intersection found in the registry gives 0.0. *)
Lemma green_wave_averages_over_supplied_ids :
  let ids := ["INT_001"; "X"]%string in
  let r := result (coordinate_green_wave ids "corridor" (PyFloat f_30_0)) fresh in
  gw_stops_reduced_percent <$> wave_plan r = Some (PyFloat f_6_0)
  /\ gw_stops_reduced_percent <$> wave_plan r <> Some (PyFloat f_12_0)
  /\ gw_emissions_reduced_percent <$> wave_plan r <> Some (PyFloat f_8_0)
  /\ gw_expected_travel_time_minutes <$> wave_plan r = Some (PyFloat f_2_0)
  /\ corridor_time (Z.of_nat (known_count fresh ids) - 1) (PyFloat f_30_0)
     = Returned (PyFloat f_0_0).
Proof. vm_compute. repeat split; discriminate. Qed.

(** C10, at the failing input: with one vehicle queued in every direction
    the stored green and red are the separately truncated 37 and 77, so the
    four stored durations of a signal add up to 124, not 125. *)
Lemma stored_cycle_sum_124 :
  let st := after (update_intersection_data "INT_001" (queues_only 1 1 1 1) 100) fresh in
  let st' := after (optimize_signal_timing "INT_001") st in
  stored_cycle_sum <$> stored_signal st' "INT_001" "north" = Some 124
  /\ stored_cycle_sum <$> stored_signal st' "INT_001" "north" <> Some 125.
Proof. vm_compute. split; [reflexivity|discriminate]. Qed.

(** ** Signal timing optimizer *)

Lemma select_strategy_table (x : Intersection) :
  select_strategy x = strategy_table (local_aqi x) (avg_congestion x).
Proof.
  unfold select_strategy, strategy_table.
  destruct (Z.ltb_spec 150 (local_aqi x)), (Z.ltb_spec 100 (local_aqi x)),
    (py_gt (avg_congestion x) (PyInt 60)) eqn:E; simpl;
    repeat match goal with |- context [decide ?P] => destruct (decide P) end;
    try reflexivity; exfalso; intuition (try discriminate; try lia).
Qed.

Lemma strategy_cases (x : Intersection) :
  exists bg br er fi,
    strategy_parameters (select_strategy x) = (bg, br, 120, er, fi)
    /\ strategy_constants (select_strategy x) = (bg, er, fi)
    /\ 0 <= bg < 128.
Proof.
  unfold select_strategy.
  destruct ((150 <? local_aqi x) && py_gt (avg_congestion x) (PyInt 60));
    [|destruct (py_gt (avg_congestion x) (PyInt 60));
      [|destruct (100 <? local_aqi x)]];
    do 4 eexists; (split; [reflexivity|]); (split; [reflexivity|]); lia.
Qed.

Lemma directions_nodup : NoDup directions.
Proof.
  apply (bool_decide_unpack _). vm_compute. exact I.
Qed.

(** C6: for a known intersection (with its four signals and non-negative
    queue lengths) the optimizer returns a plan whose strategy is the one of
    the decision table, first match first; whose emission reduction and flow
    improvement are the two constants of that strategy; and whose timings are
    those computed from the base green of that strategy (70, 60 or 50).
    Each reported green time is within 15..80 and is, like the red time,
    the one stored in the signal. *)
Theorem optimize_signal_timing_plan
    (st : TrafficSignalCoordinator) (id : string) (x : Intersection) :
  intersections st !! id = Some x ->
  four_signals x ->
  queues_nonneg x ->
  exists plan st' bg,
    optimize_signal_timing id st = (Returned (OptPlan plan), st')
    /\ tp_intersection_id plan = id
    /\ tp_urgency plan = priority_level x
    /\ tp_strategy plan = strategy_table (local_aqi x) (avg_congestion x)
    /\ strategy_constants (tp_strategy plan)
         = (bg, tp_emission_reduction plan, tp_flow_improvement plan)
    /\ forall d q,
         (d, q) ∈ zip directions [queue_length_north x; queue_length_south x;
                                  queue_length_east x; queue_length_west x] ->
         exists t s',
           direction_timing bg 120 (total_queue_of x) q = Returned t
           /\ dict_get d (tp_signal_timings plan) = Some t
           /\ 15 <= dt_green_time t <= 80
           /\ stored_signal st' id d = Some s'
           /\ green_time s' = dt_green_time t
           /\ red_time s' = dt_red_time t
           /\ cycle_time s' = 120.
Proof.
  intros Hx Hsig (Hn & Hs & He & Hw).
  destruct (strategy_cases x) as (bg & br & er & fi & Hpar & Hconst & Hbg).
  unfold optimize_signal_timing. unfold mbind at 1. unfold M_bind, get.
  rewrite Hx, Hpar.
  replace (Z.max 1 (fold_left Z.add [queue_length_north x; queue_length_south x;
                                     queue_length_east x; queue_length_west x] 0))
    with (total_queue_of x) by (unfold total_queue_of; simpl; f_equal; lia).
  assert (Htot : 1 <= total_queue_of x) by (unfold total_queue_of; lia).
  destruct (optimize_loop_ok id bg (total_queue_of x) Hbg Htot
              (zip directions [queue_length_north x; queue_length_south x;
                               queue_length_east x; queue_length_west x])
              [] st x Hx) as (acc' & x' & Hrun & Hx' & Hdone & _).
  - unfold directions, total_queue_of. simpl.
    repeat (apply Forall_cons; split); simpl; try (apply Forall_nil; exact I);
      (split; [apply Hsig; in_directions|lia]).
  - unfold directions. simpl. apply directions_nodup.
  - unfold mbind, M_bind. rewrite Hrun. unfold mret, M_ret.
    eexists _, _, bg. split; [reflexivity|]. simpl.
    split; [reflexivity|]. split; [reflexivity|].
    split; [apply select_strategy_table|]. split; [exact Hconst|].
    intros d q Hin.
    destruct (Hdone d q Hin) as (t & s & Ht & Hg & Hacc & Hs0 & Hs').
    exists t, (write_timing t 120 s).
    unfold stored_signal. rewrite store_intersection_lookup. simpl.
    rewrite Hs'. repeat split; assumption || reflexivity || lia.
Qed.

Lemma optimize_signal_timing_plan_witness :
  exists plan st' bg,
    optimize_signal_timing "INT_001" fresh = (Returned (OptPlan plan), st')
    /\ tp_intersection_id plan = "INT_001"%string
    /\ tp_urgency plan = "normal"%string
    /\ tp_strategy plan = "balanced"%string
    /\ strategy_constants (tp_strategy plan)
         = (bg, tp_emission_reduction plan, tp_flow_improvement plan)
    /\ forall d q,
         (d, q) ∈ zip directions [0; 0; 0; 0] ->
         exists t s',
           direction_timing bg 120 1 q = Returned t
           /\ dict_get d (tp_signal_timings plan) = Some t
           /\ 15 <= dt_green_time t <= 80
           /\ stored_signal st' "INT_001" d = Some s'
           /\ green_time s' = dt_green_time t
           /\ red_time s' = dt_red_time t
           /\ cycle_time s' = 120.
Proof.
  destruct (intersections fresh !! "INT_001"%string) as [x|] eqn:Hx;
    [|vm_compute in Hx; discriminate].
  assert (Ex : x = build_intersection (fun _ => 0)
                     {| di_id := "INT_001"; di_name := "MG Road - Brigade Road";
                        di_coordinates := (S754_finite false 7338108937842144 (-49),
                                           S754_finite false 5648245767662050 (-46));
                        di_roads := ["MG Road"; "Brigade Road"; "Vittal Mallya Road";
                                     "Bengaluru Cantonment"]%string |}).
  { vm_compute in Hx. injection Hx as <-. vm_compute. reflexivity. }
  assert (Hsig : four_signals x).
  { intros d Hd. destruct (directions_cases d Hd) as [ -> | [ -> | [ -> | -> ] ] ];
      rewrite Ex; vm_compute; eauto. }
  assert (Hq : queues_nonneg x) by (rewrite Ex; vm_compute; repeat split; discriminate).
  destruct (optimize_signal_timing_plan fresh "INT_001" x Hx Hsig Hq)
    as (plan & st' & bg & Hrun & H1 & H2 & H3 & H4 & H5).
  exists plan, st', bg. rewrite Ex in H2, H3, H5.
  repeat split; assumption.
Defined.

Lemma optimize_signal_timing_unfold (id : string) (st : TrafficSignalCoordinator) :
  optimize_signal_timing id st =
    match intersections st !! id with
    | None => (Returned (OptError "Intersection not found"), st)
    | Some x =>
        let '(bg, _, bc, er, fi) := strategy_parameters (select_strategy x) in
        match optimize_loop id bg bc
                (Z.max 1 (fold_left Z.add [queue_length_north x; queue_length_south x;
                                           queue_length_east x; queue_length_west x] 0))
                (zip directions [queue_length_north x; queue_length_south x;
                                 queue_length_east x; queue_length_west x]) [] st with
        | (Returned acc, st') =>
            (Returned (OptPlan {| tp_intersection_id := id;
                                  tp_signal_timings := acc;
                                  tp_strategy := select_strategy x;
                                  tp_emission_reduction := er;
                                  tp_flow_improvement := fi;
                                  tp_urgency := priority_level x |}), st')
        | (Raised e, st') => (Raised e, st')
        end
    end.
Proof.
  unfold optimize_signal_timing. unfold mbind at 1. unfold M_bind, get.
  destruct (intersections st !! id) as [x|]; [|reflexivity].
  destruct (strategy_parameters (select_strategy x)) as [[[[bg br] bc] er] fi].
  reflexivity.
Qed.

Lemma stored_signal_frame (st st' : TrafficSignalCoordinator) (id d : string)
    (s s' : TrafficSignal) :
  timing_frame st st' ->
  stored_signal st id d = Some s -> stored_signal st' id d = Some s' ->
  signal_frame s s'.
Proof.
  intros (_ & _ & _ & _ & Hf) Hs Hs'. specialize (Hf id).
  unfold stored_signal in *.
  destruct Hf as [x x' Hxx'|]; simpl in *; [|discriminate].
  destruct Hxx' as (_&_&_&_&_&_&_&_&_&_&_&Hd). specialize (Hd d).
  rewrite Hs, Hs' in Hd. inversion Hd. assumption.
Qed.

(** The frame of the optimizer, the part of C10 that holds on every input:
    whatever its outcome, [optimize_signal_timing] changes nothing but the
    [green_time], [red_time] and [cycle_time] of stored signals: every other field of every signal, the metrics of every
    intersection and the rest of the coordinator are as before.  Every
    reported timing has yellow 5 and all-red 3, while a stored signal whose
    yellow and all-red were 5 (as built) keeps them, so that its four stored
    durations add up to green + red + 10: that is 125 whenever green and red
    add up to 115. *)
Theorem optimize_signal_timing_frame (st : TrafficSignalCoordinator) (id : string) :
  timing_frame st (after (optimize_signal_timing id) st)
  /\ (forall d t,
        reported_timing (result (optimize_signal_timing id) st) d = Some t ->
        dt_yellow_time t = 5 /\ dt_all_red_time t = 3)
  /\ (forall d s s',
        stored_signal st id d = Some s ->
        yellow_time s = 5 -> all_red_time s = 5 ->
        stored_signal (after (optimize_signal_timing id) st) id d = Some s' ->
        yellow_time s' = 5 /\ all_red_time s' = 5
        /\ stored_cycle_sum s' = green_time s' + red_time s' + 10
        /\ (green_time s' + red_time s' = 115 -> stored_cycle_sum s' = 125)).
Proof.
  assert (Hframe : timing_frame st (after (optimize_signal_timing id) st))
    by apply preserves_optimize.
  split; [exact Hframe|]. split.
  - unfold result, reported_timing. rewrite optimize_signal_timing_unfold.
    destruct (intersections st !! id) as [x|]; [|intros d t Ht; discriminate].
    destruct (strategy_parameters (select_strategy x)) as [[[[bg br] bc] er] fi].
    destruct (optimize_loop id bg bc _ _ [] st) as [[acc'|e] st1] eqn:Hrun;
      [|intros d t Ht; discriminate].
    simpl. intros d t Ht.
    apply (optimize_loop_reports
             (fun t => dt_yellow_time t = 5 /\ dt_all_red_time t = 3)
             id bg bc _ _
             ltac:(intros q0 t0 H0; apply direction_timing_constants in H0; tauto)
             [] acc' st st1 Hrun ltac:(intros ? ?; discriminate) d t Ht).
  - intros d s s' Hs Hy Ha Hs'.
    destruct (stored_signal_frame _ _ _ _ _ _ Hframe Hs Hs')
      as (_&_&_&Hy'&Ha'&_).
    unfold stored_cycle_sum. rewrite Hy', Ha', Hy, Ha. repeat split; lia.
Qed.

Lemma optimize_signal_timing_frame_witness :
  exists s',
    stored_signal (after (optimize_signal_timing "INT_001") fresh) "INT_001" "north"
      = Some s'
    /\ yellow_time s' = 5 /\ all_red_time s' = 5
    /\ stored_cycle_sum s' = green_time s' + red_time s' + 10
    /\ (green_time s' + red_time s' = 115 -> stored_cycle_sum s' = 125).
Proof.
  destruct (stored_signal fresh "INT_001" "north") as [s|] eqn:Hs;
    [|vm_compute in Hs; discriminate].
  destruct (stored_signal (after (optimize_signal_timing "INT_001") fresh)
              "INT_001" "north") as [s'|] eqn:Hs';
    [|vm_compute in Hs'; discriminate].
  exists s'. split; [reflexivity|].
  apply (proj2 (proj2 (optimize_signal_timing_frame fresh "INT_001")) "north"%string s s'
           Hs); [| |exact Hs'];
    vm_compute in Hs; injection Hs as <-; reflexivity.
Defined.

(** * Green waves *)

(** ** The numbers of a green wave *)

Lemma speed_in_range_inv (s : pynum) :
  speed_in_range s = true ->
  exists m e, to_float s = Returned (S754_finite false m e)
              /\ bounded 53 1024 m e = true
              /\ -900 < Z.pos (digits2_pos m) + e.
Proof.
  unfold speed_in_range. destruct (to_float s) as [[?|?| |[] m e]|]; try discriminate.
  intros H. apply andb_prop in H as [H1 H2].
  exists m, e. split; [reflexivity|]. split; [assumption|]. lia.
Qed.

Lemma py_truediv_float (a : spec_float) (s : pynum) (m : positive) (e : Z) :
  to_float s = Returned (S754_finite false m e) ->
  py_truediv (PyFloat a) s = Returned (PyFloat (Float.div a (S754_finite false m e))).
Proof.
  intros Hs. unfold py_truediv.
  change (to_float (PyFloat a)) with (Returned a). rewrite Hs. reflexivity.
Qed.

Lemma f_1_0_good : fgood 1 f_1_0 /\ fnonneg f_1_0.
Proof. split; [split; [reflexivity|simpl; lia]|reflexivity]. Qed.

Lemma of_Z_60_good : fgood 7 (Float.of_Z 60) /\ fnonneg (Float.of_Z 60).
Proof. apply (of_Z_nonneg 60 6); simpl; lia. Qed.

(** Distance over speed, times 60, for a distance below [2^K]. *)
Lemma time_good (d : spec_float) (K : Z) (s : pynum) :
  fgood K d -> fnonneg d -> 0 <= K <= 100 -> speed_in_range s = true ->
  exists t,
    (pace ← py_truediv (PyFloat d) s; py_mul pace (PyInt 60)) = Returned (PyFloat t)
    /\ fgood (K + 909) t /\ fnonneg t.
Proof.
  intros Hd Hnd HK Hs. destruct (speed_in_range_inv s Hs) as (m & e & Hf & Hb & Hr).
  rewrite (py_truediv_float d s m e Hf). rewrite outcome_bind_ret.
  pose proof (div_good d false m e K (-899) Hd ltac:(lia) ltac:(lia)) as Hpace.
  replace (Z.max (K - -899 + 1) (-1074) + 1) with (K + 901) in Hpace by lia.
  pose proof (div_fnonneg d m e _ Hnd Hpace) as Hnpace.
  destruct of_Z_60_good as [H60 Hn60].
  unfold py_mul. rewrite (py_arith_float_int _ _ 60 7 _ H60).
  eexists. split; [reflexivity|].
  pose proof (mul_good _ _ _ _ Hpace H60 ltac:(lia)) as Ht.
  replace (Z.max (K + 901 + 7) (-1074) + 1) with (K + 909) in Ht by lia.
  split; [assumption|]. exact (mul_nonneg _ _ _ Hnpace Hn60 Ht).
Qed.

Lemma hop_time_good (s : pynum) :
  speed_in_range s = true ->
  exists t, hop_time s = Returned (PyFloat t) /\ fgood 910 t /\ fnonneg t.
Proof.
  intros Hs. destruct f_1_0_good as [H1 Hn1].
  destruct (time_good f_1_0 1 s H1 Hn1 ltac:(lia) Hs) as (t & Ht & Hg & Hn).
  exists t. split; [exact Ht|]. split; assumption.
Qed.

(** The offset of position [i] is the floor of the float product. *)
Lemma wave_offset_floor (t : spec_float) (i : nat) :
  fgood 910 t -> fnonneg t -> Z.of_nat i < corridor_limit ->
  exists a,
    py_mul (PyInt (Z.of_nat i)) (PyFloat t)
    = Returned (PyFloat (Float.mul (Float.of_Z (Z.of_nat i)) t))
    /\ Float.dyadic (Float.mul (Float.of_Z (Z.of_nat i)) t) = Some a
    /\ 0 <= a.1
    /\ wave_offset (PyFloat t) i = Returned (dyadic_floor a).
Proof.
  intros Hg Hn Hi. unfold corridor_limit in Hi.
  destruct (of_Z_nonneg (Z.of_nat i) 62 ltac:(lia) ltac:(lia)) as [Hgi Hni].
  pose proof (mul_good _ _ _ _ Hgi Hg ltac:(lia)) as Hp.
  pose proof (mul_nonneg _ _ _ Hni Hn Hp) as Hnp.
  destruct (fgood_dyadic _ _ Hp) as [a Ha].
  pose proof (fnonneg_dyadic _ _ Hnp Ha) as Ha0.
  assert (Hmul : py_mul (PyInt (Z.of_nat i)) (PyFloat t)
                 = Returned (PyFloat (Float.mul (Float.of_Z (Z.of_nat i)) t)))
    by (unfold py_mul; apply (py_arith_int_float _ _ _ _ _ Hgi)).
  exists a. split; [exact Hmul|]. split; [exact Ha|]. split; [exact Ha0|].
  unfold wave_offset. rewrite Hmul, outcome_bind_ret.
  rewrite (py_int_dyadic _ _ Ha), (trunc_floor_nonneg a Ha0). reflexivity.
Qed.

Lemma wave_offset_total (t : spec_float) (i : nat) :
  fgood 910 t -> fnonneg t -> Z.of_nat i < corridor_limit ->
  exists o, wave_offset (PyFloat t) i = Returned o.
Proof.
  intros Hg Hn Hi. destruct (wave_offset_floor t i Hg Hn Hi) as (a & _ & _ & _ & H).
  eauto.
Qed.

Lemma wave_offset_mono (t : spec_float) (i j : nat) (oi oj : Z) :
  fgood 910 t -> fnonneg t -> (i <= j)%nat -> Z.of_nat j < corridor_limit ->
  wave_offset (PyFloat t) i = Returned oi ->
  wave_offset (PyFloat t) j = Returned oj ->
  oi <= oj.
Proof.
  intros Hg Hn Hij Hj Hoi Hoj.
  destruct (wave_offset_floor t i Hg Hn ltac:(lia)) as (a & _ & Ha & _ & Hi').
  destruct (wave_offset_floor t j Hg Hn Hj) as (b & _ & Hb & _ & Hj').
  rewrite Hoi in Hi'. rewrite Hoj in Hj'. injection Hi' as ->. injection Hj' as ->.
  unfold corridor_limit in Hj.
  destruct (of_Z_nonneg (Z.of_nat i) 62 ltac:(lia) ltac:(lia)) as [Hgi Hni].
  destruct (of_Z_nonneg (Z.of_nat j) 62 ltac:(lia) ltac:(lia)) as [Hgj Hnj].
  destruct (of_Z_mono (Z.of_nat i) (Z.of_nat j) 62 ltac:(lia) ltac:(lia) Hj)
    as (x & y & Hx & Hy & Hxy).
  destruct (mul_mono _ _ t 63 63 910 x y Hgi Hgj Hg Hni Hnj Hn ltac:(lia) Hx Hy Hxy)
    as (a' & b' & Ha' & Hb' & _ & _ & Hle).
  rewrite Ha in Ha'. rewrite Hb in Hb'. injection Ha' as <-. injection Hb' as <-.
  apply dyadic_floor_mono. exact Hle.
Qed.

Lemma wave_offset_zero (t : spec_float) (K : Z) :
  fgood K t -> wave_offset (PyFloat t) 0 = Returned 0.
Proof.
  intros Hg. destruct t as [s|s| |s m e]; simpl in Hg; try contradiction; reflexivity.
Qed.

(** ** The loop over the corridor *)

Lemma with_offset_twice (o1 o2 : Z) (x : Intersection) :
  with_offset o2 (with_offset o1 x) = with_offset o2 x.
Proof.
  unfold with_offset. simpl. rewrite <- map_fmap_compose.
  f_equal.
Qed.

Lemma green_wave_step_known t acc i id st x o :
  intersections st !! id = Some x -> wave_offset t i = Returned o ->
  green_wave_step t acc i id st
  = (Returned (dict_set id o acc.1.1, acc.1.2 + 12, acc.2 + 8),
     set_intersections (<[id := with_offset o x]> (intersections st))
       (set_coordination_offsets (<[id := o]> (coordination_offsets st)) st)).
Proof.
  intros Hx Ho. destruct acc as [[offsets s] e].
  unfold green_wave_step, mbind, M_bind, get. simpl. rewrite Hx.
  unfold lift. rewrite Ho. reflexivity.
Qed.

Lemma green_wave_step_unknown t acc i id st :
  intersections st !! id = None -> green_wave_step t acc i id st = (Returned acc, st).
Proof.
  intros Hx. unfold green_wave_step, mbind, M_bind, get. simpl. rewrite Hx. reflexivity.
Qed.

Lemma known_count_cons (st : TrafficSignalCoordinator) (id : string) (ids : list string) :
  known_count st (id :: ids)
  = match intersections st !! id with
    | Some _ => S (known_count st ids)
    | None => known_count st ids
    end.
Proof.
  unfold known_count. rewrite filter_cons.
  destruct (intersections st !! id) as [x|] eqn:E.
  - rewrite decide_True by eauto. reflexivity.
  - rewrite decide_False by (intros [? ?]; discriminate). reflexivity.
Qed.

Lemma known_count_same_keys (st st' : TrafficSignalCoordinator) (ids : list string) :
  (forall id, is_Some (intersections st' !! id) <-> is_Some (intersections st !! id)) ->
  known_count st' ids = known_count st ids.
Proof.
  intros Hk. induction ids as [|id ids IH]; [reflexivity|].
  rewrite !known_count_cons, IH. specialize (Hk id).
  destruct (intersections st' !! id), (intersections st !! id); try reflexivity.
  - destruct Hk as [Hk _]. destruct (Hk ltac:(eauto)). discriminate.
  - destruct Hk as [_ Hk]. destruct (Hk ltac:(eauto)). discriminate.
Qed.

Lemma last_index_skip (id id0 : string) (todo : list string) (i : nat) :
  id0 <> id -> last_index id (id0 :: todo) i = last_index id todo (S i).
Proof.
  intros Hne. simpl. destruct (last_index id todo (S i)); [reflexivity|].
  rewrite decide_False by assumption. reflexivity.
Qed.

Lemma last_index_here (id : string) (todo : list string) (i : nat) :
  last_index id (id :: todo) i
  = match last_index id todo (S i) with Some k => Some k | None => Some i end.
Proof.
  simpl. destruct (last_index id todo (S i)); [reflexivity|].
  rewrite decide_True by reflexivity. reflexivity.
Qed.

(** The loop never raises where every offset can be computed; it counts
    12 and 8 per known position and leaves the offsets of the last
    positions behind. *)
Lemma green_wave_loop_ok (t : pynum) (off : nat -> Z) (todo : list string) :
  forall (i : nat) (st : TrafficSignalCoordinator) (offsets : list (string * Z))
         (s e : Z),
    (forall k, (i <= k < i + length todo)%nat -> wave_offset t k = Returned (off k)) ->
    exists offsets' st',
      green_wave_loop t i todo (offsets, s, e) st
      = (Returned (offsets', s + 12 * Z.of_nat (known_count st todo),
                   e + 8 * Z.of_nat (known_count st todo)), st')
      /\ wave_written off i todo st st' offsets offsets'.
Proof.
  induction todo as [|id0 todo IH]; intros i st offsets s e Hoff.
  - exists offsets, st. split.
    + simpl. unfold mret, M_ret.
      change (Z.of_nat (known_count st [])) with 0.
      rewrite !Z.mul_0_r, !Z.add_0_r. reflexivity.
    + repeat split; try reflexivity;
        intros id; simpl; destruct (intersections st !! id); auto.
  - simpl green_wave_loop. unfold mbind, M_bind.
    rewrite known_count_cons.
    destruct (intersections st !! id0) as [x0|] eqn:Hx0.
    + (* a known intersection *)
      rewrite (green_wave_step_known t _ i id0 st x0 (off i) Hx0)
        by (apply Hoff; simpl; lia).
      cbv beta iota. simpl fst. simpl snd.
      set (st1 := set_intersections _ _).
      destruct (IH (S i) st1 (dict_set id0 (off i) offsets) (s + 12) (e + 8))
        as (offsets' & st' & Hrun & Hc & Hh & Hm & Hw).
      { intros k Hk. apply Hoff. simpl. lia. }
      assert (Hkeys : forall id, is_Some (intersections st1 !! id)
                                 <-> is_Some (intersections st !! id)).
      { intros id. subst st1. simpl. destruct (decide (id0 = id)) as [->|Hne].
        - rewrite lookup_insert_eq, Hx0. split; eauto.
        - rewrite lookup_insert_ne by assumption. reflexivity. }
      rewrite (known_count_same_keys st st1 todo Hkeys) in Hrun.
      exists offsets', st'. split.
      * replace (s + 12 * Z.of_nat (S (known_count st todo)))
          with (s + 12 + 12 * Z.of_nat (known_count st todo)) by lia.
        replace (e + 8 * Z.of_nat (S (known_count st todo)))
          with (e + 8 + 8 * Z.of_nat (known_count st todo)) by lia.
        exact Hrun.
      * split; [exact Hc|]. split; [exact Hh|]. split; [exact Hm|].
        intros id. specialize (Hw id). destruct (decide (id0 = id)) as [->|Hne].
        -- rewrite last_index_here, Hx0.
           subst st1. simpl in Hw. rewrite !lookup_insert_eq in Hw.
           destruct (last_index id todo (S i)) as [k|].
           ++ rewrite with_offset_twice in Hw. exact Hw.
           ++ rewrite dict_get_set_eq in Hw. exact Hw.
        -- rewrite (last_index_skip id id0 todo i Hne).
           subst st1. simpl in Hw. rewrite !lookup_insert_ne in Hw by assumption.
           rewrite (dict_get_set_ne id0 id) in Hw by assumption. exact Hw.
    + (* an unknown id is skipped *)
      rewrite (green_wave_step_unknown t _ i id0 st Hx0).
      destruct (IH (S i) st offsets s e) as (offsets' & st' & Hrun & Hc & Hh & Hm & Hw).
      { intros k Hk. apply Hoff. simpl. lia. }
      exists offsets', st'. split; [exact Hrun|].
      split; [exact Hc|]. split; [exact Hh|]. split; [exact Hm|].
      intros id. specialize (Hw id). destruct (decide (id0 = id)) as [->|Hne].
      * rewrite Hx0. rewrite Hx0 in Hw. exact Hw.
      * rewrite (last_index_skip id id0 todo i Hne). exact Hw.
Qed.

(** ** The whole call *)

Lemma outcome_bind_inv {A B} (c : outcome A) (k : A -> outcome B) (b : B) :
  mbind k c = Returned b -> exists a, c = Returned a /\ k a = Returned b.
Proof. destruct c as [a|e]; [eauto|discriminate]. Qed.

Lemma known_count_le (st : TrafficSignalCoordinator) (ids : list string) :
  (known_count st ids <= length ids)%nat.
Proof. unfold known_count. apply length_filter. Qed.

(** The plan of a call whose loop returned [offsets] and counted [known]
    intersections. *)
Lemma coordinate_green_wave_run (ids : list string) (road : string) (speed : pynum)
    (st : TrafficSignalCoordinator) :
  (2 <= length ids)%nat -> Z.of_nat (length ids) < corridor_limit ->
  speed_in_range speed = true ->
  exists t off offsets st' total,
    hop_time speed = Returned (PyFloat t) /\ fgood 910 t /\ fnonneg t
    /\ (forall k, (k < length ids)%nat -> wave_offset (PyFloat t) k = Returned (off k))
    /\ corridor_time (Z.of_nat (length ids) - 1) speed = Returned (PyFloat total)
    /\ wave_written off 0 ids st st' [] offsets
    /\ coordinate_green_wave ids road speed st
       = (Returned (GwPlan
            {| gw_corridor := road;
               gw_intersections := ids;
               gw_offsets_seconds := offsets;
               gw_target_speed_kmph := speed;
               gw_expected_travel_time_minutes := py_round1 (PyFloat total);
               gw_total_corridor_distance_km :=
                 py_round1 (PyFloat (Float.mul f_1_0
                                       (Float.of_Z (Z.of_nat (length ids) - 1))));
               gw_stops_reduced_percent :=
                 py_round1 (PyFloat (Float.div_Z (12 * Z.of_nat (known_count st ids))
                                       (Z.of_nat (length ids))));
               gw_emissions_reduced_percent :=
                 py_round1 (PyFloat (Float.div_Z (8 * Z.of_nat (known_count st ids))
                                       (Z.of_nat (length ids))));
               gw_coordination_status := "active" |}), st').
Proof.
  intros Hlen Hlim Hs. set (L := Z.of_nat (length ids)) in *.
  set (K := Z.of_nat (known_count st ids)).
  assert (HK : 0 <= K <= L) by (pose proof (known_count_le st ids); lia).
  unfold corridor_limit in Hlim.
  (* the time of one hop *)
  destruct (hop_time_good speed Hs) as (t & Ht & Hgt & Hnt).
  pose proof Ht as Ht'. unfold hop_time in Ht'.
  apply outcome_bind_inv in Ht' as (pace & Hpace & Hmul).
  (* the offsets *)
  set (off := fun k => match wave_offset (PyFloat t) k with
                       | Returned o => o
                       | Raised _ => 0
                       end).
  assert (Hoff : forall k, (k < length ids)%nat ->
                           wave_offset (PyFloat t) k = Returned (off k)).
  { intros k Hk. unfold off.
    destruct (wave_offset_total t k Hgt Hnt) as [o ->]; [unfold corridor_limit; lia|].
    reflexivity. }
  destruct (green_wave_loop_ok (PyFloat t) off ids 0 st [] 0 0)
    as (offsets & st' & Hrun & Hw).
  { intros k Hk. apply Hoff. lia. }
  fold K in Hrun. rewrite !Z.add_0_l in Hrun.
  (* the averages *)
  assert (Hstops : fgood 7 (Float.div_Z (12 * K) L))
    by (apply (div_Z_good (12 * K) L 4); change (2 ^ 4) with 16; lia).
  assert (Hemis : fgood 7 (Float.div_Z (8 * K) L))
    by (apply (div_Z_good (8 * K) L 4); change (2 ^ 4) with 16; lia).
  (* the time of the corridor *)
  destruct (of_Z_nonneg (L - 1) 62 ltac:(lia) ltac:(lia)) as [Hgh Hnh].
  destruct f_1_0_good as [Hg1 Hn1].
  pose proof (mul_good _ _ _ _ Hg1 Hgh ltac:(lia)) as Hgd.
  change (Z.max (1 + (62 + 1)) (-1074) + 1) with 65 in Hgd.
  pose proof (mul_nonneg _ _ _ Hn1 Hnh Hgd) as Hnd.
  assert (Hdist : py_mul (PyFloat f_1_0) (PyInt (L - 1))
                  = Returned (PyFloat (Float.mul f_1_0 (Float.of_Z (L - 1)))))
    by (unfold py_mul; apply (py_arith_float_int _ _ _ _ _ Hgh)).
  destruct (time_good _ 65 speed Hgd Hnd ltac:(lia) Hs) as (total & Htotal & _ & _).
  pose proof Htotal as Htotal'.
  apply outcome_bind_inv in Htotal' as (pace' & Hpace' & Hmul').
  exists t, off, offsets, st', total.
  split; [exact Ht|]. split; [exact Hgt|]. split; [exact Hnt|]. split; [exact Hoff|].
  split; [unfold corridor_time; rewrite Hdist, outcome_bind_ret; exact Htotal|].
  split; [exact Hw|].
  unfold coordinate_green_wave.
  destruct (Nat.ltb_spec (length ids) 2) as [?|_]; [lia|].
  fold L. unfold mbind, M_bind, lift.
  rewrite Hpace. cbv beta iota. rewrite Hmul. cbv beta iota.
  rewrite Hrun. cbv beta iota.
  rewrite (py_truediv_int (12 * K) L 7) by (try assumption; lia). cbv beta iota.
  rewrite (py_truediv_int (8 * K) L 7) by (try assumption; lia). cbv beta iota.
  change (py_sub (PyInt L) (PyInt 1)) with (Returned (PyInt (L - 1))). cbv beta iota.
  rewrite Hdist. cbv beta iota. rewrite Hpace'. cbv beta iota.
  rewrite Hmul'. reflexivity.
Qed.

Lemma green_wave_step_raises t acc i id st x e :
  intersections st !! id = Some x -> wave_offset t i = Raised e ->
  green_wave_step t acc i id st = (Raised e, st).
Proof.
  intros Hx Ho. destruct acc as [[offsets s] e'].
  unfold green_wave_step, mbind, M_bind, get. simpl. rewrite Hx.
  unfold lift. rewrite Ho. reflexivity.
Qed.

(** A loop that returns has counted 12 and 8 for every position that holds
    a known id, whatever the offsets were. *)
Lemma green_wave_loop_counts (t : pynum) (todo : list string) :
  forall (i : nat) (st st' : TrafficSignalCoordinator) (acc r : wave_acc),
    green_wave_loop t i todo acc st = (Returned r, st') ->
    r.1.2 = acc.1.2 + 12 * Z.of_nat (known_count st todo)
    /\ r.2 = acc.2 + 8 * Z.of_nat (known_count st todo).
Proof.
  induction todo as [|id0 todo IH]; intros i st st' acc r Hrun.
  - simpl in Hrun. injection Hrun as <- _.
    change (Z.of_nat (known_count st [])) with 0. lia.
  - simpl green_wave_loop in Hrun. unfold mbind, M_bind in Hrun.
    rewrite known_count_cons.
    destruct (intersections st !! id0) as [x0|] eqn:Hx0.
    + destruct (wave_offset t i) as [o|err] eqn:Ho.
      * rewrite (green_wave_step_known t acc i id0 st x0 o Hx0 Ho) in Hrun.
        cbv beta iota in Hrun. apply IH in Hrun. simpl in Hrun.
        rewrite (known_count_same_keys st) in Hrun.
        -- lia.
        -- intros id. simpl. destruct (decide (id0 = id)) as [->|Hne].
           ++ rewrite lookup_insert_eq, Hx0. split; eauto.
           ++ rewrite lookup_insert_ne by assumption. reflexivity.
      * rewrite (green_wave_step_raises t acc i id0 st x0 err Hx0 Ho) in Hrun.
        discriminate.
    + rewrite (green_wave_step_unknown t acc i id0 st Hx0) in Hrun.
      apply IH in Hrun. exact Hrun.
Qed.

(** What a call with two or more ids can give: never the error; a plan
    comes with the numbers it was made from. *)
Lemma coordinate_green_wave_long (ids : list string) (road : string) (speed : pynum)
    (st : TrafficSignalCoordinator) :
  (2 <= length ids)%nat ->
  match coordinate_green_wave ids road speed st with
  | (Returned (GwError _), _) => False
  | (Raised _, _) => True
  | (Returned (GwPlan plan), st') =>
      exists total,
        corridor_time (Z.of_nat (length ids) - 1) speed = Returned total
        /\ gw_expected_travel_time_minutes plan = py_round1 total
        /\ gw_stops_reduced_percent plan
           = py_round1 (PyFloat (Float.div_Z (12 * Z.of_nat (known_count st ids))
                                   (Z.of_nat (length ids))))
        /\ gw_emissions_reduced_percent plan
           = py_round1 (PyFloat (Float.div_Z (8 * Z.of_nat (known_count st ids))
                                   (Z.of_nat (length ids))))
  end.
Proof.
  intros Hlen. unfold coordinate_green_wave.
  destruct (Nat.ltb_spec (length ids) 2) as [?|_]; [lia|].
  set (L := Z.of_nat (length ids)). unfold mbind, M_bind, lift.
  destruct (py_truediv (PyFloat f_1_0) speed) as [pace|]; [|exact I].
  destruct (py_mul pace (PyInt 60)) as [t|]; [|exact I].
  destruct (green_wave_loop t 0 ids ([], 0, 0) st) as [[[[offsets s] e]|] st'] eqn:Hrun;
    [|exact I].
  apply green_wave_loop_counts in Hrun as [Hs He].
  change (s = 0 + 12 * Z.of_nat (known_count st ids)) in Hs.
  change (e = 0 + 8 * Z.of_nat (known_count st ids)) in He.
  rewrite Z.add_0_l in Hs, He. subst s e.
  set (K := Z.of_nat (known_count st ids)).
  unfold py_truediv at 1 2.
  destruct (Z.eqb_spec L 0) as [?|_]; [exact I|]. cbv zeta.
  destruct (Float.is_infinity (Float.div_Z (12 * K) L)); [exact I|].
  destruct (Float.is_infinity (Float.div_Z (8 * K) L)); [exact I|].
  change (py_sub (PyInt L) (PyInt 1)) with (Returned (PyInt (L - 1))). cbv beta iota.
  unfold corridor_time.
  destruct (py_mul (PyFloat f_1_0) (PyInt (L - 1))) as [dist|]; [|exact I].
  rewrite outcome_bind_ret.
  destruct (py_truediv dist speed) as [pace'|]; [|exact I].
  rewrite outcome_bind_ret.
  destruct (py_mul pace' (PyInt 60)) as [total|]; [|exact I].
  exists total. repeat split; reflexivity.
Qed.

(** ** Positions *)

Lemma last_index_None (id : string) (todo : list string) :
  forall i, (forall j, todo !! j <> Some id) -> last_index id todo i = None.
Proof.
  induction todo as [|x todo IH]; intros i Hno; [reflexivity|].
  simpl. rewrite IH by (intros j; exact (Hno (S j))).
  rewrite decide_False; [reflexivity|].
  intros ->. exact (Hno 0%nat eq_refl).
Qed.

Lemma last_index_position (id : string) (todo : list string) :
  forall (i k : nat),
    todo !! k = Some id -> (forall j, (k < j)%nat -> todo !! j <> Some id) ->
    last_index id todo i = Some (i + k)%nat.
Proof.
  induction todo as [|x todo IH]; intros i k Hk Hlast; [discriminate|].
  destruct k as [|k].
  - injection Hk as ->. simpl.
    rewrite last_index_None by (intros j; apply (Hlast (S j)); lia).
    rewrite decide_True by reflexivity. f_equal. lia.
  - simpl. rewrite (IH (S i) k Hk) by (intros j Hj; apply (Hlast (S j)); lia).
    f_equal. lia.
Qed.

Lemma last_index_absent (id : string) (todo : list string) (i : nat) :
  id ∉ todo -> last_index id todo i = None.
Proof.
  intros Hno. apply last_index_None. intros j Hj.
  apply Hno. exact (list_elem_of_lookup_2 _ _ _ Hj).
Qed.

Lemma stored_signal_with_offset (st : TrafficSignalCoordinator) (id d : string)
    (x : Intersection) (o : Z) (s : TrafficSignal) :
  intersections st !! id = Some (with_offset o x) ->
  stored_signal st id d = Some s -> adaptive_offset s = o.
Proof.
  intros Hx Hs. unfold stored_signal in Hs. rewrite Hx in Hs. simpl in Hs.
  rewrite lookup_fmap in Hs. destruct (signals x !! d) as [s0|]; [|discriminate].
  injection Hs as <-. reflexivity.
Qed.

(** ** Green waves: the claims *)

(** C3, as the code has it: [coordinate_green_wave] returns the error
    'Need at least 2 intersections for green wave' exactly when fewer than
    two ids are supplied, known to the registry or not, and then leaves the
    coordinator as it was; with two or more supplied ids (fewer than
    [2^62]) and a target speed that is a positive finite number of at least
    [2^-900] it returns a plan. *)
Theorem coordinate_green_wave_guard (ids : list string) (road : string)
    (speed : pynum) (st : TrafficSignalCoordinator) :
  (is_wave_error (result (coordinate_green_wave ids road speed) st)
   <-> (length ids < 2)%nat)
  /\ ((length ids < 2)%nat -> after (coordinate_green_wave ids road speed) st = st)
  /\ ((2 <= length ids)%nat -> Z.of_nat (length ids) < corridor_limit ->
      speed_in_range speed = true ->
      exists plan,
        result (coordinate_green_wave ids road speed) st = Returned (GwPlan plan)).
Proof.
  assert (Hshort : (length ids < 2)%nat ->
                   coordinate_green_wave ids road speed st
                   = (Returned (GwError "Need at least 2 intersections for green wave"), st)).
  { intros Hlt. unfold coordinate_green_wave.
    destruct (Nat.ltb_spec (length ids) 2) as [_|?]; [reflexivity|lia]. }
  split; [split|split].
  - intros Herr. destruct (Nat.lt_ge_cases (length ids) 2) as [Hlt|Hge]; [exact Hlt|].
    pose proof (coordinate_green_wave_long ids road speed st Hge) as Hlong.
    unfold is_wave_error, result in Herr.
    destruct (coordinate_green_wave ids road speed st) as [[[e|p]|e] st'];
      simpl in Herr; [contradiction|discriminate|discriminate].
  - intros Hlt. unfold is_wave_error, result. rewrite (Hshort Hlt). reflexivity.
  - intros Hlt. unfold after. rewrite (Hshort Hlt). reflexivity.
  - intros Hge Hlim Hs.
    destruct (coordinate_green_wave_run ids road speed st Hge Hlim Hs)
      as (t & off & offsets & st' & total & _ & _ & _ & _ & _ & _ & Hrun).
    unfold result. rewrite Hrun. eauto.
Qed.

Lemma coordinate_green_wave_guard_witness :
  exists plan,
    result (coordinate_green_wave ["INT_001"; "X"]%string "corridor" (PyFloat f_30_0))
      fresh = Returned (GwPlan plan).
Proof.
  apply (proj2 (proj2 (coordinate_green_wave_guard ["INT_001"; "X"]%string "corridor"
                         (PyFloat f_30_0) fresh))).
  - simpl. lia.
  - vm_compute. reflexivity.
  - vm_compute. reflexivity.
Defined.

(** C4, as the code has it: in every call that returns a plan,
    [stops_reduced_percent] is [round(12 * K / N, 1)] and
    [emissions_reduced_percent] is [round(8 * K / N, 1)], with [N] the
    number of supplied ids and [K] the number of positions that hold a known
    id; they are 12.0 and 8.0 when every supplied id is known.
    [expected_travel_time_minutes] is
    [round((1.0 * (N - 1) / target_speed) * 60, 1)] for the same [N]. *)
Theorem green_wave_plan_figures (ids : list string) (road : string)
    (speed : pynum) (st : TrafficSignalCoordinator) (plan : GreenWavePlan) :
  result (coordinate_green_wave ids road speed) st = Returned (GwPlan plan) ->
  gw_stops_reduced_percent plan
  = py_round1 (PyFloat (Float.div_Z (12 * Z.of_nat (known_count st ids))
                          (Z.of_nat (length ids))))
  /\ gw_emissions_reduced_percent plan
     = py_round1 (PyFloat (Float.div_Z (8 * Z.of_nat (known_count st ids))
                             (Z.of_nat (length ids))))
  /\ (known_count st ids = length ids ->
      gw_stops_reduced_percent plan = PyFloat f_12_0
      /\ gw_emissions_reduced_percent plan = PyFloat f_8_0)
  /\ exists total,
       corridor_time (Z.of_nat (length ids) - 1) speed = Returned total
       /\ gw_expected_travel_time_minutes plan = py_round1 total.
Proof.
  intros Hplan. unfold result in Hplan.
  assert (Hge : (2 <= length ids)%nat).
  { destruct (Nat.lt_ge_cases (length ids) 2) as [Hlt|Hge]; [exfalso|exact Hge].
    unfold coordinate_green_wave in Hplan.
    destruct (Nat.ltb_spec (length ids) 2) as [_|?]; [discriminate|lia]. }
  pose proof (coordinate_green_wave_long ids road speed st Hge) as Hlong.
  destruct (coordinate_green_wave ids road speed st) as [[[e|p]|e] st'];
    simpl in Hplan; try discriminate.
  injection Hplan as ->. destruct Hlong as (total & Htotal & Htime & Hstops & Hemis).
  split; [exact Hstops|]. split; [exact Hemis|]. split; [|eauto].
  intros Hall. rewrite Hstops, Hemis, Hall.
  rewrite div_Z_twelve, div_Z_eight by lia. split; vm_compute; reflexivity.
Qed.

Lemma green_wave_plan_figures_witness :
  exists plan,
    result (coordinate_green_wave ["INT_001"; "INT_002"; "INT_003"]%string "corridor"
              (PyFloat f_30_0)) fresh = Returned (GwPlan plan)
    /\ gw_stops_reduced_percent plan = PyFloat f_12_0
    /\ gw_emissions_reduced_percent plan = PyFloat f_8_0.
Proof.
  destruct (result (coordinate_green_wave ["INT_001"; "INT_002"; "INT_003"]%string
                      "corridor" (PyFloat f_30_0)) fresh) as [[e|plan]|e] eqn:Hr;
    [vm_compute in Hr; discriminate| |vm_compute in Hr; discriminate].
  exists plan. split; [reflexivity|].
  apply (proj1 (proj2 (proj2 (green_wave_plan_figures _ _ _ _ plan Hr)))).
  vm_compute. reflexivity.
Defined.

(** C7 as stated fails.  A list may repeat an id: over
    INT_001, INT_002, INT_001 at 30 km/h (2 min per hop) the known
    intersection at position 0 ends with the offset 4 of position 2 in its
    signals and in [coordination_offsets], not with 0, and the plan reports
    the offsets 4, 2.  A positive speed may be too small: at 6e-307 the third
    offset overflows, and the call raises [OverflowError] with the first two
    intersections written.  And a single id is refused: nothing is recorded
    for it. *)
Lemma green_wave_offsets_not_by_position :
  let ids := ["INT_001"; "INT_002"; "INT_001"]%string in
  let wave := coordinate_green_wave ids "corridor" (PyFloat f_30_0) in
  let slow := coordinate_green_wave ["INT_001"; "INT_002"; "INT_003"]%string "corridor"
                (PyFloat f_6e_307) in
  let single := coordinate_green_wave ["INT_003"]%string "corridor" (PyFloat f_30_0) in
  (ids !! 0%nat = Some "INT_001"%string
   /\ is_Some (intersections fresh !! "INT_001"%string)
   /\ hop_time (PyFloat f_30_0) = Returned (PyFloat f_2_0)
   /\ wave_offset (PyFloat f_2_0) 0 = Returned 0
   /\ (adaptive_offset <$> stored_signal (after wave fresh) "INT_001" "north") = Some 4
   /\ coordination_offsets (after wave fresh) !! "INT_001"%string = Some 4
   /\ (gw_offsets_seconds <$> wave_plan (result wave fresh))
      = Some [("INT_001", 4); ("INT_002", 2)]%string)
  /\ (py_gt (PyFloat f_6e_307) (PyInt 0) = true
      /\ result slow fresh = Raised OverflowError
      /\ coordination_offsets (after slow fresh) !! "INT_001"%string = Some 0
      /\ is_Some (coordination_offsets (after slow fresh) !! "INT_002"%string)
      /\ coordination_offsets (after slow fresh) !! "INT_003"%string = None)
  /\ (is_wave_error (result single fresh)
      /\ coordination_offsets (after single fresh) !! "INT_003"%string = None).
Proof.
  cbv zeta. split; [|split].
  - split; [reflexivity|]. split; [vm_compute; eauto|].
    repeat split; vm_compute; reflexivity.
  - split; [vm_compute; reflexivity|]. split; [vm_compute; reflexivity|].
    split; [vm_compute; reflexivity|]. split; [vm_compute; eauto|].
    vm_compute; reflexivity.
  - split; vm_compute; reflexivity.
Qed.

(** C7, amended: a call with two or more ids (fewer than [2^62]) and a
    target speed that is a positive finite number of at least [2^-900]
    returns a plan, and with [t = (1.0 / target_speed) * 60] the time of one
    hop:
    - the offset of position [i] is the floor of the float product [i * t];
    - a known id has the offset of its last position [i] in the list (its
      only position when the list does not repeat it) in every one of its
      signals, in [coordination_offsets] and in the plan's offsets; nothing
      else of the intersection changes;
    - ids that the registry does not know are skipped: no entry appears for
      them anywhere; intersections that are not listed stay as they were;
    - the offsets do not decrease along the list, and position 0 has
      offset 0: the offsets recorded for two known ids are in the order of
      their last positions, and a known id at position 0 that the list does
      not repeat has the offset 0 in [coordination_offsets] and in its
      signals. *)
Theorem coordinate_green_wave_offsets (ids : list string) (road : string)
    (speed : pynum) (st : TrafficSignalCoordinator) :
  (2 <= length ids)%nat -> Z.of_nat (length ids) < corridor_limit ->
  speed_in_range speed = true ->
  exists (t : spec_float) (off : nat -> Z) (plan : GreenWavePlan)
         (st' : TrafficSignalCoordinator),
    hop_time speed = Returned (PyFloat t)
    /\ coordinate_green_wave ids road speed st = (Returned (GwPlan plan), st')
    /\ (forall i, (i < length ids)%nat ->
          wave_offset (PyFloat t) i = Returned (off i)
          /\ exists p a,
               py_mul (PyInt (Z.of_nat i)) (PyFloat t) = Returned (PyFloat p)
               /\ Float.dyadic p = Some a /\ 0 <= a.1
               /\ off i = dyadic_floor a)
    /\ (forall i id x,
          ids !! i = Some id -> intersections st !! id = Some x ->
          (forall j, (i < j)%nat -> ids !! j <> Some id) ->
          intersections st' !! id = Some (with_offset (off i) x)
          /\ (forall d s, stored_signal st' id d = Some s -> adaptive_offset s = off i)
          /\ coordination_offsets st' !! id = Some (off i)
          /\ dict_get id (gw_offsets_seconds plan) = Some (off i))
    /\ (forall id,
          intersections st !! id = None \/ id ∉ ids ->
          intersections st' !! id = intersections st !! id
          /\ coordination_offsets st' !! id = coordination_offsets st !! id
          /\ dict_get id (gw_offsets_seconds plan) = None)
    /\ (forall i j, (i <= j < length ids)%nat -> off i <= off j)
    /\ off 0%nat = 0
    /\ (forall i j idi idj,
          (i <= j)%nat -> ids !! i = Some idi -> ids !! j = Some idj ->
          is_Some (intersections st !! idi) -> is_Some (intersections st !! idj) ->
          (forall k, (i < k)%nat -> ids !! k <> Some idi) ->
          (forall k, (j < k)%nat -> ids !! k <> Some idj) ->
          exists oi oj,
            coordination_offsets st' !! idi = Some oi
            /\ coordination_offsets st' !! idj = Some oj
            /\ dict_get idi (gw_offsets_seconds plan) = Some oi
            /\ dict_get idj (gw_offsets_seconds plan) = Some oj
            /\ oi <= oj)
    /\ (forall id,
          ids !! 0%nat = Some id -> is_Some (intersections st !! id) ->
          (forall k, (0 < k)%nat -> ids !! k <> Some id) ->
          coordination_offsets st' !! id = Some 0
          /\ dict_get id (gw_offsets_seconds plan) = Some 0
          /\ forall d s, stored_signal st' id d = Some s -> adaptive_offset s = 0).
Proof.
  intros Hge Hlim Hs.
  destruct (coordinate_green_wave_run ids road speed st Hge Hlim Hs)
    as (t & off & offsets & st' & total & Ht & Hgt & Hnt & Hoff & _ & Hw & Hrun).
  destruct Hw as (_ & _ & _ & Hw).
  assert (Hknown : forall i id x,
            ids !! i = Some id -> intersections st !! id = Some x ->
            (forall j, (i < j)%nat -> ids !! j <> Some id) ->
            intersections st' !! id = Some (with_offset (off i) x)
            /\ (forall d s, stored_signal st' id d = Some s -> adaptive_offset s = off i)
            /\ coordination_offsets st' !! id = Some (off i)
            /\ dict_get id offsets = Some (off i)).
  { intros i id x Hi Hx Hlast. specialize (Hw id).
    rewrite Hx, (last_index_position id ids 0 i Hi Hlast) in Hw.
    destruct Hw as (Hx' & Hc & Hd). split; [exact Hx'|]. split; [|split; assumption].
    intros d s. exact (stored_signal_with_offset st' id d x _ s Hx'). }
  assert (Hmono : forall i j, (i <= j < length ids)%nat -> off i <= off j).
  { intros i j Hij.
    apply (wave_offset_mono t i j (off i) (off j) Hgt Hnt); try lia;
      apply Hoff; lia. }
  assert (Hzero : off 0%nat = 0).
  { pose proof (Hoff 0%nat ltac:(lia)) as H0.
    rewrite (wave_offset_zero t _ Hgt) in H0. injection H0 as <-. reflexivity. }
  eexists t, off, _, st'. split; [exact Ht|]. split; [exact Hrun|]. simpl.
  split; [|split; [|split; [|split; [|split; [|split]]]]].
  - intros i Hi. split; [exact (Hoff i Hi)|].
    destruct (wave_offset_floor t i Hgt Hnt ltac:(lia)) as (a & Hmul & Ha & Ha0 & Ho).
    exists (Float.mul (Float.of_Z (Z.of_nat i)) t), a.
    split; [exact Hmul|]. split; [exact Ha|]. split; [exact Ha0|].
    rewrite (Hoff i Hi) in Ho. injection Ho as ->. reflexivity.
  - exact Hknown.
  - intros id [Hx|Hno]; specialize (Hw id).
    + rewrite Hx in Hw. rewrite Hx. exact Hw.
    + rewrite (last_index_absent id ids 0 Hno) in Hw.
      destruct (intersections st !! id); exact Hw.
  - exact Hmono.
  - exact Hzero.
  - intros i j idi idj Hij Hi Hj [xi Hxi] [xj Hxj] Hli Hlj.
    destruct (Hknown i idi xi Hi Hxi Hli) as (_ & _ & Hci & Hdi).
    destruct (Hknown j idj xj Hj Hxj Hlj) as (_ & _ & Hcj & Hdj).
    exists (off i), (off j). repeat split; try assumption.
    apply Hmono. apply lookup_lt_Some in Hj. lia.
  - intros id H0 [x Hx] Hl.
    destruct (Hknown 0%nat id x H0 Hx Hl) as (_ & Hsig & Hc & Hd).
    rewrite Hzero in Hsig, Hc, Hd. repeat split; assumption.
Qed.

Lemma coordinate_green_wave_offsets_witness :
  exists s,
    stored_signal
      (after (coordinate_green_wave ["INT_001"; "INT_002"; "INT_003"]%string "corridor"
                (PyFloat f_30_0)) fresh) "INT_003" "north" = Some s
    /\ adaptive_offset s = 4
    /\ coordination_offsets
         (after (coordinate_green_wave ["INT_001"; "INT_002"; "INT_003"]%string
                   "corridor" (PyFloat f_30_0)) fresh) !! "INT_003"%string = Some 4.
Proof.
  destruct (coordinate_green_wave_offsets ["INT_001"; "INT_002"; "INT_003"]%string
              "corridor" (PyFloat f_30_0) fresh)
    as (t & off & plan & st' & Ht & Hrun & Hoff & Hknown & _).
  - simpl. lia.
  - vm_compute. reflexivity.
  - vm_compute. reflexivity.
  - unfold after. rewrite Hrun. simpl.
    assert (Et : t = S754_finite false 4503599627370496 (-51))
      by (vm_compute in Ht; injection Ht as <-; reflexivity).
    destruct (Hoff 2%nat ltac:(simpl; lia)) as [H2 _].
    rewrite Et in H2. vm_compute in H2. injection H2 as H2.
    destruct (intersections fresh !! "INT_003"%string) as [x|] eqn:Hx;
      [|vm_compute in Hx; discriminate].
    destruct (Hknown 2%nat "INT_003"%string x eq_refl Hx) as (Hx' & Hsig & Hc & _).
    { intros [|[|[|j]]] Hj; try lia; discriminate. }
    rewrite <- H2 in Hsig, Hc, Hx'.
    destruct (stored_signal st' "INT_003" "north") as [s|] eqn:Es.
    + exists s. split; [reflexivity|]. split; [exact (Hsig _ _ Es)|exact Hc].
    + exfalso. unfold stored_signal in Es. rewrite Hx' in Es.
      vm_compute in Hx. injection Hx as <-. vm_compute in Es. discriminate.
Defined.

(** * Further properties of the coordinator *)

(** ** Registry updates *)

Lemma set_intersections_twice (m m' : gmap string Intersection)
    (st : TrafficSignalCoordinator) :
  set_intersections m' (set_intersections m st) = set_intersections m' st.
Proof. reflexivity. Qed.

(** X1: of two updates of the same intersection the later one wins: the
    coordinator is the one the later update alone would have left, and the
    answer is the same.  In particular an update repeated is an update done
    once. *)
Theorem update_intersection_data_last_wins (st : TrafficSignalCoordinator)
    (id : string) (td1 td2 : TrafficData) (aqi1 aqi2 : Z) :
  update_intersection_data id td2 aqi2 (after (update_intersection_data id td1 aqi1) st)
  = update_intersection_data id td2 aqi2 st.
Proof.
  unfold after, update_intersection_data, mbind, M_bind, get. simpl.
  destruct (intersections st !! id) as [x|] eqn:Hx; simpl.
  - rewrite lookup_insert_eq. simpl. unfold put.
    rewrite set_intersections_twice. simpl. rewrite insert_insert_eq. reflexivity.
  - rewrite Hx. reflexivity.
Qed.

(** ** Green waves at speed zero *)

Lemma py_truediv_by_zero (a : spec_float) (speed : pynum) :
  is_zero_number speed = true ->
  py_truediv (PyFloat a) speed = Raised ZeroDivisionError.
Proof.
  destruct speed as [z|f]; simpl; intros Hz.
  - apply Z.eqb_eq in Hz as ->. reflexivity.
  - destruct f; try discriminate. reflexivity.
Qed.

(** X3: with two or more ids, a target speed that is zero ([0], [0.0] or
    [-0.0]) makes [coordinate_green_wave] raise [ZeroDivisionError] before the
    loop: nothing is written, whatever the ids and the registry. *)
Theorem green_wave_raises_at_zero_speed (ids : list string) (road : string)
    (speed : pynum) (st : TrafficSignalCoordinator) :
  (2 <= length ids)%nat -> is_zero_number speed = true ->
  coordinate_green_wave ids road speed st = (Raised ZeroDivisionError, st).
Proof.
  intros Hlen Hz. unfold coordinate_green_wave.
  destruct (Nat.ltb_spec (length ids) 2) as [?|_]; [lia|].
  unfold mbind, M_bind, lift. rewrite (py_truediv_by_zero _ _ Hz). reflexivity.
Qed.

Lemma green_wave_raises_at_zero_speed_witness :
  coordinate_green_wave ["INT_001"; "INT_003"; "INT_005"]%string "corridor"
    (PyFloat (S754_zero true)) fresh = (Raised ZeroDivisionError, fresh).
Proof. apply green_wave_raises_at_zero_speed; [simpl; lia|reflexivity]. Defined.

(** ** The order of Python numbers *)

Lemma dyadic_lt_scaled (a b : Z * Z) (E : Z) :
  E <= a.2 -> E <= b.2 ->
  (Float.dyadic_compare a b = Lt <-> a.1 * 2 ^ (a.2 - E) < b.1 * 2 ^ (b.2 - E)).
Proof.
  intros Ha Hb. unfold Float.dyadic_compare. rewrite Z.compare_lt_iff.
  set (e := Z.min a.2 b.2).
  assert (Hp : 0 < 2 ^ (e - E)) by (apply Z.pow_pos_nonneg; lia).
  replace (a.2 - E) with (a.2 - e + (e - E)) by lia.
  replace (b.2 - E) with (b.2 - e + (e - E)) by lia.
  rewrite !Z.pow_add_r by lia. split; intros H; nia.
Qed.




(** ** Priority classifier *)





(** ** The frame of a green wave *)

Lemma offset_frame_signal_refl (s : TrafficSignal) : offset_frame_signal s s.
Proof. destruct s. reflexivity. Qed.

Lemma offset_frame_signal_trans (a b c : TrafficSignal) :
  offset_frame_signal a b -> offset_frame_signal b c -> offset_frame_signal a c.
Proof. unfold offset_frame_signal. intros -> ->. reflexivity. Qed.

Lemma offset_frame_intersection_refl (x : Intersection) : offset_frame_intersection x x.
Proof.
  split; [destruct x; reflexivity|].
  intros d. destruct (signals x !! d); constructor. apply offset_frame_signal_refl.
Qed.

Lemma offset_frame_intersection_trans (a b c : Intersection) :
  offset_frame_intersection a b -> offset_frame_intersection b c ->
  offset_frame_intersection a c.
Proof.
  intros [Hab Hsab] [Hbc Hsbc]. split.
  - rewrite Hbc, Hab. reflexivity.
  - intros d. specialize (Hsab d). specialize (Hsbc d).
    destruct Hsab as [s s' Hs|]; inversion Hsbc; subst; constructor.
    eapply offset_frame_signal_trans; eassumption.
Qed.

Lemma offset_frame_with_offset (o : Z) (x : Intersection) :
  offset_frame_intersection x (with_offset o x).
Proof.
  split; [reflexivity|]. intros d. unfold with_offset. simpl.
  rewrite lookup_fmap. destruct (signals x !! d); constructor. reflexivity.
Qed.

Lemma wave_frame_refl (ids : list string) (st : TrafficSignalCoordinator) :
  wave_frame ids st st.
Proof.
  repeat split; try reflexivity.
  intros id. destruct (intersections st !! id); constructor.
  apply offset_frame_intersection_refl.
Qed.

Lemma wave_frame_trans (ids : list string) (a b c : TrafficSignalCoordinator) :
  wave_frame ids a b -> wave_frame ids b c -> wave_frame ids a c.
Proof.
  intros (H1 & H2 & H3 & H4 & H5) (K1 & K2 & K3 & K4 & K5).
  split; [congruence|]. split; [congruence|]. split; [congruence|]. split.
  - intros id. specialize (H4 id). specialize (K4 id).
    destruct H4 as [x x' Hx|]; inversion K4; subst; constructor.
    eapply offset_frame_intersection_trans; eassumption.
  - intros id Hid. destruct (H5 id Hid) as [Hi Hc].
    assert (Hid' : id ∉ ids \/ intersections b !! id = None).
    { destruct Hid as [Hid|Hid]; [left; exact Hid|right; congruence]. }
    destruct (K5 id Hid') as [Ki Kc]. split; congruence.
Qed.

Lemma wave_frame_step (ids : list string) (t : pynum) (acc : wave_acc) (i : nat)
    (id : string) (st : TrafficSignalCoordinator) :
  id ∈ ids -> wave_frame ids st (green_wave_step t acc i id st).2.
Proof.
  intros Hin. destruct (intersections st !! id) as [x|] eqn:Hx.
  - destruct (wave_offset t i) as [o|e] eqn:Ho.
    + rewrite (green_wave_step_known t acc i id st x o Hx Ho). simpl.
      repeat split; try reflexivity.
      * intros id'. simpl. destruct (decide (id = id')) as [<-|Hne].
        -- rewrite lookup_insert_eq, Hx. constructor. apply offset_frame_with_offset.
        -- rewrite lookup_insert_ne by assumption.
           destruct (intersections st !! id'); constructor.
           apply offset_frame_intersection_refl.
      * simpl. destruct H as [H|H]; rewrite lookup_insert_ne; congruence.
      * simpl. destruct H as [H|H]; rewrite lookup_insert_ne; congruence.
    + rewrite (green_wave_step_raises t acc i id st x e Hx Ho). apply wave_frame_refl.
  - rewrite (green_wave_step_unknown t acc i id st Hx). apply wave_frame_refl.
Qed.

Lemma wave_frame_loop (ids : list string) (t : pynum) (todo : list string) :
  forall (i : nat) (acc : wave_acc) (st : TrafficSignalCoordinator),
    (forall id, id ∈ todo -> id ∈ ids) ->
    wave_frame ids st (green_wave_loop t i todo acc st).2.
Proof.
  induction todo as [|id todo IH]; intros i acc st Hsub.
  - apply wave_frame_refl.
  - simpl green_wave_loop. unfold mbind, M_bind.
    pose proof (wave_frame_step ids t acc i id st ltac:(apply Hsub; left)) as Hstep.
    destruct (green_wave_step t acc i id st) as [[acc1|e] st1]; simpl in Hstep.
    + eapply wave_frame_trans; [exact Hstep|].
      apply IH. intros id' Hid'. apply Hsub. right. exact Hid'.
    + exact Hstep.
Qed.

Lemma wave_frame_stored (ids : list string) (st st' : TrafficSignalCoordinator)
    (id d : string) (s : TrafficSignal) :
  wave_frame ids st st' -> stored_signal st id d = Some s ->
  exists s', stored_signal st' id d = Some s'
             /\ s' = set_adaptive_offset (adaptive_offset s') s.
Proof.
  intros (_ & _ & _ & Hi & _) Hs. unfold stored_signal in *. specialize (Hi id).
  destruct Hi as [x x' [_ Hx]|]; simpl in *; [|discriminate].
  specialize (Hx d). rewrite Hs in Hx. inversion Hx as [s0 s' Hss E1 E2|]. subst.
  exists s'. split; [reflexivity|exact Hss].
Qed.

Lemma wave_frame_call (ids : list string) (road : string) (speed : pynum)
    (st : TrafficSignalCoordinator) :
  wave_frame ids st (after (coordinate_green_wave ids road speed) st).
Proof.
  unfold after, coordinate_green_wave.
  destruct (length ids <? 2)%nat; [apply wave_frame_refl|].
  unfold mbind, M_bind, lift.
  destruct (py_truediv (PyFloat f_1_0) speed) as [pace|]; [|apply wave_frame_refl].
  destruct (py_mul pace (PyInt 60)) as [t|]; [|apply wave_frame_refl].
  pose proof (wave_frame_loop ids t ids 0 ([], 0, 0) st (fun _ H => H)) as Hloop.
  destruct (green_wave_loop t 0 ids ([], 0, 0) st) as [[[[offsets s] e]|] st1];
    simpl in Hloop; [|exact Hloop].
  repeat match goal with
         | |- context [match ?o with Returned _ => _ | Raised _ => _ end] =>
             destruct o
         end; exact Hloop.
Qed.

(** X4: whatever the ids, the speed and the outcome (a plan, the error or an
    exception raised half-way), [coordinate_green_wave] changes nothing but
    the [adaptive_offset] of stored signals and the entries of
    [coordination_offsets], and those only for known intersections of the
    list: no intersection is added or removed, the timings, queues, metrics
    and priority of every intersection stay as they were. *)
Theorem coordinate_green_wave_frame (ids : list string) (road : string)
    (speed : pynum) (st : TrafficSignalCoordinator) :
  let st' := after (coordinate_green_wave ids road speed) st in
  wave_frame ids st st'
  /\ (forall id, is_Some (intersections st' !! id) <-> is_Some (intersections st !! id))
  /\ (forall id d s,
        stored_signal st id d = Some s ->
        exists s', stored_signal st' id d = Some s'
                   /\ green_time s' = green_time s /\ red_time s' = red_time s
                   /\ cycle_time s' = cycle_time s /\ yellow_time s' = yellow_time s
                   /\ all_red_time s' = all_red_time s
                   /\ s' = set_adaptive_offset (adaptive_offset s') s).
Proof.
  pose proof (wave_frame_call ids road speed st) as Hf.
  cbv zeta. split; [exact Hf|]. split.
  - intros id. destruct Hf as (_ & _ & _ & Hi & _). specialize (Hi id).
    destruct Hi; split; intros [? ?]; eauto; discriminate.
  - intros id d s Hs. destruct (wave_frame_stored _ _ _ _ _ _ Hf Hs) as (s' & Hs' & E).
    exists s'. split; [exact Hs'|]. rewrite E. simpl. repeat split; reflexivity.
Qed.

(** ** What a green wave reads *)

Lemma same_ids_lookup (st1 st2 : TrafficSignalCoordinator) (id : string) :
  same_ids st1 st2 ->
  (exists x1 x2, intersections st1 !! id = Some x1 /\ intersections st2 !! id = Some x2)
  \/ (intersections st1 !! id = None /\ intersections st2 !! id = None).
Proof.
  intros H. specialize (H id).
  destruct (intersections st1 !! id) as [x1|], (intersections st2 !! id) as [x2|]; eauto.
  - destruct H as [H _]. destruct (H ltac:(eauto)). discriminate.
  - destruct H as [_ H]. destruct (H ltac:(eauto)). discriminate.
Qed.

Lemma same_ids_insert (st1 st2 : TrafficSignalCoordinator) (id : string)
    (y1 y2 : Intersection) (c1 c2 : gmap string Z) :
  same_ids st1 st2 ->
  same_ids
    (set_intersections (<[id := y1]> (intersections st1)) (set_coordination_offsets c1 st1))
    (set_intersections (<[id := y2]> (intersections st2)) (set_coordination_offsets c2 st2)).
Proof.
  intros H id'. simpl. destruct (decide (id = id')) as [<-|Hne].
  - rewrite !lookup_insert_eq. split; eauto.
  - rewrite !lookup_insert_ne by assumption. apply H.
Qed.

Lemma green_wave_loop_same_result (t : pynum) (todo : list string) :
  forall (i : nat) (acc : wave_acc) (st1 st2 : TrafficSignalCoordinator),
    same_ids st1 st2 ->
    (green_wave_loop t i todo acc st1).1 = (green_wave_loop t i todo acc st2).1.
Proof.
  induction todo as [|id todo IH]; intros i acc st1 st2 Hsame; [reflexivity|].
  simpl green_wave_loop. unfold mbind, M_bind.
  destruct (same_ids_lookup st1 st2 id Hsame) as [(x1 & x2 & H1 & H2)|[H1 H2]].
  - destruct (wave_offset t i) as [o|e] eqn:Ho.
    + rewrite (green_wave_step_known t acc i id st1 x1 o H1 Ho),
        (green_wave_step_known t acc i id st2 x2 o H2 Ho).
      apply IH. apply same_ids_insert. exact Hsame.
    + rewrite (green_wave_step_raises t acc i id st1 x1 e H1 Ho),
        (green_wave_step_raises t acc i id st2 x2 e H2 Ho). reflexivity.
  - rewrite (green_wave_step_unknown t acc i id st1 H1),
      (green_wave_step_unknown t acc i id st2 H2).
    apply IH. exact Hsame.
Qed.

Lemma same_ids_update (st : TrafficSignalCoordinator) (id : string)
    (td : TrafficData) (aqi : Z) :
  same_ids (after (update_intersection_data id td aqi) st) st.
Proof.
  intros id'. unfold after, update_intersection_data, mbind, M_bind, get. simpl.
  destruct (intersections st !! id) as [x|] eqn:Hx; simpl; [|reflexivity].
  destruct (decide (id = id')) as [<-|Hne].
  - rewrite lookup_insert_eq, Hx. split; eauto.
  - rewrite lookup_insert_ne by assumption. reflexivity.
Qed.

Lemma green_wave_result_same_ids (ids : list string) (road : string)
    (speed : pynum) (st1 st2 : TrafficSignalCoordinator) :
  same_ids st1 st2 ->
  result (coordinate_green_wave ids road speed) st1
  = result (coordinate_green_wave ids road speed) st2.
Proof.
  intros Hsame. unfold result, coordinate_green_wave.
  destruct (length ids <? 2)%nat; [reflexivity|].
  unfold mbind, M_bind, lift.
  destruct (py_truediv (PyFloat f_1_0) speed) as [pace|]; [|reflexivity].
  destruct (py_mul pace (PyInt 60)) as [t|]; [|reflexivity].
  pose proof (green_wave_loop_same_result t ids 0 ([], 0, 0) st1 st2 Hsame) as Hloop.
  destruct (green_wave_loop t 0 ids ([], 0, 0) st1) as [r1 st1'],
    (green_wave_loop t 0 ids ([], 0, 0) st2) as [r2 st2']. simpl in Hloop. subst r2.
  destruct r1 as [[[offsets s] e]|]; [|reflexivity].
  repeat match goal with
         | |- context [match ?o with Returned _ => _ | Raised _ => _ end] =>
             destruct o
         end; reflexivity.
Qed.

(** X5: the plan of a green wave (or its error, or the exception it raises)
    depends on the registry only through the set of known ids: queues,
    congestion, AQI, priorities and signal timings play no part in it. *)
Theorem coordinate_green_wave_reads_ids_only (ids : list string) (road : string)
    (speed : pynum) (st1 st2 : TrafficSignalCoordinator) :
  same_ids st1 st2 ->
  result (coordinate_green_wave ids road speed) st1
  = result (coordinate_green_wave ids road speed) st2.
Proof. apply green_wave_result_same_ids. Qed.

Lemma coordinate_green_wave_reads_ids_only_witness :
  result (coordinate_green_wave ["INT_001"; "INT_002"]%string "corridor"
            (PyFloat f_30_0))
    (after (update_intersection_data "INT_001" (queues_only 120 0 0 0) 180) fresh)
  = result (coordinate_green_wave ["INT_001"; "INT_002"]%string "corridor"
              (PyFloat f_30_0)) fresh.
Proof.
  apply coordinate_green_wave_reads_ids_only. apply same_ids_update.
Defined.

(** ** A green wave repeated *)

Lemma last_index_lt (id : string) (todo : list string) :
  forall i k, last_index id todo i = Some k -> (i <= k < i + length todo)%nat.
Proof.
  induction todo as [|x todo IH]; intros i k Hk; [discriminate|].
  simpl in Hk. destruct (last_index id todo (S i)) as [k'|] eqn:E.
  - injection Hk as <-. apply IH in E. simpl. lia.
  - destruct (decide (x = id)); [|discriminate]. injection Hk as <-. simpl. lia.
Qed.

Lemma coordinator_eq (a b : TrafficSignalCoordinator) :
  city_name a = city_name b -> intersections a = intersections b ->
  signal_timing_history a = signal_timing_history b ->
  coordination_offsets a = coordination_offsets b ->
  optimization_mode a = optimization_mode b -> a = b.
Proof. destruct a, b. simpl. intros -> -> -> -> ->. reflexivity. Qed.

(** Over the same ids at the same speed a second green wave gives the
    outcome of the first, the plan without its timestamp, and leaves the
    coordinator of the first. *)
Lemma coordinate_green_wave_twice (ids : list string) (road : string)
    (speed : pynum) (st : TrafficSignalCoordinator) :
  (2 <= length ids)%nat -> Z.of_nat (length ids) < corridor_limit ->
  speed_in_range speed = true ->
  coordinate_green_wave ids road speed
    (after (coordinate_green_wave ids road speed) st)
  = coordinate_green_wave ids road speed st.
Proof.
  intros Hge Hlim Hs.
  destruct (coordinate_green_wave_run ids road speed st Hge Hlim Hs)
    as (t & off & offsets & st' & total & Ht & _ & _ & Hoff & _ & Hw & Hrun).
  unfold after. rewrite Hrun. simpl.
  destruct (coordinate_green_wave_run ids road speed st' Hge Hlim Hs)
    as (t2 & off2 & offsets2 & st'' & total2 & Ht2 & _ & _ & Hoff2 & _ & Hw2 & Hrun2).
  assert (Et : t2 = t) by congruence. subst t2.
  assert (Eoff : forall id k, last_index id ids 0 = Some k -> off2 k = off k).
  { intros id k Hk. apply last_index_lt in Hk.
    pose proof (Hoff k ltac:(lia)) as H1. pose proof (Hoff2 k ltac:(lia)) as H2.
    congruence. }
  destruct Hw as (Hc & Hh & Hm & Hw). destruct Hw2 as (Hc2 & Hh2 & Hm2 & Hw2).
  assert (Hst : st'' = st').
  { apply coordinator_eq; try assumption.
    - apply map_eq. intros id. specialize (Hw id). specialize (Hw2 id).
      destruct (intersections st !! id) as [x|] eqn:Hx;
        [destruct (last_index id ids 0) as [k|] eqn:Hk|].
      + destruct Hw as (Hx' & _). rewrite Hx' in Hw2. destruct Hw2 as (Hx'' & _).
        rewrite Hx'', Hx', with_offset_twice, (Eoff id k Hk). reflexivity.
      + destruct Hw as (Hx' & _). rewrite Hx' in Hw2. destruct Hw2 as (Hx'' & _).
        congruence.
      + destruct Hw as (Hx' & _). rewrite Hx' in Hw2. destruct Hw2 as (Hx'' & _).
        congruence.
    - apply map_eq. intros id. specialize (Hw id). specialize (Hw2 id).
      destruct (intersections st !! id) as [x|] eqn:Hx;
        [destruct (last_index id ids 0) as [k|] eqn:Hk|].
      + destruct Hw as (Hx' & Hco & _). rewrite Hx' in Hw2.
        destruct Hw2 as (_ & Hco2 & _). rewrite Hco2, Hco, (Eoff id k Hk). reflexivity.
      + destruct Hw as (Hx' & _). rewrite Hx' in Hw2. destruct Hw2 as (_ & Hco2 & _).
        exact Hco2.
      + destruct Hw as (Hx' & _). rewrite Hx' in Hw2. destruct Hw2 as (_ & Hco2 & _).
        exact Hco2. }
  assert (Hsame : same_ids st' st).
  { intros id. specialize (Hw id).
    destruct (intersections st !! id) as [x|]; [destruct (last_index id ids 0)|];
      destruct Hw as (-> & _); split; eauto. }
  pose proof (green_wave_result_same_ids ids road speed st' st Hsame) as Hres.
  unfold result in Hres. rewrite Hrun, Hrun2 in Hres. simpl in Hres.
  rewrite Hrun2, Hst. f_equal. exact Hres.
Qed.

(** X6: a green wave is idempotent: over the same ids at the same speed a
    second call leaves the coordinator exactly as the first call left it,
    and the two plans agree in every entry that is not a clock reading: the
    corridor, the ids, the offsets, the target speed, the travel time, the
    distance, the two reductions and the status (two or more ids, fewer than
    [2^62], and a target speed that is a positive finite number of at least
    [2^-900]).  The ['timestamp'] of a plan is the time of its call and is
    not part of [GreenWavePlan]. *)
Theorem coordinate_green_wave_idempotent (ids : list string) (road : string)
    (speed : pynum) (st : TrafficSignalCoordinator) :
  (2 <= length ids)%nat -> Z.of_nat (length ids) < corridor_limit ->
  speed_in_range speed = true ->
  after (coordinate_green_wave ids road speed)
    (after (coordinate_green_wave ids road speed) st)
  = after (coordinate_green_wave ids road speed) st
  /\ exists p1 p2,
       result (coordinate_green_wave ids road speed) st = Returned (GwPlan p1)
       /\ result (coordinate_green_wave ids road speed)
            (after (coordinate_green_wave ids road speed) st) = Returned (GwPlan p2)
       /\ gw_corridor p2 = gw_corridor p1
       /\ gw_intersections p2 = gw_intersections p1
       /\ gw_offsets_seconds p2 = gw_offsets_seconds p1
       /\ gw_target_speed_kmph p2 = gw_target_speed_kmph p1
       /\ gw_expected_travel_time_minutes p2 = gw_expected_travel_time_minutes p1
       /\ gw_total_corridor_distance_km p2 = gw_total_corridor_distance_km p1
       /\ gw_stops_reduced_percent p2 = gw_stops_reduced_percent p1
       /\ gw_emissions_reduced_percent p2 = gw_emissions_reduced_percent p1
       /\ gw_coordination_status p2 = gw_coordination_status p1.
Proof.
  intros Hge Hlim Hs.
  pose proof (coordinate_green_wave_twice ids road speed st Hge Hlim Hs) as E.
  destruct (coordinate_green_wave_run ids road speed st Hge Hlim Hs)
    as (t & off & offsets & st' & total & _ & _ & _ & _ & _ & _ & Hrun).
  split.
  - unfold after at 1. rewrite E. reflexivity.
  - unfold result. rewrite E, Hrun. simpl.
    eexists _, _. split; [reflexivity|]. split; [reflexivity|].
    repeat split; reflexivity.
Qed.

Lemma coordinate_green_wave_idempotent_witness :
  after (coordinate_green_wave ["INT_001"; "INT_003"; "INT_005"]%string "corridor"
           (PyFloat f_30_0))
    (after (coordinate_green_wave ["INT_001"; "INT_003"; "INT_005"]%string "corridor"
              (PyFloat f_30_0)) fresh)
  = after (coordinate_green_wave ["INT_001"; "INT_003"; "INT_005"]%string "corridor"
             (PyFloat f_30_0)) fresh.
Proof.
  apply (coordinate_green_wave_idempotent ["INT_001"; "INT_003"; "INT_005"]%string
           "corridor" (PyFloat f_30_0) fresh);
    [simpl; lia|vm_compute; reflexivity|vm_compute; reflexivity].
Defined.

(** ** Halving an integer duration *)

Lemma trunc_signed (s : bool) (A e : Z) :
  0 <= A ->
  Float.trunc_dyadic (cond_Zopp s A, e) = cond_Zopp s (dyadic_floor (A, e)).
Proof.
  intros HA. unfold Float.trunc_dyadic, dyadic_floor. simpl.
  destruct (Z.leb_spec 0 e) as [He|He].
  - destruct s; simpl; lia.
  - assert (Hp : 0 < 2 ^ (- e)) by (apply Z.pow_pos_nonneg; lia).
    destruct s; simpl.
    + rewrite Z.quot_opp_l by lia. rewrite Z.quot_div_nonneg by lia. reflexivity.
    + apply Z.quot_div_nonneg; lia.
Qed.

(** The exact quotient of a mantissa below [2^53] by 2. *)
Lemma div_core_half (p : positive) :
  Z.pos (digits2_pos p) <= 53 ->
  SFdiv_core_binary 53 1024 (Z.pos p) 0 2 0
  = (Z.pos p * 2 ^ (54 - Z.pos (digits2_pos p)), Z.pos (digits2_pos p) - 55, loc_Exact).
Proof.
  intros Hd. unfold SFdiv_core_binary. cbv zeta.
  change (Zdigits2 (Z.pos p)) with (Z.pos (digits2_pos p)).
  change (Zdigits2 2) with 2.
  set (d := Z.pos (digits2_pos p)) in *.
  assert (Hd1 : 1 <= d) by (unfold d; lia).
  replace (Z.min (fexp 53 1024 (d + 0 - (2 + 0))) (0 - 0)) with (d - 55)
    by (rewrite fexp_eq; lia).
  replace (0 - 0 - (d - 55)) with (55 - d) by lia.
  assert (Hm : match 55 - d with
               | 0 => Z.pos p
               | Z.pos _ => Z.shiftl (Z.pos p) (55 - d)
               | Z.neg _ => 0
               end = Z.pos p * 2 ^ (54 - d) * 2).
  { destruct (55 - d) as [|s|s] eqn:E; try lia.
    rewrite Z.shiftl_mul_pow2 by lia. rewrite <- E.
    replace (55 - d) with (54 - d + 1) by lia.
    rewrite Z.pow_add_r by lia. change (2 ^ 1) with 2. ring. }
  rewrite Hm.
  destruct (Z.div_eucl (Z.pos p * 2 ^ (54 - d) * 2) 2) as [q r] eqn:E.
  assert (Hq : q = Z.pos p * 2 ^ (54 - d) * 2 / 2)
    by (unfold Z.div; rewrite E; reflexivity).
  assert (Hr : r = (Z.pos p * 2 ^ (54 - d) * 2) mod 2)
    by (unfold Z.modulo; rewrite E; reflexivity).
  rewrite Z.div_mul in Hq by lia. rewrite Z.mod_mul in Hr by lia. subst q r.
  reflexivity.
Qed.

Lemma dyadic_not_infinity (x : spec_float) (a : Z * Z) :
  Float.dyadic x = Some a -> Float.is_infinity x = false.
Proof. destruct x; simpl; intros; try discriminate; reflexivity. Qed.

Lemma half_mantissa (sx : bool) (p : positive) :
  Z.pos p < 2 ^ 53 ->
  exists a,
    Float.dyadic (Float.div (S754_finite sx p 0) (S754_finite false 2 0)) = Some a
    /\ Float.trunc_dyadic a = cond_Zopp sx (Z.pos p / 2).
Proof.
  intros Hp.
  pose proof (Zdigits2_le (Z.pos p) 53 ltac:(lia) ltac:(lia)) as Hd.
  change (Zdigits2 (Z.pos p)) with (Z.pos (digits2_pos p)) in Hd.
  unfold Float.div, SFdiv. change Float.prec with 53. change Float.emax with 1024.
  rewrite (div_core_half p Hd).
  set (d := Z.pos (digits2_pos p)) in *.
  assert (Hd1 : 1 <= d) by (unfold d; lia).
  set (M := Z.pos p * 2 ^ (54 - d)).
  assert (HM : 0 < M) by (unfold M; apply Z.mul_pos_pos; [lia|apply Z.pow_pos_nonneg; lia]).
  assert (HdM : Zdigits2 M = 54).
  { unfold M. rewrite Zdigits2_shiftl by lia.
    change (Zdigits2 (Z.pos p)) with d. lia. }
  replace (xorb sx false) with sx by (destruct sx; reflexivity).
  destruct (round_aux_exact sx M (d - 55) 53 HM) as (a & Ha & Hsign & Hval & Hexp).
  { rewrite HdM, fexp_eq. lia. }
  { rewrite HdM. lia. }
  { lia. }
  rewrite HdM, fexp_eq in Hval.
  replace (Z.max (54 + (d - 55) - 53) (-1074) - (d - 55)) with 1 in Hval by lia.
  assert (Hmod : M mod 2 ^ 1 = 0).
  { unfold M. replace (54 - d) with (53 - d + 1) by lia.
    rewrite Z.pow_add_r, Z.mul_assoc by lia. apply Z.mod_mul. lia. }
  destruct (rne_shift_cases M 1 ltac:(lia)) as [_ Hrne]. rewrite (Hrne Hmod) in Hval.
  assert (HMdiv : M / 2 ^ 1 * 2 ^ 1 = M).
  { pose proof (Z.div_mod M (2 ^ 1) ltac:(lia)). lia. }
  rewrite HMdiv in Hval.
  assert (Hne : a.1 <> 0).
  { intros E. rewrite E in Hval. simpl in Hval. lia. }
  specialize (Hexp Hne).
  exists a. split; [exact Ha|].
  destruct a as [a1 a2]. simpl in *. rewrite Hsign.
  rewrite trunc_signed by lia. f_equal.
  rewrite (dyadic_floor_scaled (Z.abs a1, a2) (d - 55)) by (simpl; lia).
  simpl. rewrite Hval. unfold M.
  replace (- (d - 55)) with (1 + (54 - d)) by lia.
  rewrite Z.pow_add_r by lia. change (2 ^ 1) with 2.
  rewrite Z.div_mul_cancel_r; [reflexivity|lia|].
  pose proof (Z.pow_pos_nonneg 2 (54 - d) ltac:(lia) ltac:(lia)). lia.
Qed.

(** [int(r / 2)] of an int below [2^53] in magnitude is [r] halved, rounded
    toward zero. *)
Lemma half_int (r : Z) :
  Z.abs r < 2 ^ 53 ->
  (q ← py_truediv (PyInt r) (PyInt 2); py_int q) = Returned (Z.quot r 2).
Proof.
  intros Hr. unfold py_truediv. change (2 =? 0) with false. cbv iota zeta.
  destruct r as [|p|p].
  - reflexivity.
  - destruct (half_mantissa false p ltac:(lia)) as (a & Ha & Ht).
    unfold Float.div_Z, Float.exact_Z.
    rewrite (dyadic_not_infinity _ _ Ha), outcome_bind_ret, (py_int_dyadic _ _ Ha), Ht.
    simpl cond_Zopp. rewrite Z.quot_div_nonneg by lia. reflexivity.
  - destruct (half_mantissa true p ltac:(lia)) as (a & Ha & Ht).
    unfold Float.div_Z, Float.exact_Z.
    rewrite (dyadic_not_infinity _ _ Ha), outcome_bind_ret, (py_int_dyadic _ _ Ha), Ht.
    simpl cond_Zopp. change (Z.neg p) with (- Z.pos p).
    rewrite Z.quot_opp_l by lia. rewrite Z.quot_div_nonneg by lia. reflexivity.
Qed.

(** ** Signal plans *)

Lemma timeline_loop_ok (x : Intersection) (todo : list string) :
  forall (start : Z) (acc : list TimelineEntry),
    (forall d, d ∈ todo -> is_Some (signals x !! d)) ->
    exists entries,
      timeline_loop x todo start acc = Returned (acc ++ entries)
      /\ length entries = length todo
      /\ forall k d, todo !! k = Some d ->
           exists s, signals x !! d = Some s
                     /\ entries !! k
                        = Some (green_phase d (start + elapsed x (take k todo)) s).
Proof.
  induction todo as [|d0 todo IH]; intros start acc Hall.
  - exists []. split; [simpl; rewrite app_nil_r; reflexivity|].
    split; [reflexivity|]. intros k d Hk. destruct k; discriminate.
  - destruct (Hall d0 ltac:(left)) as [s0 Hs0].
    destruct (IH (start + (green_time s0 + yellow_time s0 + all_red_time s0))
                (acc ++ [green_phase d0 start s0]))
      as (entries & Hrun & Hlen & Hent).
    { intros d Hd. apply Hall. right. exact Hd. }
    exists (green_phase d0 start s0 :: entries). split; [|split].
    + simpl. unfold signal_of. rewrite Hs0, outcome_bind_ret.
      fold (green_phase d0 start s0). rewrite Hrun, <- app_assoc. reflexivity.
    + simpl. rewrite Hlen. reflexivity.
    + intros [|k] d Hk; simpl in Hk.
      * injection Hk as <-. exists s0. split; [exact Hs0|]. simpl.
        rewrite Z.add_0_r. reflexivity.
      * destruct (Hent k d Hk) as (s & Hs & He). exists s. split; [exact Hs|].
        simpl. rewrite He, Hs0. simpl. unfold phase_span. do 2 f_equal. lia.
Qed.

Lemma timeline_loop_missing (x : Intersection) (pre : list string) (d : string)
    (post : list string) :
  forall (start : Z) (acc : list TimelineEntry),
    (forall d', d' ∈ pre -> is_Some (signals x !! d')) ->
    signals x !! d = None ->
    timeline_loop x (pre ++ d :: post) start acc = Raised (KeyError d).
Proof.
  induction pre as [|d0 pre IH]; intros start acc Hall Hd; simpl.
  - unfold signal_of. rewrite Hd. reflexivity.
  - destruct (Hall d0 ltac:(left)) as [s0 Hs0].
    unfold signal_of at 1. rewrite Hs0, outcome_bind_ret.
    apply IH; [|exact Hd]. intros d' Hd'. apply Hall. right. exact Hd'.
Qed.

Lemma wait_loop_ok (x : Intersection) (todo : list string) :
  forall (acc : list (string * Z)),
    (forall d, d ∈ todo ->
       exists s, signals x !! d = Some s /\ Z.abs (red_time s) < 2 ^ 53) ->
    exists waits,
      wait_loop x todo acc = Returned waits
      /\ (forall d s, d ∈ todo -> signals x !! d = Some s ->
            dict_get d waits = Some (Z.quot (red_time s) 2))
      /\ (forall d, d ∉ todo -> dict_get d waits = dict_get d acc).
Proof.
  induction todo as [|d0 todo IH]; intros acc Hall.
  - exists acc. split; [reflexivity|]. split; [|reflexivity].
    intros d s Hd. inversion Hd.
  - destruct (Hall d0 ltac:(left)) as (s0 & Hs0 & Hr0).
    destruct (IH (dict_set d0 (Z.quot (red_time s0) 2) acc)) as (waits & Hrun & Hin & Hout).
    { intros d Hd. apply Hall. right. exact Hd. }
    exists waits. split; [|split].
    + simpl. unfold signal_of. rewrite Hs0, outcome_bind_ret.
      pose proof (half_int (red_time s0) Hr0) as Hhalf.
      destruct (py_truediv (PyInt (red_time s0)) (PyInt 2)) as [q|]; [|discriminate].
      rewrite outcome_bind_ret in Hhalf. rewrite outcome_bind_ret, Hhalf, outcome_bind_ret.
      exact Hrun.
    + intros d s Hd Hs. destruct (decide (d ∈ todo)) as [Hd'|Hd'].
      * apply Hin; assumption.
      * apply elem_of_cons in Hd as [->|Hd]; [|contradiction].
        rewrite (Hout d0 Hd'), dict_get_set_eq. congruence.
    + intros d Hd. apply not_elem_of_cons in Hd as [Hne Hd].
      rewrite (Hout d Hd). apply dict_get_set_ne. congruence.
Qed.

Lemma timeline_loop_inv (x : Intersection) (todo : list string) :
  forall (start : Z) (acc r : list TimelineEntry),
    timeline_loop x todo start acc = Returned r ->
    forall d, d ∈ todo -> is_Some (signals x !! d).
Proof.
  induction todo as [|d0 todo IH]; intros start acc r Hrun d Hd; [inversion Hd|].
  simpl in Hrun. unfold signal_of in Hrun.
  destruct (signals x !! d0) as [s0|] eqn:Hs0; [|discriminate].
  rewrite outcome_bind_ret in Hrun.
  apply elem_of_cons in Hd as [->|Hd]; [rewrite Hs0; eauto|].
  exact (IH _ _ _ Hrun d Hd).
Qed.

Lemma wait_loop_inv (x : Intersection) (todo : list string) :
  forall (acc waits : list (string * Z)),
    wait_loop x todo acc = Returned waits ->
    (forall d, d ∈ todo ->
       exists s v, signals x !! d = Some s /\ estimated_wait s = Returned v
                   /\ dict_get d waits = Some v)
    /\ (forall d, d ∉ todo -> dict_get d waits = dict_get d acc).
Proof.
  induction todo as [|d0 todo IH]; intros acc waits Hrun.
  - simpl in Hrun. injection Hrun as <-. split; [|reflexivity].
    intros d Hd. inversion Hd.
  - simpl in Hrun. unfold signal_of in Hrun.
    destruct (signals x !! d0) as [s0|] eqn:Hs0; [|discriminate].
    rewrite outcome_bind_ret in Hrun.
    assert (Hassoc :
              (q ← py_truediv (PyInt (red_time s0)) (PyInt 2);
               wait ← py_int q; wait_loop x todo (dict_set d0 wait acc))
              = (v ← estimated_wait s0; wait_loop x todo (dict_set d0 v acc))).
    { unfold estimated_wait.
      destruct (py_truediv (PyInt (red_time s0)) (PyInt 2)); reflexivity. }
    rewrite Hassoc in Hrun.
    destruct (estimated_wait s0) as [v0|] eqn:Hv0; [|discriminate].
    rewrite outcome_bind_ret in Hrun.
    destruct (IH _ _ Hrun) as [Hin Hout]. split.
    + intros d Hd. destruct (decide (d ∈ todo)) as [Hd'|Hd']; [exact (Hin d Hd')|].
      apply elem_of_cons in Hd as [->|Hd]; [|contradiction].
      exists s0, v0. split; [exact Hs0|]. split; [exact Hv0|].
      rewrite (Hout d0 Hd'). apply dict_get_set_eq.
    + intros d Hd. apply not_elem_of_cons in Hd as [Hne Hd].
      rewrite (Hout d Hd). apply dict_get_set_ne. congruence.
Qed.

Lemma generate_signal_plan_unfold (id : string) (st : TrafficSignalCoordinator) :
  generate_signal_plan id st
  = match intersections st !! id with
    | None => (Returned (SpError "Intersection not found"), st)
    | Some x =>
        match timeline_loop x directions 0 [] with
        | Raised e => (Raised e, st)
        | Returned timeline =>
            match wait_loop x directions [] with
            | Raised e => (Raised e, st)
            | Returned waits =>
                (Returned (SpPlan
                   {| sp_intersection_id := id; sp_name := name x;
                      sp_cycle_timeline := timeline;
                      sp_total_cycle_time := cycle_time_sum (signals x) / 4;
                      sp_adaptive_offsets := adaptive_offset <$> signals x;
                      sp_estimated_wait_times_seconds := waits;
                      sp_priority_level := priority_level x |}), st)
            end
        end
    end.
Proof.
  unfold generate_signal_plan, mbind, M_bind, get, lift.
  destruct (intersections st !! id) as [x|]; [|reflexivity].
  destruct (timeline_loop x directions 0 []); [|reflexivity].
  destruct (wait_loop x directions []); reflexivity.
Qed.

(** X7: [generate_signal_plan] reads the coordinator and never changes it.
    An unknown id gives the error 'Intersection not found'; a known
    intersection that lacks the signal of a direction makes the call raise
    [KeyError] for the first such direction in the order north, south, east,
    west; a known intersection with its four signals (red times below
    [2^53] in magnitude) gives a plan with the id, name and priority of the
    intersection. *)
Theorem generate_signal_plan_outcomes (st : TrafficSignalCoordinator) (id : string) :
  after (generate_signal_plan id) st = st
  /\ (intersections st !! id = None ->
      result (generate_signal_plan id) st = Returned (SpError "Intersection not found"))
  /\ (forall x pre d post,
        intersections st !! id = Some x ->
        directions = pre ++ d :: post ->
        (forall d', d' ∈ pre -> is_Some (signals x !! d')) ->
        signals x !! d = None ->
        result (generate_signal_plan id) st = Raised (KeyError d))
  /\ (forall x,
        intersections st !! id = Some x ->
        four_signals x ->
        (forall d s, d ∈ directions -> signals x !! d = Some s ->
                     Z.abs (red_time s) < 2 ^ 53) ->
        exists plan,
          result (generate_signal_plan id) st = Returned (SpPlan plan)
          /\ sp_intersection_id plan = id
          /\ sp_name plan = name x
          /\ sp_priority_level plan = priority_level x).
Proof.
  unfold after, result. rewrite generate_signal_plan_unfold.
  split; [|split; [|split]].
  - destruct (intersections st !! id) as [x|]; [|reflexivity].
    destruct (timeline_loop x directions 0 []); [|reflexivity].
    destruct (wait_loop x directions []); reflexivity.
  - intros ->. reflexivity.
  - intros x pre d post -> Hdirs Hpre Hd. rewrite Hdirs.
    rewrite (timeline_loop_missing x pre d post 0 [] Hpre Hd). reflexivity.
  - intros x -> Hfour Hred.
    destruct (timeline_loop_ok x directions 0 [] Hfour) as (entries & -> & _).
    destruct (wait_loop_ok x directions []) as (waits & -> & _).
    + intros d Hd. destruct (Hfour d Hd) as [s Hs]. exists s. split; [exact Hs|].
      exact (Hred d s Hd Hs).
    + eexists. split; [reflexivity|]. repeat split.
Qed.

Lemma generate_signal_plan_outcomes_witness :
  exists plan,
    result (generate_signal_plan "INT_001") fresh = Returned (SpPlan plan)
    /\ sp_intersection_id plan = "INT_001"%string
    /\ sp_name plan = "MG Road - Brigade Road"%string
    /\ sp_priority_level plan = "normal"%string.
Proof.
  destruct (intersections fresh !! "INT_001"%string) as [x|] eqn:Hx;
    [|vm_compute in Hx; discriminate].
  assert (Ename : name x = "MG Road - Brigade Road"%string
                  /\ priority_level x = "normal"%string)
    by (vm_compute in Hx; injection Hx as <-; split; reflexivity).
  destruct Ename as [<- <-].
  apply (proj2 (proj2 (proj2 (generate_signal_plan_outcomes fresh "INT_001"))) x Hx);
    vm_compute in Hx; injection Hx as <-.
  - intros d Hd.
    destruct (directions_cases d Hd) as [ -> | [ -> | [ -> | -> ] ] ];
      vm_compute; eauto.
  - intros d s Hd Hs.
    destruct (directions_cases d Hd) as [ -> | [ -> | [ -> | -> ] ] ];
      vm_compute in Hs; injection Hs as <-; vm_compute; reflexivity.
Defined.

(** X8: the plan that [generate_signal_plan] returns for an intersection
    lists one GREEN phase per direction, in the order north, south, east,
    west; each lasts the stored [green_time] of its signal and starts when
    the green, yellow and all-red times of the directions before it have
    elapsed, the first at 0.  The wait time of a direction is its stored
    [red_time] halved (rounded toward zero; red times below [2^53] in
    magnitude), and the adaptive offsets are those of the stored signals. *)
Theorem generate_signal_plan_timeline (st : TrafficSignalCoordinator) (id : string)
    (x : Intersection) (plan : SignalPlan) :
  intersections st !! id = Some x ->
  result (generate_signal_plan id) st = Returned (SpPlan plan) ->
  length (sp_cycle_timeline plan) = 4%nat
  /\ (forall k d, directions !! k = Some d ->
        exists s, signals x !! d = Some s
                  /\ sp_cycle_timeline plan !! k
                     = Some (green_phase d (elapsed x (take k directions)) s))
  /\ (forall d s, d ∈ directions -> signals x !! d = Some s ->
        Z.abs (red_time s) < 2 ^ 53 ->
        dict_get d (sp_estimated_wait_times_seconds plan) = Some (Z.quot (red_time s) 2))
  /\ (forall d, sp_adaptive_offsets plan !! d = adaptive_offset <$> signals x !! d).
Proof.
  intros Hx Hplan. unfold result in Hplan.
  rewrite generate_signal_plan_unfold, Hx in Hplan.
  destruct (timeline_loop x directions 0 []) as [timeline|] eqn:Htl; [|discriminate].
  destruct (wait_loop x directions []) as [waits|] eqn:Hw; [|discriminate].
  simpl in Hplan. injection Hplan as <-. simpl.
  pose proof (timeline_loop_inv x directions 0 [] timeline Htl) as Hfour.
  destruct (timeline_loop_ok x directions 0 [] Hfour) as (entries & Hrun & Hlen & Hent).
  rewrite Htl in Hrun. injection Hrun as ->. simpl app.
  destruct (wait_loop_inv x directions [] waits Hw) as [Hin _].
  split; [exact Hlen|]. split; [|split].
  - intros k d Hk. destruct (Hent k d Hk) as (s & Hs & He).
    exists s. split; [exact Hs|]. rewrite He, Z.add_0_l. reflexivity.
  - intros d s Hd Hs Hr. destruct (Hin d Hd) as (s' & v & Hs' & Hv & Hget).
    rewrite Hs in Hs'. injection Hs' as <-.
    unfold estimated_wait in Hv. rewrite (half_int (red_time s) Hr) in Hv.
    injection Hv as <-. exact Hget.
  - intros d. apply lookup_fmap.
Qed.

Lemma generate_signal_plan_timeline_witness :
  exists plan,
    result (generate_signal_plan "INT_001") fresh = Returned (SpPlan plan)
    /\ length (sp_cycle_timeline plan) = 4%nat.
Proof.
  destruct (intersections fresh !! "INT_001"%string) as [x|] eqn:Hx;
    [|vm_compute in Hx; discriminate].
  destruct (result (generate_signal_plan "INT_001") fresh) as [[e|plan]|e] eqn:Hr;
    [vm_compute in Hr; discriminate| |vm_compute in Hr; discriminate].
  exists plan. split; [reflexivity|].
  exact (proj1 (generate_signal_plan_timeline fresh "INT_001" x plan Hx Hr)).
Defined.

(** X9: the offset of a green wave can be read back: for a known
    intersection of the corridor (at its last position in the list), the
    signal plan generated after the wave shows, for every direction that has
    a signal, the offset that the green wave plan reports for the
    intersection and that [coordination_offsets] records (two or more ids,
    fewer than [2^62]; a target speed that is a positive finite number of
    at least [2^-900]). *)
Theorem signal_plan_shows_green_wave (ids : list string) (road : string)
    (speed : pynum) (st : TrafficSignalCoordinator) (i : nat) (id : string)
    (x : Intersection) :
  (2 <= length ids)%nat -> Z.of_nat (length ids) < corridor_limit ->
  speed_in_range speed = true ->
  ids !! i = Some id -> intersections st !! id = Some x ->
  (forall j, (i < j)%nat -> ids !! j <> Some id) ->
  exists wave st' o,
    coordinate_green_wave ids road speed st = (Returned (GwPlan wave), st')
    /\ dict_get id (gw_offsets_seconds wave) = Some o
    /\ coordination_offsets st' !! id = Some o
    /\ forall plan,
         result (generate_signal_plan id) st' = Returned (SpPlan plan) ->
         forall d, is_Some (signals x !! d) -> sp_adaptive_offsets plan !! d = Some o.
Proof.
  intros Hge Hlim Hs Hi Hx Hlast.
  destruct (coordinate_green_wave_run ids road speed st Hge Hlim Hs)
    as (t & off & offsets & st' & total & _ & _ & _ & _ & _ & Hw & Hrun).
  destruct Hw as (_ & _ & _ & Hw). specialize (Hw id).
  rewrite Hx, (last_index_position id ids 0 i Hi Hlast) in Hw.
  destruct Hw as (Hx' & Hco & Hget).
  eexists _, st', (off (0 + i)%nat). split; [exact Hrun|]. simpl.
  split; [exact Hget|]. split; [exact Hco|].
  intros plan Hplan d [s Hd]. unfold result in Hplan.
  rewrite generate_signal_plan_unfold, Hx' in Hplan.
  destruct (timeline_loop _ directions 0 []); [|discriminate].
  destruct (wait_loop _ directions []); [|discriminate].
  simpl in Hplan. injection Hplan as <-. simpl.
  rewrite !lookup_fmap, Hd. reflexivity.
Qed.

Lemma signal_plan_shows_green_wave_witness :
  exists wave st' o,
    coordinate_green_wave ["INT_001"; "INT_002"; "INT_003"]%string "corridor"
      (PyFloat f_30_0) fresh = (Returned (GwPlan wave), st')
    /\ dict_get "INT_003" (gw_offsets_seconds wave) = Some o
    /\ coordination_offsets st' !! "INT_003"%string = Some o.
Proof.
  destruct (intersections fresh !! "INT_003"%string) as [x|] eqn:Hx;
    [|vm_compute in Hx; discriminate].
  destruct (signal_plan_shows_green_wave ["INT_001"; "INT_002"; "INT_003"]%string
              "corridor" (PyFloat f_30_0) fresh 2 "INT_003" x)
    as (wave & st' & o & Hrun & Hget & Hco & _).
  - simpl. lia.
  - vm_compute. reflexivity.
  - vm_compute. reflexivity.
  - reflexivity.
  - exact Hx.
  - intros [|[|[|j]]] Hj; try lia; discriminate.
  - exists wave, st', o. split; [exact Hrun|]. split; [exact Hget|exact Hco].
Defined.

(** ** Conflict detection *)

Lemma overflow_limit : py_mul (PyInt 100) (PyFloat f_1_5) = Returned (PyFloat f_150_0).
Proof. vm_compute. reflexivity. Qed.

Lemma above_limit (q : Z) : py_gt (PyInt q) (PyFloat f_150_0) = (150 <? q).
Proof.
  assert (Hc : Float.dyadic_compare (5277655813324800, -45) (q, 0) = (150 ?= q)).
  { unfold Float.dyadic_compare. simpl fst. simpl snd.
    change (Z.min (-45) 0) with (-45). change (-45 - -45) with 0.
    change (0 - -45) with 45. change (2 ^ 0) with 1. change (2 ^ 45) with 35184372088832.
    destruct (Z.compare_spec 150 q) as [H|H|H].
    - apply Z.compare_eq_iff. lia.
    - apply Z.compare_lt_iff. lia.
    - apply Z.compare_gt_iff. lia. }
  unfold py_gt, py_lt, py_exact, Float.ltb, Float.compare, f_150_0.
  change (Float.dyadic (S754_finite false 5277655813324800 (-45)))
    with (Some (5277655813324800, -45)).
  rewrite dyadic_exact_Z. cbv iota. rewrite Hc.
  unfold Z.ltb. destruct q; destruct (150 ?= _); reflexivity.
Qed.

Lemma queue_length_of (x : Intersection) (d : string) :
  d ∈ directions -> queue_length d x = Returned (queue_of d x).
Proof.
  intros Hd. destruct (directions_cases d Hd) as [ -> | [ -> | [ -> | -> ] ] ];
    reflexivity.
Qed.

Lemma overflow_loop_cons (x : Intersection) (cap : Z) (d : string)
    (todo : list string) (acc : list Conflict) :
  overflow_loop x cap (d :: todo) acc
  = (queue ← queue_length d x;
     if cap <? queue then
       limit ← py_mul (PyInt cap) (PyFloat f_1_5);
       overflow_loop x cap todo
         (acc ++ [queue_overflow d (if py_gt (PyInt queue) limit then "critical" else "high")
                    queue cap "Increase green time for this direction"])
     else overflow_loop x cap todo acc).
Proof. reflexivity. Qed.

Lemma overflow_loop_findings (x : Intersection) (todo : list string) :
  forall acc,
    (forall d, d ∈ todo -> d ∈ directions) ->
    overflow_loop x 100 todo acc = Returned (acc ++ omap (overflow_finding x) todo).
Proof.
  induction todo as [|d todo IH]; intros acc Hsub.
  - simpl. rewrite app_nil_r. reflexivity.
  - rewrite overflow_loop_cons, (queue_length_of x d) by (apply Hsub; left).
    rewrite outcome_bind_ret. simpl omap. unfold overflow_finding at 1. cbv zeta.
    destruct (100 <? queue_of d x).
    + rewrite overflow_limit, outcome_bind_ret, above_limit.
      rewrite IH by (intros d' Hd'; apply Hsub; right; exact Hd').
      rewrite <- app_assoc. reflexivity.
    + apply IH. intros d' Hd'. apply Hsub. right. exact Hd'.
Qed.

Lemma detect_conflicts_findings_of (st : TrafficSignalCoordinator) (id : string) :
  detect_conflicts id st
  = (Returned (match intersections st !! id with
               | Some x => findings_of x
               | None => []
               end), st).
Proof.
  unfold detect_conflicts, mbind, M_bind, get, lift.
  destruct (intersections st !! id) as [x|]; [|reflexivity].
  rewrite (overflow_loop_findings x directions [] (fun _ H => H)).
  unfold findings_of, opposing_blocked. simpl app at 1.
  destruct (_ || _), (py_gt _ _), (200 <? _); simpl;
    rewrite <- ?app_assoc, ?app_nil_r; reflexivity.
Qed.

Lemma in_overflow_findings (x : Intersection) (c : Conflict) :
  c ∈ omap (overflow_finding x) directions
  <-> exists d, d ∈ directions /\ 100 < queue_of d x
                /\ c = queue_overflow d (if 150 <? queue_of d x then "critical" else "high")
                         (queue_of d x) 100 "Increase green time for this direction".
Proof.
  rewrite list_elem_of_omap. unfold overflow_finding. split.
  - intros (d & Hd & Hf). exists d. split; [exact Hd|].
    destruct (Z.ltb_spec 100 (queue_of d x)); [|discriminate].
    injection Hf as <-. split; [assumption|reflexivity].
  - intros (d & Hd & Hq & ->). exists d. split; [exact Hd|].
    destruct (Z.ltb_spec 100 (queue_of d x)); [reflexivity|lia].
Qed.

Lemma overflow_findings_length (x : Intersection) :
  (length (omap (overflow_finding x) directions) <= 4)%nat.
Proof.
  unfold directions. simpl.
  repeat match goal with
         | |- context [overflow_finding x ?d] => destruct (overflow_finding x d)
         end; simpl; lia.
Qed.

Lemma overflow_findings_nil (x : Intersection) :
  omap (overflow_finding x) directions = []
  <-> forall d, d ∈ directions -> queue_of d x <= 100.
Proof.
  split.
  - intros Hnil d Hd. destruct (Z.le_gt_cases (queue_of d x) 100) as [H|H]; [exact H|].
    exfalso.
    assert (Hin : queue_overflow d (if 150 <? queue_of d x then "critical" else "high")
                    (queue_of d x) 100 "Increase green time for this direction"
                  ∈ omap (overflow_finding x) directions)
      by (apply in_overflow_findings; exists d; repeat split; [assumption|lia]).
    rewrite Hnil in Hin. inversion Hin.
  - intros Hall. destruct (omap (overflow_finding x) directions) as [|c l] eqn:E;
      [reflexivity|].
    assert (Hin : c ∈ omap (overflow_finding x) directions) by (rewrite E; left).
    apply in_overflow_findings in Hin as (d & Hd & Hq & _).
    specialize (Hall d Hd). lia.
Qed.

(** X10: for a known intersection [detect_conflicts] returns, without ever
    raising and without changing the coordinator, at most seven findings:
    - a [queue_overflow] for exactly the directions whose queue exceeds 100,
      with severity critical when the queue exceeds 150 and high otherwise;
    - [opposing_flows_blocked] exactly when north and south, or east and
      west, both exceed 20;
    - [high_congestion] exactly when the congestion exceeds 70;
    - [air_quality_emergency] exactly when the AQI exceeds 200;
    and no finding exactly when none of these holds. *)
Theorem detect_conflicts_findings (st : TrafficSignalCoordinator) (id : string)
    (x : Intersection) :
  intersections st !! id = Some x ->
  exists l,
    detect_conflicts id st = (Returned l, st)
    /\ (length l <= 7)%nat
    /\ (forall c, conflict_type c = "queue_overflow"%string ->
          (c ∈ l <-> exists d, d ∈ directions /\ 100 < queue_of d x
                               /\ c = queue_overflow d
                                        (if 150 <? queue_of d x then "critical" else "high")
                                        (queue_of d x) 100
                                        "Increase green time for this direction"))
    /\ (forall c, conflict_type c = "opposing_flows_blocked"%string ->
          (c ∈ l <-> opposing_blocked x = true
                     /\ c = opposing_flows_blocked "high"
                              "Distribute green time between opposing directions"))
    /\ (forall c, conflict_type c = "high_congestion"%string ->
          (c ∈ l <-> py_gt (avg_congestion x) (PyInt 70) = true
                     /\ c = high_congestion "high" (avg_congestion x)
                              "Implement emission priority strategy"))
    /\ (forall c, conflict_type c = "air_quality_emergency"%string ->
          (c ∈ l <-> 200 < local_aqi x
                     /\ c = air_quality_emergency "critical" (local_aqi x)
                              "Switch to emission priority mode - maximize green time"))
    /\ (l = [] <-> (forall d, d ∈ directions -> queue_of d x <= 100)
                   /\ opposing_blocked x = false
                   /\ py_gt (avg_congestion x) (PyInt 70) = false
                   /\ local_aqi x <= 200).
Proof.
  intros Hx. exists (findings_of x). rewrite detect_conflicts_findings_of, Hx.
  split; [reflexivity|]. unfold findings_of.
  pose proof (overflow_findings_length x) as Hlen.
  pose proof (overflow_findings_nil x) as Hnil.
  assert (Hov : forall c, c ∈ omap (overflow_finding x) directions ->
                          conflict_type c = "queue_overflow"%string).
  { intros c Hc. apply in_overflow_findings in Hc as (d & _ & _ & ->). reflexivity. }
  split; [|split; [|split; [|split; [|split]]]].
  - set (O := omap (overflow_finding x) directions) in *. rewrite !length_app.
    destruct (opposing_blocked x), (py_gt _ _), (200 <? _); simpl; lia.
  - intros c Hc. rewrite <- in_overflow_findings, !elem_of_app.
    split; [|tauto].
    intros [H|[H|[H|H]]]; [exact H| | |]; exfalso;
      [destruct (opposing_blocked x)|destruct (py_gt _ _)|destruct (200 <? _)];
      try (inversion H; fail);
      apply list_elem_of_singleton in H; subst c; discriminate.
  - intros c Hc. rewrite !elem_of_app.
    destruct (opposing_blocked x); split.
    + intros [H|[H|[H|H]]].
      * apply Hov in H. congruence.
      * apply list_elem_of_singleton in H. split; [reflexivity|exact H].
      * destruct (py_gt _ _); [apply list_elem_of_singleton in H; subst c|inversion H];
          discriminate.
      * destruct (200 <? _); [apply list_elem_of_singleton in H; subst c|inversion H];
          discriminate.
    + intros [_ ->]. right. left. left.
    + intros [H|[H|[H|H]]].
      * apply Hov in H. congruence.
      * inversion H.
      * destruct (py_gt _ _); [apply list_elem_of_singleton in H; subst c|inversion H];
          discriminate.
      * destruct (200 <? _); [apply list_elem_of_singleton in H; subst c|inversion H];
          discriminate.
    + intros [? _]. discriminate.
  - intros c Hc. rewrite !elem_of_app.
    destruct (py_gt (avg_congestion x) (PyInt 70)); split.
    + intros [H|[H|[H|H]]].
      * apply Hov in H. congruence.
      * destruct (opposing_blocked x);
          [apply list_elem_of_singleton in H; subst c|inversion H]; discriminate.
      * apply list_elem_of_singleton in H. split; [reflexivity|exact H].
      * destruct (200 <? _); [apply list_elem_of_singleton in H; subst c|inversion H];
          discriminate.
    + intros [_ ->]. right. right. left. left.
    + intros [H|[H|[H|H]]].
      * apply Hov in H. congruence.
      * destruct (opposing_blocked x);
          [apply list_elem_of_singleton in H; subst c|inversion H]; discriminate.
      * inversion H.
      * destruct (200 <? _); [apply list_elem_of_singleton in H; subst c|inversion H];
          discriminate.
    + intros [? _]. discriminate.
  - intros c Hc. rewrite !elem_of_app.
    destruct (Z.ltb_spec 200 (local_aqi x)) as [Haqi|Haqi]; split.
    + intros [H|[H|[H|H]]].
      * apply Hov in H. congruence.
      * destruct (opposing_blocked x);
          [apply list_elem_of_singleton in H; subst c|inversion H]; discriminate.
      * destruct (py_gt _ _); [apply list_elem_of_singleton in H; subst c|inversion H];
          discriminate.
      * apply list_elem_of_singleton in H. split; [assumption|exact H].
    + intros [_ ->]. right. right. right. left.
    + intros [H|[H|[H|H]]].
      * apply Hov in H. congruence.
      * destruct (opposing_blocked x);
          [apply list_elem_of_singleton in H; subst c|inversion H]; discriminate.
      * destruct (py_gt _ _); [apply list_elem_of_singleton in H; subst c|inversion H];
          discriminate.
      * inversion H.
    + intros [? _]. lia.
  - destruct (opposing_blocked x), (py_gt (avg_congestion x) (PyInt 70)),
      (Z.ltb_spec 200 (local_aqi x)) as [Haqi|Haqi]; split;
      try (intros H; apply app_eq_nil in H as [_ H]; simpl in H; discriminate);
      try (intros H; apply app_eq_nil in H as [_ H];
           destruct (omap _ _); discriminate);
      try (intros (_ & ? & ? & ?); try discriminate; lia).
    + intros H. rewrite !app_nil_r in H. pose proof (proj1 Hnil H) as Hq.
      repeat split; assumption || lia.
    + intros (H & _). rewrite !app_nil_r. exact (proj2 Hnil H).
Qed.

Lemma detect_conflicts_findings_witness :
  exists l,
    detect_conflicts "INT_001"
      (after (update_intersection_data "INT_001" (queues_only 120 0 0 0) 100) fresh)
    = (Returned l,
       after (update_intersection_data "INT_001" (queues_only 120 0 0 0) 100) fresh)
    /\ (length l <= 7)%nat.
Proof.
  destruct (intersections
              (after (update_intersection_data "INT_001" (queues_only 120 0 0 0) 100) fresh)
              !! "INT_001"%string) as [x|] eqn:Hx; [|vm_compute in Hx; discriminate].
  destruct (detect_conflicts_findings _ _ x Hx) as (l & Hrun & Hlen & _).
  exists l. split; [exact Hrun|exact Hlen].
Defined.

(** ** Findings and priority *)

Lemma update_known (st : TrafficSignalCoordinator) (id : string) (td : TrafficData)
    (aqi : Z) (x : Intersection) :
  intersections st !! id = Some x ->
  let north := default 0 (default ∅ (td_queues td) !! "north") in
  let south := default 0 (default ∅ (td_queues td) !! "south") in
  let east := default 0 (default ∅ (td_queues td) !! "east") in
  let west := default 0 (default ∅ (td_queues td) !! "west") in
  let congestion := default (PyFloat f_50_0) (td_congestion td) in
  intersections (after (update_intersection_data id td aqi) st) !! id
  = Some (store_readings north south east west
            (default (PyFloat f_30_0) (td_avg_speed td)) congestion aqi
            (_determine_priority congestion aqi
               (Z.max (Z.max (Z.max north south) east) west)) x).
Proof.
  intros Hx. cbv zeta.
  unfold after, update_intersection_data, mbind, M_bind, get. simpl.
  rewrite Hx. simpl. apply lookup_insert_eq.
Qed.

(** X11: after an update, every finding of [detect_conflicts] other than
    [opposing_flows_blocked] comes with the priority 'critical': a queue over
    100, a congestion over 70 or an AQI over 200 each put the intersection in
    the top tier.  ([opposing_flows_blocked] does not: two opposing queues of
    21 leave the priority as the other readings make it.) *)
Theorem findings_imply_critical (st : TrafficSignalCoordinator) (id : string)
    (td : TrafficData) (aqi : Z) (x : Intersection) (l : list Conflict) (c : Conflict) :
  intersections st !! id = Some x ->
  let st' := after (update_intersection_data id td aqi) st in
  result (detect_conflicts id) st' = Returned l ->
  c ∈ l ->
  conflict_type c <> "opposing_flows_blocked"%string ->
  priority_level <$> (intersections st' !! id) = Some "critical"%string.
Proof.
  intros Hx st' Hl Hc Hty. subst st'.
  pose proof (update_known st id td aqi x Hx) as Hx'. cbv zeta in Hx'.
  unfold result in Hl. rewrite detect_conflicts_findings_of, Hx' in Hl.
  simpl in Hl. injection Hl as <-. rewrite Hx'. simpl. f_equal.
  set (north := default 0 (default ∅ (td_queues td) !! "north"%string)) in *.
  set (south := default 0 (default ∅ (td_queues td) !! "south"%string)) in *.
  set (east := default 0 (default ∅ (td_queues td) !! "east"%string)) in *.
  set (west := default 0 (default ∅ (td_queues td) !! "west"%string)) in *.
  set (congestion := default (PyFloat f_50_0) (td_congestion td)) in *.
  unfold findings_of in Hc. simpl avg_congestion in Hc. simpl local_aqi in Hc.
  rewrite !elem_of_app in Hc. unfold _determine_priority.
  destruct Hc as [Hc|[Hc|[Hc|Hc]]].
  - apply in_overflow_findings in Hc as (d & Hd & Hq & _).
    assert (Hmax : 50 < Z.max (Z.max (Z.max north south) east) west).
    { destruct (directions_cases d Hd) as [ -> | [ -> | [ -> | -> ] ] ];
        unfold queue_of in Hq; simpl in Hq; lia. }
    apply Z.ltb_lt in Hmax. rewrite Hmax, !orb_true_r. reflexivity.
  - exfalso. destruct (opposing_blocked _); [|inversion Hc].
    apply list_elem_of_singleton in Hc. subst c. apply Hty. reflexivity.
  - destruct (py_gt congestion (PyInt 70)); [reflexivity|inversion Hc].
  - destruct (Z.ltb_spec 200 aqi) as [Haqi|Haqi]; [|inversion Hc].
    assert (H150 : (150 <? aqi) = true) by (apply Z.ltb_lt; lia).
    rewrite H150, orb_true_r. reflexivity.
Qed.

Lemma findings_imply_critical_witness :
  priority_level <$>
    (intersections
       (after (update_intersection_data "INT_001" (queues_only 120 0 0 0) 100) fresh)
       !! "INT_001"%string)
  = Some "critical"%string.
Proof.
  destruct (intersections fresh !! "INT_001"%string) as [x|] eqn:Hx;
    [|vm_compute in Hx; discriminate].
  apply (findings_imply_critical fresh "INT_001" (queues_only 120 0 0 0) 100 x
           [queue_overflow "north" "high" 120 100 "Increase green time for this direction"]
           (queue_overflow "north" "high" 120 100 "Increase green time for this direction")
           Hx).
  - vm_compute. reflexivity.
  - left.
  - discriminate.
Defined.

Lemma coordinate_green_wave_frame_witness :
  exists s',
    stored_signal
      (after (coordinate_green_wave ["INT_001"; "INT_002"]%string "corridor"
                (PyFloat f_30_0)) fresh) "INT_002" "north" = Some s'
    /\ green_time s' = 50 /\ red_time s' = 60 /\ cycle_time s' = 120.
Proof.
  destruct (stored_signal fresh "INT_002" "north") as [s|] eqn:Hs;
    [|vm_compute in Hs; discriminate].
  destruct (proj2 (proj2 (coordinate_green_wave_frame ["INT_001"; "INT_002"]%string
                            "corridor" (PyFloat f_30_0) fresh))
              "INT_002"%string "north"%string s Hs)
    as (s' & Hs' & Hg & Hr & Hc & _).
  exists s'. split; [exact Hs'|].
  vm_compute in Hs. injection Hs as <-. rewrite Hg, Hr, Hc. repeat split.
Defined.

(** ** Corridor status *)

Lemma corridor_step_unfold (acc : corridor_acc) (id : string)
    (st : TrafficSignalCoordinator) :
  corridor_step acc id st
  = match intersections st !! id with
    | None => (Returned acc, st)
    | Some x =>
        match py_add (ca_total_congestion acc) (avg_congestion x) with
        | Raised e => (Raised e, st)
        | Returned total =>
            (Returned
               {| ca_total_congestion := total;
                  ca_total_aqi := ca_total_aqi acc + local_aqi x;
                  ca_total_conflicts :=
                    ca_total_conflicts acc + is_conflicts (status_entry id x);
                  ca_total_vehicles_queued :=
                    ca_total_vehicles_queued acc + is_queued_vehicles (status_entry id x);
                  ca_intersections_status :=
                    ca_intersections_status acc ++ [status_entry id x] |}, st)
        end
    end.
Proof.
  unfold corridor_step. unfold mbind at 1. unfold M_bind, get.
  destruct (intersections st !! id) as [x|] eqn:Hx; [|reflexivity].
  unfold mbind at 1. unfold M_bind, lift.
  destruct (py_add (ca_total_congestion acc) (avg_congestion x)); [|reflexivity].
  unfold mbind, M_bind. rewrite detect_conflicts_findings_of, Hx. reflexivity.
Qed.

Lemma corridor_loop_state (todo : list string) :
  forall acc st, (corridor_loop todo acc st).2 = st.
Proof.
  induction todo as [|id todo IH]; intros acc st; [reflexivity|].
  simpl corridor_loop. unfold mbind, M_bind. rewrite corridor_step_unfold.
  destruct (intersections st !! id) as [x|]; [|apply IH].
  destruct (py_add _ _); [apply IH|reflexivity].
Qed.

Lemma known_entries_cons (st : TrafficSignalCoordinator) (id : string)
    (ids : list string) :
  known_entries st (id :: ids)
  = match intersections st !! id with
    | Some x => status_entry id x :: known_entries st ids
    | None => known_entries st ids
    end.
Proof. unfold known_entries. simpl. destruct (intersections st !! id); reflexivity. Qed.

Lemma Zsum_cons (a : Z) (l : list Z) : Zsum (a :: l) = a + Zsum l.
Proof. reflexivity. Qed.

Lemma corridor_loop_inv (todo : list string) :
  forall acc acc' st st',
    corridor_loop todo acc st = (Returned acc', st') ->
    ca_intersections_status acc' = ca_intersections_status acc ++ known_entries st todo
    /\ ca_total_vehicles_queued acc'
       = ca_total_vehicles_queued acc
         + Zsum (is_queued_vehicles <$> known_entries st todo)
    /\ ca_total_conflicts acc'
       = ca_total_conflicts acc + Zsum (is_conflicts <$> known_entries st todo)
    /\ ca_total_aqi acc' = ca_total_aqi acc + Zsum (is_aqi <$> known_entries st todo).
Proof.
  induction todo as [|id todo IH]; intros acc acc' st st' Hrun.
  - simpl in Hrun. injection Hrun as <- _. unfold known_entries, Zsum. simpl.
    rewrite app_nil_r. repeat split; lia.
  - simpl corridor_loop in Hrun. unfold mbind, M_bind in Hrun.
    rewrite corridor_step_unfold in Hrun. rewrite known_entries_cons.
    destruct (intersections st !! id) as [x|]; [|exact (IH _ _ _ _ Hrun)].
    destruct (py_add _ _) as [total|]; [|discriminate].
    apply IH in Hrun. simpl in Hrun. destruct Hrun as (H1 & H2 & H3 & H4).
    rewrite H1, H2, H3, H4, <- app_assoc, !fmap_cons, !Zsum_cons.
    simpl. repeat split; lia.
Qed.

Lemma known_entries_length (st : TrafficSignalCoordinator) (ids : list string) :
  length (known_entries st ids) = known_count st ids.
Proof.
  induction ids as [|id ids IH]; [reflexivity|].
  rewrite known_entries_cons, known_count_cons.
  destruct (intersections st !! id); simpl; rewrite IH; reflexivity.
Qed.

Lemma get_corridor_status_unfold (ids : list string) (st : TrafficSignalCoordinator) :
  get_corridor_status ids st
  = match corridor_loop ids corridor_start st with
    | (Raised e, st') => (Raised e, st')
    | (Returned acc, st') =>
        let n := Z.of_nat (known_count st' ids) in
        let finish (avg_congestion : pynum) (avg_aqi : Z) :=
          (Returned
             {| cs_intersections := Z.of_nat (length ids);
                cs_avg_congestion := avg_congestion;
                cs_avg_aqi := avg_aqi;
                cs_total_vehicles_queued := ca_total_vehicles_queued acc;
                cs_intersections_status := ca_intersections_status acc;
                cs_conflicts_detected := ca_total_conflicts acc;
                cs_optimization_needed :=
                  (0 <? ca_total_conflicts acc) || py_gt avg_congestion (PyInt 60) |},
           st') in
        if decide (ids <> []) then
          if 0 <? n then
            match py_truediv (ca_total_congestion acc) (PyInt n) with
            | Raised e => (Raised e, st')
            | Returned avg =>
                match (q ← py_truediv (PyInt (ca_total_aqi acc)) (PyInt n); py_int q) with
                | Raised e => (Raised e, st')
                | Returned avg_aqi => finish (py_round1 avg) avg_aqi
                end
            end
          else finish (PyInt 0) 0
        else finish (PyInt 0) 0
    end.
Proof.
  unfold get_corridor_status. fold corridor_start. unfold mbind at 1. unfold M_bind.
  destruct (corridor_loop ids corridor_start st) as [[acc|e] st']; [|reflexivity].
  unfold mbind at 1. unfold M_bind, get. fold (known_count st' ids). cbv zeta.
  destruct (decide (ids <> [])); [|reflexivity].
  destruct (0 <? Z.of_nat (known_count st' ids)); [|reflexivity].
  unfold mbind at 1. unfold M_bind. unfold mbind at 1. unfold M_bind, lift.
  destruct (py_truediv (ca_total_congestion acc) _); [|reflexivity].
  unfold mbind at 1. unfold M_bind.
  destruct (_ ≫= _); reflexivity.
Qed.



Lemma of_Z_nonzero (n k : Z) :
  0 <= k <= 1023 -> 1 <= n < 2 ^ k -> Float.is_zero (Float.of_Z n) = false.
Proof.
  intros Hk Hn.
  destruct (of_Z_mono 1 n k Hk ltac:(lia) ltac:(lia)) as (a & b & Ha & Hb & Hle).
  vm_compute in Ha. injection Ha as <-.
  destruct (Float.of_Z n) as [s|s| |s m e]; try reflexivity.
  simpl in Hb. injection Hb as <-. exfalso. apply Hle. reflexivity.
Qed.

Lemma corridor_loop_total (st : TrafficSignalCoordinator) (todo : list string) :
  forall acc,
    (forall id x, id ∈ todo -> intersections st !! id = Some x -> plain_readings x) ->
    ca_total_congestion acc = PyInt 0 \/ (exists f, ca_total_congestion acc = PyFloat f) ->
    exists acc',
      corridor_loop todo acc st = (Returned acc', st)
      /\ ((known_count st todo = 0%nat /\ ca_total_congestion acc' = ca_total_congestion acc)
          \/ exists f, ca_total_congestion acc' = PyFloat f).
Proof.
  induction todo as [|id todo IH]; intros acc Hplain Hacc.
  - exists acc. split; [reflexivity|]. left. split; reflexivity.
  - simpl corridor_loop. unfold mbind, M_bind. rewrite corridor_step_unfold.
    rewrite known_count_cons.
    destruct (intersections st !! id) as [x|] eqn:Hx.
    + destruct (Hplain id x ltac:(left) Hx) as [[c Hc] _]. rewrite Hc.
      assert (Hadd : exists f, py_add (ca_total_congestion acc) (PyFloat c)
                               = Returned (PyFloat f)).
      { destruct Hacc as [->|[f ->]]; eexists; reflexivity. }
      destruct Hadd as [f ->].
      destruct (IH {| ca_total_congestion := PyFloat f;
                      ca_total_aqi := ca_total_aqi acc + local_aqi x;
                      ca_total_conflicts :=
                        ca_total_conflicts acc + is_conflicts (status_entry id x);
                      ca_total_vehicles_queued :=
                        ca_total_vehicles_queued acc
                        + is_queued_vehicles (status_entry id x);
                      ca_intersections_status :=
                        ca_intersections_status acc ++ [status_entry id x] |})
        as (acc' & Hrun & Hc').
      { intros id' x' Hid'. apply Hplain. right. exact Hid'. }
      { right. eexists. reflexivity. }
      exists acc'. split; [exact Hrun|]. right.
      destruct Hc' as [[_ Hc']|Hc']; [rewrite Hc'; eexists; reflexivity|exact Hc'].
    + destruct (IH acc) as (acc' & Hrun & Hc'); [|exact Hacc|].
      { intros id' x' Hid'. apply Hplain. right. exact Hid'. }
      exists acc'. split; [exact Hrun|exact Hc'].
Qed.

Lemma Zsum_bound (B : Z) (l : list Z) :
  (forall a, a ∈ l -> Z.abs a <= B) -> Z.abs (Zsum l) <= B * Z.of_nat (length l).
Proof.
  induction l as [|a l IH]; intros Hall.
  - simpl. lia.
  - rewrite Zsum_cons. simpl length.
    pose proof (Hall a ltac:(left)).
    pose proof (IH (fun b Hb => Hall b ltac:(right; exact Hb))). lia.
Qed.

Lemma known_entries_aqi (st : TrafficSignalCoordinator) (ids : list string) (a : Z) :
  a ∈ is_aqi <$> known_entries st ids ->
  exists id x, id ∈ ids /\ intersections st !! id = Some x /\ a = local_aqi x.
Proof.
  intros Ha. apply list_elem_of_fmap in Ha as (e & -> & He).
  unfold known_entries in He. apply list_elem_of_omap in He as (id & Hid & Hx).
  destruct (intersections st !! id) as [x|] eqn:E; [|discriminate].
  injection Hx as <-. exists id, x. repeat split; assumption.
Qed.

(** X13: [get_corridor_status] reads the coordinator and never changes it,
    whatever its outcome; and it raises nothing when every known intersection
    of the corridor has a float congestion and an AQI below [2^1021] in
    magnitude (fewer than [2^62] ids): the empty corridor and a corridor of
    unknown ids included. *)
Theorem get_corridor_status_total (ids : list string) (st : TrafficSignalCoordinator) :
  after (get_corridor_status ids) st = st
  /\ (Z.of_nat (length ids) < corridor_limit ->
      (forall id x, id ∈ ids -> intersections st !! id = Some x -> plain_readings x) ->
      exists cs, result (get_corridor_status ids) st = Returned cs).
Proof.
  unfold after, result. rewrite get_corridor_status_unfold.
  pose proof (corridor_loop_state ids corridor_start st) as Hst. split.
  - destruct (corridor_loop ids corridor_start st) as [[acc|e] st']; simpl in Hst;
      subst st'; [|reflexivity]. cbv zeta.
    destruct (decide (ids <> [])); [|reflexivity].
    destruct (0 <? _); [|reflexivity].
    destruct (py_truediv (ca_total_congestion acc) _); [|reflexivity].
    destruct (_ ≫= _); reflexivity.
  - intros Hlim Hplain. unfold corridor_limit in Hlim.
    destruct (corridor_loop_total st ids corridor_start Hplain ltac:(left; reflexivity))
      as (acc & Hrun & Hc).
    destruct (corridor_loop_inv ids _ _ _ _ Hrun) as (H1 & _ & _ & H4).
    simpl in H1, H4. rewrite Z.add_0_l in H4. rewrite Hrun. cbv zeta.
    pose proof (known_entries_length st ids) as Hlen.
    pose proof (known_count_le st ids) as Hle.
    destruct (decide (ids <> [])); [|eexists; reflexivity].
    destruct (Z.ltb_spec 0 (Z.of_nat (known_count st ids))) as [Hn|Hn];
      [|eexists; reflexivity].
    set (kn := Z.of_nat (known_count st ids)) in *.
    destruct Hc as [[Hc _]|[f Hf]]; [lia|]. rewrite Hf.
    destruct (of_Z_nonneg kn 62 ltac:(lia) ltac:(lia)) as [Hgn _].
    unfold py_truediv at 1. change (to_float (PyFloat f)) with (Returned f).
    rewrite (to_float_int kn _ Hgn), !outcome_bind_ret.
    rewrite (of_Z_nonzero kn 62) by lia.
    assert (Hbound : Z.abs (ca_total_aqi acc) <= 2 ^ 1021 * Z.abs kn).
    { rewrite H4. replace (Z.abs kn) with (Z.of_nat (length (is_aqi <$> known_entries st ids)))
        by (rewrite length_fmap, Hlen; unfold kn; lia).
      apply Zsum_bound. intros a Ha.
      apply known_entries_aqi in Ha as (id & x & Hid & Hx & ->).
      exact (proj2 (Hplain id x Hid Hx)). }
    pose proof (div_Z_good (ca_total_aqi acc) kn 1021 ltac:(lia) ltac:(lia) Hbound) as Hq.
    rewrite (py_truediv_int _ kn _ ltac:(lia) Hq), outcome_bind_ret.
    destruct (py_int_good _ _ Hq) as (a & _ & ->).
    eexists. reflexivity.
Qed.

Lemma get_corridor_status_total_witness :
  exists cs, result (get_corridor_status ["INT_001"; "X"; "INT_003"]%string) fresh
             = Returned cs.
Proof.
  apply (proj2 (get_corridor_status_total ["INT_001"; "X"; "INT_003"]%string fresh)).
  - vm_compute. reflexivity.
  - intros id x Hid Hx.
    rewrite !elem_of_cons in Hid. destruct Hid as [ -> | [ -> | [ -> | Hid ] ] ];
      [| |  |inversion Hid]; vm_compute in Hx; try discriminate; injection Hx as <-;
      (split; [eexists; reflexivity|vm_compute; discriminate]).
Defined.

(** ** The optimizer, run *)

(** A successful run of the optimizer: the plan and the coordinator it
    leaves behind. *)
Lemma optimize_run (st : TrafficSignalCoordinator) (id : string) (x : Intersection) :
  intersections st !! id = Some x -> four_signals x -> queues_nonneg x ->
  exists bg br er fi acc x',
    strategy_parameters (select_strategy x) = (bg, br, 120, er, fi)
    /\ 0 <= bg < 128
    /\ optimize_signal_timing id st
       = (Returned (OptPlan {| tp_intersection_id := id;
                               tp_signal_timings := acc;
                               tp_strategy := select_strategy x;
                               tp_emission_reduction := er;
                               tp_flow_improvement := fi;
                               tp_urgency := priority_level x |}),
          store_intersection id x' st)
    /\ x' = set_signals (signals x') x
    /\ (forall d q, (d, q) ∈ direction_queues x ->
          exists t s,
            direction_timing bg 120 (total_queue_of x) q = Returned t
            /\ 15 <= dt_green_time t <= 80
            /\ dict_get d acc = Some t
            /\ signals x !! d = Some s
            /\ signals x' !! d = Some (write_timing t 120 s))
    /\ (forall d, d ∉ directions -> signals x' !! d = signals x !! d).
Proof.
  intros Hx Hsig (Hn & Hs & He & Hw).
  destruct (strategy_cases x) as (bg & br & er & fi & Hpar & _ & Hbg).
  rewrite optimize_signal_timing_unfold, Hx, Hpar.
  replace (Z.max 1 (fold_left Z.add [queue_length_north x; queue_length_south x;
                                     queue_length_east x; queue_length_west x] 0))
    with (total_queue_of x) by (unfold total_queue_of; simpl; f_equal; lia).
  assert (Htot : 1 <= total_queue_of x) by (unfold total_queue_of; lia).
  fold (direction_queues x).
  destruct (optimize_loop_ok id bg (total_queue_of x) Hbg Htot (direction_queues x)
              [] st x Hx) as (acc & x' & Hrun & Hx' & Hdone & Hrest).
  - unfold direction_queues, directions, total_queue_of. simpl.
    repeat (apply Forall_cons; split); simpl; try (apply Forall_nil; exact I);
      (split; [apply Hsig; in_directions|lia]).
  - unfold direction_queues, directions. simpl. apply directions_nodup.
  - exists bg, br, er, fi, acc, x'. rewrite Hrun.
    split; [reflexivity|]. split; [exact Hbg|]. split; [reflexivity|].
    split; [exact Hx'|]. split; [exact Hdone|].
    intros d Hd. apply Hrest. exact Hd.
Qed.

(** ** What the optimizer reads *)

Lemma assign_signal_same (id d : string) (f g : TrafficSignal -> TrafficSignal)
    (st1 st2 : TrafficSignalCoordinator) :
  same_signal_keys id st1 st2 ->
  (assign_signal id d f st1).1 = (assign_signal id d g st2).1
  /\ same_signal_keys id (assign_signal id d f st1).2 (assign_signal id d g st2).2.
Proof.
  unfold same_signal_keys, assign_signal, mbind, M_bind, get, raise, put. simpl.
  intros H. inversion H as [x1 x2 Hk E1 E2|E1 E2]; simpl.
  - pose proof (Hk d) as Hd.
    destruct (signals x1 !! d) as [s1|] eqn:H1, (signals x2 !! d) as [s2|] eqn:H2; simpl.
    + split; [reflexivity|]. rewrite !lookup_insert_eq. constructor. simpl.
      intros d'. destruct (decide (d = d')) as [<-|Hne].
      * rewrite !lookup_insert_eq. split; eauto.
      * rewrite !lookup_insert_ne by assumption. apply Hk.
    + destruct Hd as [Hd _]. destruct (Hd ltac:(eauto)). discriminate.
    + destruct Hd as [_ Hd]. destruct (Hd ltac:(eauto)). discriminate.
    + split; [reflexivity|]. rewrite <- E1, <- E2. constructor. exact Hk.
  - split; [reflexivity|]. rewrite <- E1, <- E2. constructor.
Qed.

Lemma simulates_bind (R : relation TrafficSignalCoordinator) {A B}
    (c1 c2 : M A) (k1 k2 : A -> M B) :
  simulates R c1 c2 -> (forall a, simulates R (k1 a) (k2 a)) ->
  simulates R (mbind k1 c1) (mbind k2 c2).
Proof.
  intros Hc Hk st1 st2 HR. unfold mbind, M_bind.
  destruct (Hc st1 st2 HR) as [E HR'].
  destruct (c1 st1) as [r1 st1'], (c2 st2) as [r2 st2']. simpl in E, HR'. subst r2.
  destruct r1 as [a|e]; [apply Hk; exact HR'|split; [reflexivity|exact HR']].
Qed.

Lemma simulates_lift (R : relation TrafficSignalCoordinator) {A} (o : outcome A) :
  simulates R (lift o) (lift o).
Proof. intros st1 st2 HR. split; [reflexivity|exact HR]. Qed.

Lemma simulates_ret (R : relation TrafficSignalCoordinator) {A} (a : A) :
  simulates R (mret a : M A) (mret a).
Proof. intros st1 st2 HR. split; [reflexivity|exact HR]. Qed.

Lemma optimize_direction_same (id : string) (bg bc total : Z)
    (acc : list (string * DirectionTiming)) (d : string) (q : Z) :
  simulates (same_signal_keys id)
    (optimize_direction id bg bc total acc d q)
    (optimize_direction id bg bc total acc d q).
Proof.
  unfold optimize_direction.
  apply simulates_bind; [apply simulates_lift|]. intros t.
  apply simulates_bind; [intros st1 st2; apply assign_signal_same|]. intros _.
  apply simulates_bind; [intros st1 st2; apply assign_signal_same|]. intros _.
  apply simulates_bind; [intros st1 st2; apply assign_signal_same|]. intros _.
  apply simulates_ret.
Qed.

Lemma optimize_loop_same (id : string) (bg bc total : Z) (todo : list (string * Z)) :
  forall acc,
    simulates (same_signal_keys id)
      (optimize_loop id bg bc total todo acc) (optimize_loop id bg bc total todo acc).
Proof.
  induction todo as [|[d q] todo IH]; intros acc; [apply simulates_ret|].
  simpl optimize_loop. apply simulates_bind; [apply optimize_direction_same|].
  intros acc1. apply IH.
Qed.

Lemma optimize_result_same (id : string) (st1 st2 : TrafficSignalCoordinator) :
  option_Forall2 same_readings (intersections st1 !! id) (intersections st2 !! id) ->
  result (optimize_signal_timing id) st1 = result (optimize_signal_timing id) st2.
Proof.
  intros H. unfold result. rewrite !optimize_signal_timing_unfold.
  assert (Hk : same_signal_keys id st1 st2).
  { unfold same_signal_keys. destruct H as [x1 x2 Hx|]; constructor. apply Hx. }
  destruct H as [x1 x2 (Hn & Hs & He & Hw & Hc & Ha & Hp & _)|]; [|reflexivity].
  unfold select_strategy. rewrite Hn, Hs, He, Hw, Hc, Ha, Hp.
  destruct (strategy_parameters _) as [[[[bg br] bc] er] fi].
  pose proof (proj1 (optimize_loop_same id bg bc
                (Z.max 1 (fold_left Z.add [queue_length_north x2; queue_length_south x2;
                                           queue_length_east x2; queue_length_west x2] 0))
                (zip directions [queue_length_north x2; queue_length_south x2;
                                 queue_length_east x2; queue_length_west x2])
                [] st1 st2 Hk)) as Hloop.
  destruct (optimize_loop _ _ _ _ _ _ st1) as [r1 st1'],
    (optimize_loop _ _ _ _ _ _ st2) as [r2 st2'].
  simpl in Hloop. subst r2. destruct r1; reflexivity.
Qed.

(** X14: what [optimize_signal_timing] returns (the plan, the error or an
    exception) depends on the coordinator only through the readings of the
    intersection (its four queues, congestion, AQI and priority) and through
    which directions have a signal: the stored timings, offsets, speed and
    every other intersection play no part. *)
Theorem optimize_reads_readings_only (id : string) (st1 st2 : TrafficSignalCoordinator) :
  option_Forall2 same_readings (intersections st1 !! id) (intersections st2 !! id) ->
  result (optimize_signal_timing id) st1 = result (optimize_signal_timing id) st2.
Proof. apply optimize_result_same. Qed.

Lemma wave_frame_same_readings (ids : list string) (st st' : TrafficSignalCoordinator)
    (id : string) :
  wave_frame ids st st' ->
  option_Forall2 same_readings (intersections st !! id) (intersections st' !! id).
Proof.
  intros (_ & _ & _ & Hi & _). specialize (Hi id).
  destruct Hi as [x x' [Hx Hs]|]; constructor.
  do 7 (split; [rewrite Hx; reflexivity|]).
  intros d. specialize (Hs d). split; intros [s E]; rewrite E in Hs; inversion Hs; eauto.
Qed.

Lemma optimize_reads_readings_only_witness :
  result (optimize_signal_timing "INT_001")
    (after (coordinate_green_wave ["INT_002"; "INT_001"]%string "corridor"
              (PyFloat f_30_0)) fresh)
  = result (optimize_signal_timing "INT_001") fresh.
Proof.
  symmetry. apply optimize_reads_readings_only.
  apply (wave_frame_same_readings ["INT_002"; "INT_001"]%string).
  apply wave_frame_call.
Defined.

(** ** The optimizer repeated *)

Lemma direction_queues_covers (x : Intersection) (d : string) :
  d ∈ directions -> exists q, (d, q) ∈ direction_queues x.
Proof.
  intros Hd. unfold direction_queues, directions. simpl.
  destruct (directions_cases d Hd) as [ -> | [ -> | [ -> | -> ] ] ];
    eexists; rewrite !elem_of_cons; eauto 6.
Qed.

Lemma direction_queues_direction (x : Intersection) (d : string) (q : Z) :
  (d, q) ∈ direction_queues x -> d ∈ directions.
Proof.
  unfold direction_queues. apply elem_of_zip_l.
Qed.

(** Called again for the same intersection with no update in between, the
    optimizer gives the outcome of the first call, the plan without its
    timestamp, and leaves the coordinator of the first call. *)
Lemma optimize_signal_timing_twice (st : TrafficSignalCoordinator) (id : string)
    (x : Intersection) :
  intersections st !! id = Some x -> four_signals x -> queues_nonneg x ->
  optimize_signal_timing id (after (optimize_signal_timing id) st)
  = optimize_signal_timing id st.
Proof.
  intros Hx Hfour Hq.
  destruct (optimize_run st id x Hx Hfour Hq)
    as (bg & br & er & fi & acc & x' & Hpar & Hbg & Hrun & Hx' & Hdone & Hrest).
  unfold after. rewrite Hrun. simpl.
  set (st1 := store_intersection id x' st).
  assert (Hx1 : intersections st1 !! id = Some x') by apply store_intersection_lookup.
  assert (Hread : same_readings x' x).
  { do 7 (split; [rewrite Hx'; reflexivity|]).
    intros d. split; intros Hs.
    - destruct (decide (d ∈ directions)) as [Hd|Hd]; [apply Hfour; exact Hd|].
      rewrite <- (Hrest d Hd). exact Hs.
    - destruct (decide (d ∈ directions)) as [Hd|Hd].
      + destruct (direction_queues_covers x d Hd) as [q Hin].
        destruct (Hdone d q Hin) as (t & s & _ & _ & _ & _ & Hs'). rewrite Hs'. eauto.
      + rewrite (Hrest d Hd). exact Hs. }
  assert (Hfour' : four_signals x').
  { intros d Hd. destruct (direction_queues_covers x d Hd) as [q Hin].
    destruct (Hdone d q Hin) as (t & s & _ & _ & _ & _ & Hs'). rewrite Hs'. eauto. }
  assert (Hq' : queues_nonneg x') by (rewrite Hx'; exact Hq).
  destruct (optimize_run st1 id x' Hx1 Hfour' Hq')
    as (bg2 & br2 & er2 & fi2 & acc2 & x'' & Hpar2 & _ & Hrun2 & Hx'' & Hdone2 & Hrest2).
  assert (Esel : select_strategy x' = select_strategy x) by (rewrite Hx'; reflexivity).
  assert (Etot : total_queue_of x' = total_queue_of x) by (rewrite Hx'; reflexivity).
  assert (Edq : direction_queues x' = direction_queues x) by (rewrite Hx'; reflexivity).
  rewrite Esel, Hpar in Hpar2. injection Hpar2 as <- <- <- <-.
  assert (Esig : signals x'' = signals x').
  { apply map_eq. intros d. destruct (decide (d ∈ directions)) as [Hd|Hd].
    - destruct (direction_queues_covers x d Hd) as [q Hin].
      destruct (Hdone d q Hin) as (t & s & Ht & _ & _ & _ & Hs').
      rewrite <- Edq in Hin.
      destruct (Hdone2 d q Hin) as (t2 & s2 & Ht2 & _ & _ & Hs2 & Hs2').
      rewrite Etot, Ht in Ht2. injection Ht2 as <-.
      rewrite Hs' in Hs2. injection Hs2 as <-. rewrite Hs2', Hs'. reflexivity.
    - apply Hrest2. exact Hd. }
  assert (Ex : x'' = x').
  { rewrite Hx'', Esig. transitivity (set_signals (signals x') x);
      [rewrite Hx' at 2; reflexivity|symmetry; exact Hx']. }
  pose proof (optimize_result_same id st1 st) as Hres.
  rewrite Hx1, Hx in Hres. specialize (Hres ltac:(constructor; exact Hread)).
  unfold result in Hres. rewrite Hrun, Hrun2 in Hres. simpl in Hres.
  rewrite Hrun2, Ex. unfold st1. rewrite store_intersection_twice.
  f_equal. exact Hres.
Qed.

(** X15: the optimizer is idempotent: called again for the same
    intersection with no update in between, it leaves the coordinator exactly
    as the first call left it, and the two plans agree in every entry that is
    not a clock reading: the id, the signal timings, the strategy, the two
    estimates and the urgency (a known intersection with its four signals
    and non-negative queues).  The ['timestamp'] of a plan is the time of its
    call and is not part of [TimingPlan]. *)
Theorem optimize_signal_timing_idempotent (st : TrafficSignalCoordinator) (id : string)
    (x : Intersection) :
  intersections st !! id = Some x -> four_signals x -> queues_nonneg x ->
  after (optimize_signal_timing id) (after (optimize_signal_timing id) st)
  = after (optimize_signal_timing id) st
  /\ exists p1 p2,
       result (optimize_signal_timing id) st = Returned (OptPlan p1)
       /\ result (optimize_signal_timing id) (after (optimize_signal_timing id) st)
          = Returned (OptPlan p2)
       /\ tp_intersection_id p2 = tp_intersection_id p1
       /\ tp_signal_timings p2 = tp_signal_timings p1
       /\ tp_strategy p2 = tp_strategy p1
       /\ tp_emission_reduction p2 = tp_emission_reduction p1
       /\ tp_flow_improvement p2 = tp_flow_improvement p1
       /\ tp_urgency p2 = tp_urgency p1.
Proof.
  intros Hx Hfour Hq.
  pose proof (optimize_signal_timing_twice st id x Hx Hfour Hq) as E.
  destruct (optimize_run st id x Hx Hfour Hq)
    as (bg & br & er & fi & acc & x' & _ & _ & Hrun & _).
  split.
  - unfold after at 1. rewrite E. reflexivity.
  - unfold result. rewrite E, Hrun. simpl.
    eexists _, _. split; [reflexivity|]. split; [reflexivity|].
    repeat split; reflexivity.
Qed.

Lemma optimize_signal_timing_idempotent_witness :
  after (optimize_signal_timing "INT_001") (after (optimize_signal_timing "INT_001") fresh)
  = after (optimize_signal_timing "INT_001") fresh.
Proof.
  destruct (intersections fresh !! "INT_001"%string) as [x|] eqn:Hx;
    [|vm_compute in Hx; discriminate].
  apply (optimize_signal_timing_idempotent fresh "INT_001" x Hx);
    vm_compute in Hx; injection Hx as <-.
  - intros d Hd.
    destruct (directions_cases d Hd) as [ -> | [ -> | [ -> | -> ] ] ];
      vm_compute; eauto.
  - repeat split; simpl; lia.
Defined.

(** ** Subtraction between integer bounds *)

Lemma dyadic_le_at (a b : Z * Z) (E : Z) :
  E <= a.2 -> E <= b.2 ->
  (dyadic_le a b <-> a.1 * 2 ^ (a.2 - E) <= b.1 * 2 ^ (b.2 - E)).
Proof.
  intros Ha Hb. unfold dyadic_le, Float.dyadic_compare. rewrite Z.compare_le_iff.
  set (e := Z.min a.2 b.2).
  assert (Hp : 0 < 2 ^ (e - E)) by (apply Z.pow_pos_nonneg; lia).
  replace (a.2 - E) with (a.2 - e + (e - E)) by lia.
  replace (b.2 - E) with (b.2 - e + (e - E)) by lia.
  rewrite !Z.pow_add_r by lia. split; intros H; nia.
Qed.

Lemma between_inv (lo hi : Z) (x : spec_float) :
  between lo hi x ->
  exists m e,
    x = S754_finite false m e
    /\ forall E, E <= e -> E <= 0 ->
         lo * 2 ^ (- E) <= Z.pos m * 2 ^ (e - E) <= hi * 2 ^ (- E).
Proof.
  intros (a & Ha & Hpos & Hlo & Hhi).
  destruct x as [s|s| |s m e]; simpl in Ha; try discriminate.
  - injection Ha as <-. simpl in Hpos. lia.
  - injection Ha as <-. destruct s; simpl in Hpos; [lia|].
    exists m, e. split; [reflexivity|]. intros E HE HE0.
    apply (dyadic_le_at _ _ E) in Hlo; [|simpl; lia..].
    apply (dyadic_le_at _ _ E) in Hhi; [|simpl; lia..].
    simpl in Hlo, Hhi. rewrite Z.sub_0_l in Hlo, Hhi. lia.
Qed.

Lemma between_intro (lo hi : Z) (m : positive) (e E : Z) :
  E <= e -> E <= 0 ->
  lo * 2 ^ (- E) <= Z.pos m * 2 ^ (e - E) <= hi * 2 ^ (- E) ->
  between lo hi (S754_finite false m e).
Proof.
  intros HE HE0 H. exists (Z.pos m, e). split; [reflexivity|]. split; [simpl; lia|].
  split; apply (dyadic_le_at _ _ E); simpl; try lia; rewrite Z.sub_0_l; lia.
Qed.

(** Rounding keeps a positive number between its integer bounds. *)
Lemma normalize_between (M e E0 lo hi : Z) :
  0 < lo -> hi < 2 ^ 53 -> E0 <= e -> E0 <= 0 ->
  lo * 2 ^ (- E0) <= M * 2 ^ (e - E0) <= hi * 2 ^ (- E0) ->
  between lo hi (binary_normalize 53 1024 M e false).
Proof.
  intros Hlo Hhi HE HE0 HM.
  assert (Hp0 : 0 < 2 ^ (- E0)) by (apply Z.pow_pos_nonneg; lia).
  assert (Hpe : 0 < 2 ^ (e - E0)) by (apply Z.pow_pos_nonneg; lia).
  destruct M as [|p|p]; try nia.
  unfold binary_normalize, binary_round.
  pose proof (shl_align_spec p e (fexp 53 1024 (Z.pos (digits2_pos p) + e))) as [He1 Hm1].
  destruct (shl_align p e _) as [m1 e1]. simpl in He1, Hm1. rewrite <- He1 in Hm1.
  set (d := Z.pos (digits2_pos p) + e) in *.
  assert (Hd1 : Zdigits2 (Z.pos m1) + e1 = d).
  { rewrite Hm1, Zdigits2_shiftl by lia.
    change (Zdigits2 (Z.pos p)) with (Z.pos (digits2_pos p)). unfold d. lia. }
  assert (Hd : d <= 53).
  { destruct (Z.le_gt_cases d 53) as [?|Hgt]; [assumption|exfalso].
    pose proof (Zdigits2_bounds (Z.pos p) ltac:(lia)) as [Hb _].
    change (Zdigits2 (Z.pos p)) with (Z.pos (digits2_pos p)) in Hb.
    assert (H1 : 2 ^ (53 - E0) <= 2 ^ (Z.pos (digits2_pos p) - 1) * 2 ^ (e - E0)).
    { rewrite <- Z.pow_add_r by lia. apply Z.pow_le_mono_r; unfold d in Hgt; lia. }
    replace (53 - E0) with (53 + - E0) in H1 by lia.
    rewrite Z.pow_add_r in H1 by lia. nia. }
  pose proof (fexp_eq d) as Hfe.
  set (fe := fexp 53 1024 d) in *.
  assert (Hfe0 : fe <= 0) by lia.
  assert (He1' : e1 <= fe /\ e1 <= e /\ e1 <= 0) by lia.
  destruct (round_aux_exact false (Z.pos m1) e1 53) as (a & Ha & Hsg & Hval & Hexp);
    try lia.
  { rewrite Hd1. fold fe. lia. }
  rewrite Hd1 in Hval. fold fe in Hval.
  simpl in Hsg.
  set (n := fe - e1) in *.
  assert (Hn : 0 <= n) by (unfold n; lia).
  assert (Hm1b : lo * 2 ^ (- e1) <= Z.pos m1 <= hi * 2 ^ (- e1)).
  { rewrite Hm1.
    pose proof (proj2 (dyadic_le_at (lo, 0) (Z.pos p, e) E0 ltac:(simpl; lia) ltac:(simpl; lia))
                  ltac:(simpl; rewrite Z.sub_0_l; lia)) as H1.
    pose proof (proj2 (dyadic_le_at (Z.pos p, e) (hi, 0) E0 ltac:(simpl; lia) ltac:(simpl; lia))
                  ltac:(simpl; rewrite Z.sub_0_l; lia)) as H2.
    apply (dyadic_le_at _ _ e1) in H1; [|simpl; lia..].
    apply (dyadic_le_at _ _ e1) in H2; [|simpl; lia..].
    simpl in H1, H2. rewrite Z.sub_0_l in H1, H2. lia. }
  assert (Hsplit : 2 ^ (- e1) = 2 ^ (- fe) * 2 ^ n).
  { rewrite <- Z.pow_add_r by lia. f_equal. unfold n. lia. }
  pose proof (rne_shift_lower (Z.pos m1) n (lo * 2 ^ (- fe)) Hn
                ltac:(rewrite <- Z.mul_assoc, <- Hsplit; lia)) as Hl.
  pose proof (rne_shift_upper (Z.pos m1) n (hi * 2 ^ (- fe)) Hn
                ltac:(rewrite <- Z.mul_assoc, <- Hsplit; lia)) as Hu.
  assert (Hpn : 0 < 2 ^ n) by (apply Z.pow_pos_nonneg; lia).
  assert (Hpf : 0 < 2 ^ (- fe)) by (apply Z.pow_pos_nonneg; lia).
  assert (Ha1 : 0 < a.1).
  { assert (0 <= a.1) by lia.
    destruct (Z.eq_dec a.1 0) as [E|]; [|lia].
    rewrite E in Hval. simpl in Hval. nia. }
  exists a. split; [exact Ha|]. split; [exact Ha1|].
  rewrite Z.abs_eq in Hval by lia.
  split; apply (dyadic_le_at _ _ e1); simpl; try lia;
    rewrite Z.sub_0_l, Hval, Hsplit; nia.
Qed.

(** The rounded difference of two floats between integer bounds is between
    the differences of the bounds. *)
Lemma sub_between (lx hx ly hy : Z) (x y : spec_float) :
  between lx hx x -> between ly hy y ->
  0 < lx - hy -> hx - ly < 2 ^ 53 ->
  between (lx - hy) (hx - ly) (Float.sub x y).
Proof.
  intros Hx Hy Hlo Hhi.
  destruct (between_inv _ _ _ Hx) as (mx & ex & -> & Bx).
  destruct (between_inv _ _ _ Hy) as (my & ey & -> & By).
  unfold Float.sub, SFsub. cbv zeta.
  change Float.prec with 53. change Float.emax with 1024.
  set (ez := Z.min ex ey).
  pose proof (shl_align_spec mx ex ez) as [_ HX].
  pose proof (shl_align_spec my ey ez) as [_ HY].
  replace (Z.min ex ez) with ez in HX by lia.
  replace (Z.min ey ez) with ez in HY by lia.
  simpl cond_Zopp. rewrite HX, HY.
  set (E0 := Z.min ez 0).
  apply (normalize_between _ ez E0); try lia.
  specialize (Bx E0 ltac:(lia) ltac:(lia)).
  specialize (By E0 ltac:(lia) ltac:(lia)).
  assert (EX : Z.pos mx * 2 ^ (ex - ez) * 2 ^ (ez - E0) = Z.pos mx * 2 ^ (ex - E0))
    by (rewrite <- Z.mul_assoc, <- Z.pow_add_r by lia; do 2 f_equal; lia).
  assert (EY : Z.pos my * 2 ^ (ey - ez) * 2 ^ (ez - E0) = Z.pos my * 2 ^ (ey - E0))
    by (rewrite <- Z.mul_assoc, <- Z.pow_add_r by lia; do 2 f_equal; lia).
  lia.
Qed.

(** [int(x)] of a float between integer bounds is between them. *)
Lemma between_int (lo hi : Z) (x : spec_float) :
  between lo hi x ->
  exists r, py_int (PyFloat x) = Returned r /\ lo <= r <= hi.
Proof.
  intros Hx. destruct (between_inv _ _ _ Hx) as (m & e & -> & B).
  rewrite (py_int_dyadic _ (Z.pos m, e)) by reflexivity.
  eexists. split; [reflexivity|].
  rewrite trunc_floor_nonneg by (simpl; lia).
  set (E := Z.min e 0).
  rewrite (dyadic_floor_scaled _ E) by (simpl; lia). simpl.
  specialize (B E ltac:(lia) ltac:(lia)).
  assert (Hp : 0 < 2 ^ (- E)) by (apply Z.pow_pos_nonneg; lia).
  split.
  - apply Z.div_le_lower_bound; lia.
  - apply Z.div_le_upper_bound; [lia|]. nia.
Qed.

(** A float strictly between two integers lies between its integer part and
    the next integer. *)
Lemma between_floor (x : spec_float) (a : Z * Z) :
  Float.dyadic x = Some a -> 0 < a.1 ->
  between (Float.trunc_dyadic a) (Float.trunc_dyadic a + 1) x.
Proof.
  intros Ha Hpos. exists a. split; [exact Ha|]. split; [exact Hpos|].
  rewrite trunc_floor_nonneg by lia.
  set (E := Z.min a.2 0).
  rewrite (dyadic_floor_scaled _ E) by lia.
  assert (Hp : 0 < 2 ^ (- E)) by (apply Z.pow_pos_nonneg; lia).
  split; apply (dyadic_le_at _ _ E); simpl; try lia;
    replace (0 - E) with (- E) by lia.
  - rewrite Z.mul_comm. apply Z.mul_div_le. lia.
  - pose proof (Z.mul_succ_div_gt (a.1 * 2 ^ (a.2 - E)) (2 ^ (- E)) Hp). lia.
Qed.

Lemma between_of_Z (n : Z) : 0 < n < 2 ^ 53 -> between n n (Float.of_Z n).
Proof.
  intros Hn. unfold Float.of_Z. change Float.prec with 53. change Float.emax with 1024.
  apply (normalize_between n 0 0); simpl; lia.
Qed.

(** ** The red time of the optimizer *)

Lemma py_arith_float_l iop fop (a : spec_float) (y v : pynum) :
  py_arith iop fop (PyFloat a) y = Returned v -> exists f, v = PyFloat f.
Proof.
  unfold py_arith, to_float. destruct y as [z|b]; simpl.
  - destruct (Float.is_infinity (Float.of_Z z)); simpl; intros [= <-]; eauto.
  - intros [= <-]; eauto.
Qed.

Lemma py_arith_float_r iop fop (x : pynum) (b : spec_float) (v : pynum) :
  py_arith iop fop x (PyFloat b) = Returned v -> exists f, v = PyFloat f.
Proof.
  unfold py_arith, to_float. destruct x as [z|a]; simpl.
  - destruct (Float.is_infinity (Float.of_Z z)); simpl; intros [= <-]; eauto.
  - intros [= <-]; eauto.
Qed.

(** A float strictly between two integers is finite. *)
Lemma ltb_finite (r : spec_float) (lo hi : Z) :
  Float.ltb (Float.exact_Z lo) r = true -> Float.ltb r (Float.exact_Z hi) = true ->
  is_Some (Float.dyadic r).
Proof.
  destruct r as [s|s| |s m e]; simpl; eauto.
  - destruct lo, hi, s; discriminate.
  - destruct lo; discriminate.
Qed.

(** Whatever the queues, a direction whose numbers are computed without an
    exception gets a green time within 15..80 and a red time within 35..100
    that add up to 114 or 115: to 115 when the float green time is a whole
    number, and to 115 or 114 when its fraction is cut off twice. *)
Lemma direction_timing_range (base_green total_queue queue : Z) (t : DirectionTiming) :
  direction_timing base_green 120 total_queue queue = Returned t ->
  15 <= dt_green_time t <= 80 /\ 35 <= dt_red_time t <= 100
  /\ (dt_green_time t + dt_red_time t = 114 \/ dt_green_time t + dt_red_time t = 115).
Proof.
  unfold direction_timing. intros H.
  assert (P53 : 2 ^ 53 = 9007199254740992) by reflexivity.
  apply outcome_bind_inv in H as (p & Hp & H).
  apply outcome_bind_inv in H as (w & Hw & H).
  apply outcome_bind_inv in H as (raw & Hraw & H).
  destruct (py_arith_float_l Z.add Float.add _ _ _ Hw) as [fw ->].
  destruct (py_arith_float_r Z.mul Float.mul _ _ _ Hraw) as [r ->].
  clear Hp Hw Hraw.
  assert (H120 : fgood 8 (Float.of_Z 120)) by (apply (of_Z_good 120 7); simpl; lia).
  assert (H5 : fgood 8 (Float.of_Z 5)) by (apply (of_Z_good 5 7); simpl; lia).
  revert H. unfold py_min. destruct (py_lt (PyFloat r) (PyInt 80)) eqn:Hlt80.
  - unfold py_max. destruct (py_gt (PyFloat r) (PyInt 15)) eqn:Hgt15.
    + (* the green time is the unclamped float *)
      unfold py_sub. rewrite (py_arith_int_float _ _ 120 8) by assumption.
      rewrite outcome_bind_ret.
      rewrite (py_arith_float_int _ _ 5 8) by assumption.
      rewrite outcome_bind_ret.
      destruct (ltb_finite r 15 80 Hgt15 Hlt80) as [a Ha].
      pose proof (py_int_dyadic r a Ha) as Hint.
      pose proof (ltb_int_r r 80 a ltac:(lia) Hlt80 Ha) as H80.
      pose proof (ltb_int_l r 15 a ltac:(lia) Hgt15 Ha) as H15.
      assert (Hpos : 0 < a.1).
      { pose proof (ltb_dyadic (Float.exact_Z 15) r (15, 0) a eq_refl Ha Hgt15) as Hc.
        apply (dyadic_lt_scaled _ _ (Z.min a.2 0)) in Hc; [|simpl; lia..].
        simpl in Hc.
        assert (0 < 2 ^ (0 - Z.min a.2 0)) by (apply Z.pow_pos_nonneg; lia).
        assert (0 < 2 ^ (a.2 - Z.min a.2 0)) by (apply Z.pow_pos_nonneg; lia).
        nia. }
      pose proof (between_floor r a Ha Hpos) as Bg.
      pose proof (sub_between _ _ _ _ _ _ (between_of_Z 120 ltac:(lia)) Bg
                    ltac:(lia) ltac:(lia)) as Brest.
      pose proof (sub_between _ _ _ _ _ _ Brest (between_of_Z 5 ltac:(lia))
                    ltac:(lia) ltac:(lia)) as Bred.
      destruct (between_int _ _ _ Bred) as (red & Hr & Hb).
      rewrite Hint, outcome_bind_ret, Hr, outcome_bind_ret.
      intros [= <-]. simpl. lia.
    + intros [= <-]. simpl. lia.
  - intros [= <-]. simpl. lia.
Qed.

(** X16: for a known intersection with its four signals and non-negative
    queues, the optimizer reports and stores for every direction a green time
    within 15..80 and a red time within 35..100 that add up to 114 or to 115
    (never to more, never to less); the stored cycle time is 120, and the
    stored yellow and all-red times are the ones the signal had, so that the
    four stored durations of a signal built with yellow 5 and all-red 5 add
    up to 124 or 125. *)
Theorem optimize_green_and_red_times (st : TrafficSignalCoordinator) (id : string)
    (x : Intersection) (d : string) :
  intersections st !! id = Some x -> four_signals x -> queues_nonneg x ->
  d ∈ directions ->
  exists t s s',
    reported_timing (result (optimize_signal_timing id) st) d = Some t
    /\ stored_signal st id d = Some s
    /\ stored_signal (after (optimize_signal_timing id) st) id d = Some s'
    /\ green_time s' = dt_green_time t /\ red_time s' = dt_red_time t
    /\ 15 <= green_time s' <= 80 /\ 35 <= red_time s' <= 100
    /\ (green_time s' + red_time s' = 114 \/ green_time s' + red_time s' = 115)
    /\ cycle_time s' = 120
    /\ stored_cycle_sum s' = green_time s' + red_time s' + yellow_time s + all_red_time s.
Proof.
  intros Hx Hfour Hq Hd.
  destruct (optimize_run st id x Hx Hfour Hq)
    as (bg & br & er & fi & acc & x' & Hpar & Hbg & Hrun & Hx' & Hdone & Hrest).
  destruct (direction_queues_covers x d Hd) as [q Hin].
  destruct (Hdone d q Hin) as (t & s & Ht & Hg & Hacc & Hs & Hs').
  pose proof (direction_timing_range bg _ q t Ht) as (_ & Hred & Hsum).
  exists t, s, (write_timing t 120 s).
  unfold result, after, reported_timing, stored_signal. rewrite Hrun. simpl.
  rewrite Hx, lookup_insert_eq. simpl. rewrite Hs'.
  unfold stored_cycle_sum. simpl.
  repeat split; assumption || lia.
Qed.

Lemma optimize_green_and_red_times_witness :
  exists t s s',
    reported_timing (result (optimize_signal_timing "INT_001") fresh) "east" = Some t
    /\ stored_signal fresh "INT_001" "east" = Some s
    /\ stored_signal (after (optimize_signal_timing "INT_001") fresh) "INT_001" "east" = Some s'
    /\ green_time s' = dt_green_time t /\ red_time s' = dt_red_time t
    /\ 15 <= green_time s' <= 80 /\ 35 <= red_time s' <= 100
    /\ (green_time s' + red_time s' = 114 \/ green_time s' + red_time s' = 115)
    /\ cycle_time s' = 120
    /\ stored_cycle_sum s' = green_time s' + red_time s' + yellow_time s + all_red_time s.
Proof.
  destruct (intersections fresh !! "INT_001"%string) as [x|] eqn:Hx; [|vm_compute in Hx; discriminate].
  apply (optimize_green_and_red_times fresh "INT_001" x "east" Hx).
  - vm_compute in Hx. injection Hx as <-. intros d Hd.
    destruct (directions_cases d Hd) as [ -> | [ -> | [ -> | -> ] ] ]; vm_compute; eauto.
  - vm_compute in Hx. injection Hx as <-. vm_compute. repeat split; discriminate.
  - unfold directions. rewrite !elem_of_cons. auto.
Defined.

(** * Coordinators in use *)

(** ** The constructor *)

Lemma build_intersection_fields clock (d0 : default_intersection) :
  intersection_id (build_intersection clock d0) = di_id d0
  /\ name (build_intersection clock d0) = di_name d0
  /\ intersection_coordinates (build_intersection clock d0) = di_coordinates d0.
Proof. repeat split. Qed.

Lemma build_intersection_signals clock (d0 : default_intersection) (d : string) :
  signals (build_intersection clock d0) !! d
  = if bool_decide (d ∈ directions) then Some (build_signal clock d0 d) else None.
Proof.
  change (signals (build_intersection clock d0))
    with (<["west" := build_signal clock d0 "west"]>
            (<["east" := build_signal clock d0 "east"]>
               (<["south" := build_signal clock d0 "south"]>
                  (<["north" := build_signal clock d0 "north"]>
                     (∅ : gmap string TrafficSignal))))).
  unfold directions.
  destruct (decide (d = "west"%string)) as [->|H1]; [rewrite lookup_insert_eq; reflexivity|].
  rewrite lookup_insert_ne by congruence.
  destruct (decide (d = "east"%string)) as [->|H2]; [rewrite lookup_insert_eq; reflexivity|].
  rewrite lookup_insert_ne by congruence.
  destruct (decide (d = "south"%string)) as [->|H3]; [rewrite lookup_insert_eq; reflexivity|].
  rewrite lookup_insert_ne by congruence.
  destruct (decide (d = "north"%string)) as [->|H4]; [rewrite lookup_insert_eq; reflexivity|].
  rewrite lookup_insert_ne, lookup_empty by congruence.
  rewrite bool_decide_eq_false_2; [reflexivity|].
  rewrite !elem_of_cons, elem_of_nil. tauto.
Qed.

Lemma init_intersections clock (city : string) :
  intersections (__init__ clock city)
  = foldr (fun d0 => <[di_id d0 := build_intersection clock d0]>) ∅
      (reverse default_intersections).
Proof. reflexivity. Qed.

Lemma init_lookup clock (city id : string) (x : Intersection) :
  intersections (__init__ clock city) !! id = Some x ->
  exists d0, d0 ∈ default_intersections /\ di_id d0 = id
             /\ x = build_intersection clock d0.
Proof.
  rewrite init_intersections.
  assert (Hin : forall d0, d0 ∈ reverse default_intersections -> d0 ∈ default_intersections)
    by (intros d0; rewrite elem_of_reverse; tauto).
  revert Hin. generalize (reverse default_intersections) as l.
  induction l as [|d1 l IH]; intros Hin; simpl.
  - rewrite lookup_empty. discriminate.
  - destruct (decide (di_id d1 = id)) as [E|E].
    + rewrite E, lookup_insert_eq. intros [= <-].
      exists d1. split; [apply Hin; left|]. split; [exact E|reflexivity].
    + rewrite lookup_insert_ne by exact E.
      apply IH. intros d0 H0. apply Hin. right. exact H0.
Qed.

Lemma init_known clock (city id : string) :
  id ∈ default_ids -> is_Some (intersections (__init__ clock city) !! id).
Proof.
  rewrite init_intersections. unfold default_ids.
  rewrite <- (reverse_involutive default_intersections) at 1.
  rewrite fmap_reverse, elem_of_reverse.
  generalize (reverse default_intersections) as l.
  induction l as [|d1 l IH]; simpl.
  - rewrite elem_of_nil. tauto.
  - rewrite elem_of_cons. intros [->|H].
    + rewrite lookup_insert_eq. eauto.
    + destruct (decide (di_id d1 = id)) as [E|E].
      * rewrite E, lookup_insert_eq. eauto.
      * rewrite lookup_insert_ne by exact E. apply IH, H.
Qed.

Lemma init_well_formed clock (city : string) : well_formed city (__init__ clock city).
Proof.
  split; [|split].
  - split; [reflexivity|]. split; [reflexivity|]. split; [reflexivity|].
    split; [|split].
    + intros id. split; [|apply init_known].
      intros [x Hx]. destruct (init_lookup _ _ _ _ Hx) as (d0 & Hd0 & <- & _).
      unfold default_ids. apply list_elem_of_fmap. eauto.
    + intros id [o Ho]. change (coordination_offsets (__init__ clock city)) with (∅ : gmap string Z) in Ho.
      rewrite lookup_empty in Ho. discriminate.
    + intros id x Hx. destruct (init_lookup _ _ _ _ Hx) as (d0 & Hd0 & <- & ->).
      split; [reflexivity|]. split.
      * intros d. rewrite build_intersection_signals.
        destruct (bool_decide_reflect (d ∈ directions)) as [H|H]; split; intros H';
          eauto; try contradiction. destruct H' as [? ?]; discriminate.
      * intros d s. rewrite build_intersection_signals.
        destruct (bool_decide (d ∈ directions)); [|discriminate].
        intros [= <-]. repeat split.
  - intros id x d s Hx. destruct (init_lookup _ _ _ _ Hx) as (d0 & Hd0 & <- & ->).
    rewrite build_intersection_signals.
    destruct (bool_decide (d ∈ directions)); [|discriminate].
    intros [= <-]. unfold timing_ok. simpl. lia.
  - intros id x d s Hx. destruct (init_lookup _ _ _ _ Hx) as (d0 & Hd0 & <- & ->).
    rewrite build_intersection_signals.
    destruct (bool_decide (d ∈ directions)); [|discriminate].
    intros [= <-]. reflexivity.
Qed.

(** ** Properties kept by computations *)

Lemma keeps_bind (P : TrafficSignalCoordinator -> Prop) {A B} (c : M A) (k : A -> M B) :
  keeps P c -> (forall a, keeps P (k a)) -> keeps P (mbind k c).
Proof.
  intros Hc Hk st HP. unfold mbind, M_bind. specialize (Hc st HP).
  destruct (c st) as [[a|e] st1]; simpl in *; [apply Hk|]; assumption.
Qed.

Lemma keeps_ret (P : TrafficSignalCoordinator -> Prop) {A} (a : A) : keeps P (mret a : M A).
Proof. intros st HP. exact HP. Qed.

Lemma keeps_lift_bind (P : TrafficSignalCoordinator -> Prop) {A B} (o : outcome A)
    (k : A -> M B) :
  (forall a, o = Returned a -> keeps P (k a)) -> keeps P (mbind k (lift o)).
Proof.
  intros Hk st HP. unfold mbind, M_bind, lift.
  destruct o as [a|e]; [apply (Hk a eq_refl), HP|exact HP].
Qed.

Lemma keeps_assign (id d : string) (f : TrafficSignal -> TrafficSignal) :
  (forall s, timing_ok s -> timing_ok (f s)) -> keeps timings_ok (assign_signal id d f).
Proof.
  intros Hf st HP. unfold assign_signal, mbind, M_bind, get. simpl.
  destruct (intersections st !! id) as [x|] eqn:Hx; [|exact HP].
  destruct (signals x !! d) as [s|] eqn:Hs; [|exact HP].
  simpl. intros id' x' d' s'. simpl.
  destruct (decide (id = id')) as [<-|Hne].
  - rewrite lookup_insert_eq. intros [= <-]. simpl.
    destruct (decide (d = d')) as [<-|Hd].
    + rewrite lookup_insert_eq. intros [= <-]. apply Hf. exact (HP _ _ _ _ Hx Hs).
    + rewrite lookup_insert_ne by assumption. apply (HP _ _ _ _ Hx).
  - rewrite lookup_insert_ne by assumption. apply HP.
Qed.

Lemma keeps_optimize_direction (id : string) (bg total : Z)
    (acc : list (string * DirectionTiming)) (d : string) (q : Z) :
  keeps timings_ok (optimize_direction id bg 120 total acc d q).
Proof.
  unfold optimize_direction. apply keeps_lift_bind. intros t Ht. cbv zeta.
  destruct (direction_timing_range _ _ _ _ Ht) as (Hg & Hr & _).
  repeat (apply keeps_bind;
          [apply keeps_assign; intros s (Hc & Hg' & Hr'); repeat split; simpl; lia
          |intros _]).
  apply keeps_ret.
Qed.

Lemma keeps_optimize_loop (id : string) (bg total : Z) (todo : list (string * Z)) :
  forall acc, keeps timings_ok (optimize_loop id bg 120 total todo acc).
Proof.
  induction todo as [|[d q] todo IH]; intros acc; simpl.
  - apply keeps_ret.
  - apply keeps_bind; [apply keeps_optimize_direction|intros acc'; apply IH].
Qed.

Lemma keeps_optimize (id : string) : keeps timings_ok (optimize_signal_timing id).
Proof.
  intros st HP. rewrite optimize_signal_timing_unfold.
  destruct (intersections st !! id) as [x|]; [|exact HP].
  destruct (strategy_cases x) as (bg & br & er & fi & -> & _).
  pose proof (keeps_optimize_loop id bg
                (Z.max 1 (fold_left Z.add [queue_length_north x; queue_length_south x;
                                           queue_length_east x; queue_length_west x] 0))
                (zip directions [queue_length_north x; queue_length_south x;
                                 queue_length_east x; queue_length_west x]) [] st HP) as H.
  destruct (optimize_loop _ _ _ _ _ _ st) as [[acc|e] st']; exact H.
Qed.

Lemma keeps_green_wave_step (t : pynum) (acc : wave_acc) (i : nat) (id : string) :
  keeps offsets_ok (green_wave_step t acc i id).
Proof.
  intros st HP. destruct (intersections st !! id) as [x|] eqn:Hx.
  - destruct (wave_offset t i) as [o|e] eqn:Ho.
    + rewrite (green_wave_step_known t acc i id st x o Hx Ho). simpl.
      intros id' x' d s. simpl.
      destruct (decide (id = id')) as [<-|Hne].
      * rewrite !lookup_insert_eq. intros [= <-]. unfold with_offset. simpl.
        rewrite lookup_fmap. destruct (signals x !! d); [|discriminate].
        intros [= <-]. reflexivity.
      * rewrite !lookup_insert_ne by assumption. apply HP.
    + rewrite (green_wave_step_raises t acc i id st x e Hx Ho). exact HP.
  - rewrite (green_wave_step_unknown t acc i id st Hx). exact HP.
Qed.

Lemma keeps_green_wave_loop (t : pynum) (todo : list string) :
  forall i acc, keeps offsets_ok (green_wave_loop t i todo acc).
Proof.
  induction todo as [|id todo IH]; intros i acc; simpl.
  - apply keeps_ret.
  - apply keeps_bind; [apply keeps_green_wave_step|intros acc'; apply IH].
Qed.

Lemma keeps_green_wave (ids : list string) (road : string) (speed : pynum) :
  keeps offsets_ok (coordinate_green_wave ids road speed).
Proof.
  unfold coordinate_green_wave.
  destruct (length ids <? 2)%nat; [apply keeps_ret|]. cbv zeta.
  apply keeps_lift_bind. intros pace _.
  apply keeps_lift_bind. intros t _.
  apply keeps_bind; [apply keeps_green_wave_loop|]. intros [[offsets s] e].
  repeat (apply keeps_lift_bind; intros ? _).
  apply keeps_ret.
Qed.

(** ** What the frames keep *)

Lemma structure_transfer (city : string) (st st' : TrafficSignalCoordinator) :
  city_name st' = city_name st ->
  optimization_mode st' = optimization_mode st ->
  signal_timing_history st' = signal_timing_history st ->
  (forall id, is_Some (coordination_offsets st' !! id) ->
              is_Some (coordination_offsets st !! id) \/ is_Some (intersections st !! id)) ->
  (forall id, option_Forall2
                (fun x x' =>
                   intersection_id x' = intersection_id x
                   /\ forall d, option_Forall2
                                  (fun s s' => static_ok x d s -> static_ok x' d s')
                                  (signals x !! d) (signals x' !! d))
                (intersections st !! id) (intersections st' !! id)) ->
  structure_ok city st -> structure_ok city st'.
Proof.
  intros Hc Hm Hh Ho Hi (Sc & Sm & Sh & Sk & So & Sx).
  split; [congruence|]. split; [congruence|]. split; [congruence|].
  split; [|split].
  - intros id. rewrite <- Sk. specialize (Hi id).
    destruct Hi; split; intros [? ?]; eauto; discriminate.
  - intros id H. destruct (Ho id H) as [H'|H']; [apply So, H'|apply Sk, H'].
  - intros id x' Hx'. specialize (Hi id). rewrite Hx' in Hi.
    inversion Hi as [x ? [Hid Hs] Hx|]; subst.
    symmetry in Hx. destruct (Sx id x Hx) as (Sid & Sd & Ss).
    split; [congruence|]. split.
    + intros d. rewrite <- Sd. specialize (Hs d).
      destruct Hs; split; intros [? ?]; eauto; discriminate.
    + intros d s' Hs'. specialize (Hs d). rewrite Hs' in Hs.
      inversion Hs as [s ? Hok Hsd|]; subst. symmetry in Hsd.
      apply Hok, (Ss d s Hsd).
Qed.

Lemma timing_frame_structure (city : string) (st st' : TrafficSignalCoordinator) :
  timing_frame st st' -> structure_ok city st -> structure_ok city st'.
Proof.
  intros (Hc & Hh & Ho & Hm & Hi).
  apply structure_transfer; try assumption.
  - intros id. rewrite Ho. auto.
  - intros id. specialize (Hi id). destruct Hi as [x x' Hx|]; constructor.
    destruct Hx as (Hid & Hn & Hco & _ & _ & _ & _ & _ & _ & _ & _ & Hs).
    split; [exact Hid|]. intros d. specialize (Hs d).
    destruct Hs as [s s' Hf|]; constructor.
    destruct Hf as (F1 & F2 & F3 & F4 & F5 & F6 & F7 & F8 & F9 & F10 & F11 & F12).
    unfold static_ok. rewrite F1, F2, F3, F4, F5, F6, F8, F10, F11, Hid, Hn, Hco. tauto.
Qed.

Lemma timing_frame_offsets (st st' : TrafficSignalCoordinator) :
  timing_frame st st' -> offsets_ok st -> offsets_ok st'.
Proof.
  intros (_ & _ & Ho & _ & Hi) HP id x' d s' Hx' Hs'.
  specialize (Hi id). rewrite Hx' in Hi.
  inversion Hi as [x ? Hx Hxe|]; subst. symmetry in Hxe.
  destruct Hx as (_ & _ & _ & _ & _ & _ & _ & _ & _ & _ & _ & Hs).
  specialize (Hs d). rewrite Hs' in Hs.
  inversion Hs as [s ? Hf Hse|]; subst. symmetry in Hse.
  destruct Hf as (_ & _ & _ & _ & _ & _ & _ & _ & _ & _ & _ & F12).
  rewrite F12, Ho. exact (HP id x d s Hxe Hse).
Qed.

Lemma wave_frame_signal (ids : list string) (st st' : TrafficSignalCoordinator)
    (id d : string) (x' : Intersection) (s' : TrafficSignal) :
  wave_frame ids st st' ->
  intersections st' !! id = Some x' -> signals x' !! d = Some s' ->
  exists x s, intersections st !! id = Some x /\ signals x !! d = Some s
              /\ x' = set_signals (signals x') x
              /\ s' = set_adaptive_offset (adaptive_offset s') s.
Proof.
  intros (_ & _ & _ & Hi & _) Hx' Hs'.
  specialize (Hi id). rewrite Hx' in Hi.
  inversion Hi as [x ? [Hx Hs] Hxe|]; subst. symmetry in Hxe.
  specialize (Hs d). rewrite Hs' in Hs.
  inversion Hs as [s ? Hf Hse|]; subst. symmetry in Hse.
  exists x, s. auto.
Qed.

Lemma wave_frame_structure (city : string) (ids : list string)
    (st st' : TrafficSignalCoordinator) :
  wave_frame ids st st' -> structure_ok city st -> structure_ok city st'.
Proof.
  intros (Hc & Hh & Hm & Hi & Ho).
  apply structure_transfer; try assumption.
  - intros id H. destruct (intersections st !! id) as [x|] eqn:Hx; [right; eauto|].
    left. rewrite <- (proj2 (Ho id (or_intror Hx))). exact H.
  - intros id. specialize (Hi id). destruct Hi as [x x' [Hx Hs]|]; constructor.
    split; [rewrite Hx; reflexivity|]. intros d. specialize (Hs d).
    destruct Hs as [s s' Hf|]; constructor.
    unfold static_ok. rewrite Hf, Hx. simpl. tauto.
Qed.

Lemma wave_frame_timings (ids : list string) (st st' : TrafficSignalCoordinator) :
  wave_frame ids st st' -> timings_ok st -> timings_ok st'.
Proof.
  intros Hf HP id x' d s' Hx' Hs'.
  destruct (wave_frame_signal _ _ _ _ _ _ _ Hf Hx' Hs') as (x & s & Hx & Hs & _ & ->).
  exact (HP id x d s Hx Hs).
Qed.

(** ** The methods keep a coordinator well formed *)

Lemma update_well_formed (city id : string) (td : TrafficData) (aqi : Z)
    (st : TrafficSignalCoordinator) :
  well_formed city st -> well_formed city (after (update_intersection_data id td aqi) st).
Proof.
  intros (HS & HT & HO).
  unfold after, update_intersection_data, mbind, M_bind, get. simpl.
  destruct (intersections st !! id) as [x|] eqn:Hx; simpl;
    [|exact (conj HS (conj HT HO))].
  set (x1 := store_readings _ _ _ _ _ _ _ _ x).
  assert (Hlook : forall id' x', <[id := x1]> (intersections st) !! id' = Some x' ->
                    exists x0, intersections st !! id' = Some x0
                               /\ signals x' = signals x0
                               /\ intersection_id x' = intersection_id x0
                               /\ name x' = name x0
                               /\ intersection_coordinates x' = intersection_coordinates x0).
  { intros id' x'. destruct (decide (id = id')) as [<-|Hne].
    - rewrite lookup_insert_eq. intros [= <-]. exists x. auto.
    - rewrite lookup_insert_ne by assumption. intros H. exists x'. auto. }
  split; [|split].
  - apply (structure_transfer city st); try reflexivity; try assumption.
    + simpl. auto.
    + intros id'. simpl. destruct (decide (id = id')) as [<-|Hne].
      * rewrite lookup_insert_eq, Hx. constructor. split; [reflexivity|].
        intros d. simpl. destruct (signals x !! d); constructor. tauto.
      * rewrite lookup_insert_ne by assumption.
        destruct (intersections st !! id') as [x0|]; constructor.
        split; [reflexivity|]. intros d. destruct (signals x0 !! d); constructor. tauto.
  - intros id' x' d s Hx' Hs. simpl in Hx'.
    destruct (Hlook id' x' Hx') as (x0 & Hx0 & Hsig & _). rewrite Hsig in Hs.
    exact (HT id' x0 d s Hx0 Hs).
  - intros id' x' d s Hx' Hs. simpl in Hx'.
    destruct (Hlook id' x' Hx') as (x0 & Hx0 & Hsig & _). rewrite Hsig in Hs.
    simpl. exact (HO id' x0 d s Hx0 Hs).
Qed.

Lemma optimize_well_formed (city id : string) (st : TrafficSignalCoordinator) :
  well_formed city st -> well_formed city (after (optimize_signal_timing id) st).
Proof.
  intros (HS & HT & HO).
  pose proof (preserves_optimize id st) as Hf.
  split; [|split].
  - exact (timing_frame_structure city _ _ Hf HS).
  - exact (keeps_optimize id st HT).
  - exact (timing_frame_offsets _ _ Hf HO).
Qed.

Lemma green_wave_well_formed (city : string) (ids : list string) (road : string)
    (speed : pynum) (st : TrafficSignalCoordinator) :
  well_formed city st -> well_formed city (after (coordinate_green_wave ids road speed) st).
Proof.
  intros (HS & HT & HO).
  pose proof (wave_frame_call ids road speed st) as Hf.
  split; [|split].
  - exact (wave_frame_structure city ids _ _ Hf HS).
  - exact (wave_frame_timings ids _ _ Hf HT).
  - exact (keeps_green_wave ids road speed st HO).
Qed.

Lemma generate_signal_plan_state (id : string) (st : TrafficSignalCoordinator) :
  after (generate_signal_plan id) st = st.
Proof.
  unfold after. rewrite generate_signal_plan_unfold.
  destruct (intersections st !! id) as [x|]; [|reflexivity].
  destruct (timeline_loop x directions 0 []); [|reflexivity].
  destruct (wait_loop x directions []); reflexivity.
Qed.

Lemma get_corridor_status_state (ids : list string) (st : TrafficSignalCoordinator) :
  after (get_corridor_status ids) st = st.
Proof.
  unfold after. rewrite get_corridor_status_unfold.
  pose proof (corridor_loop_state ids corridor_start st) as H.
  destruct (corridor_loop ids corridor_start st) as [[acc|e] st']; simpl in H; subst st';
    [|reflexivity].
  cbv zeta. destruct (decide (ids <> [])); [|reflexivity].
  destruct (0 <? _); [|reflexivity].
  destruct (py_truediv (ca_total_congestion acc) _); [|reflexivity].
  destruct (mbind _ _); reflexivity.
Qed.

Lemma run_call_well_formed (city : string) (c : call) (st : TrafficSignalCoordinator) :
  well_formed city st -> well_formed city (run_call c st).
Proof.
  intros H. destruct c; simpl.
  - apply update_well_formed, H.
  - apply optimize_well_formed, H.
  - apply green_wave_well_formed, H.
  - unfold after. rewrite detect_conflicts_findings_of. exact H.
  - rewrite get_corridor_status_state. exact H.
  - rewrite generate_signal_plan_state. exact H.
Qed.

Lemma run_calls_well_formed (city : string) (cs : list call) :
  forall st, well_formed city st -> well_formed city (run_calls cs st).
Proof.
  induction cs as [|c cs IH]; intros st H; simpl; [exact H|].
  apply IH, run_call_well_formed, H.
Qed.

(** X17: a coordinator in use stays well formed.  After the constructor and
    any sequence of calls of the methods, whatever their arguments and
    whether they return or raise, the registry holds the five intersections
    of the constructor and no other, each with its own id and a signal for
    each of the four directions and no other; every signal has the id, name,
    coordinates, phase (RED), yellow time 5, all-red time 5 and green bounds
    15 and 80 of its construction, a cycle time of 120, a green time within
    15..80 and a red time within 35..100, and the offset that
    [coordination_offsets] records for its intersection (0 when it records
    none); [optimization_mode] is still 'balanced' and
    [signal_timing_history] is still empty. *)
Theorem coordinator_in_use_well_formed clock (city : string) (cs : list call) :
  well_formed city (run_calls cs (__init__ clock city)).
Proof.
  apply run_calls_well_formed, init_well_formed.
Qed.

(** ** Signal plans of a coordinator in use *)

Lemma cycle_time_sum_const (sigs : gmap string TrafficSignal) (c : Z) :
  (forall d s, sigs !! d = Some s -> cycle_time s = c) ->
  cycle_time_sum sigs = c * Z.of_nat (size sigs).
Proof.
  unfold cycle_time_sum. induction sigs as [|d s sigs Hd IH] using map_ind; intros Hall.
  - rewrite map_fold_empty, map_size_empty. lia.
  - rewrite map_fold_insert_L; [|intros; lia|exact Hd].
    rewrite map_size_insert_None by exact Hd.
    rewrite IH.
    + rewrite (Hall d s) by apply lookup_insert_eq. lia.
    + intros d' s' Hs'. apply (Hall d' s').
      rewrite lookup_insert_ne; [exact Hs'|]. intros ->. congruence.
Qed.

Lemma four_directions_size {V} (m : gmap string V) :
  (forall d, is_Some (m !! d) <-> d ∈ directions) -> size m = 4%nat.
Proof.
  intros H. rewrite <- size_dom.
  assert (E : dom m = list_to_set directions).
  { apply set_eq. intros d. rewrite elem_of_dom, elem_of_list_to_set. apply H. }
  rewrite E. rewrite size_list_to_set by apply directions_nodup. reflexivity.
Qed.

Lemma elapsed_bounds (x : Intersection) (ds : list string) :
  (forall d, d ∈ ds -> exists s, signals x !! d = Some s
                                 /\ 25 <= phase_span s <= 90) ->
  25 * Z.of_nat (length ds) <= elapsed x ds <= 90 * Z.of_nat (length ds).
Proof.
  induction ds as [|d ds IH]; intros Hall; simpl; [lia|].
  destruct (Hall d ltac:(left)) as (s & Hs & Hb). rewrite Hs. simpl.
  specialize (IH ltac:(intros d' Hd'; apply Hall; right; exact Hd')). lia.
Qed.

(** X18: on a coordinator in use (the constructor followed by any calls of
    the methods) [generate_signal_plan] never raises for one of the five
    intersections: it returns a plan whose total cycle time is 120, whose
    timeline has four entries, the k-th with a duration within 15..80 and a
    start within 25k..90k, whose estimated wait times are within 17..50, and
    whose four adaptive offsets are the offset recorded for the intersection
    in [coordination_offsets], or 0 when none is recorded. *)
Theorem signal_plan_in_use clock (city : string) (cs : list call) (id : string) :
  id ∈ default_ids ->
  let st := run_calls cs (__init__ clock city) in
  exists plan,
    result (generate_signal_plan id) st = Returned (SpPlan plan)
    /\ sp_total_cycle_time plan = 120
    /\ length (sp_cycle_timeline plan) = 4%nat
    /\ (forall k e, sp_cycle_timeline plan !! k = Some e ->
          15 <= tl_duration e <= 80
          /\ 25 * Z.of_nat k <= tl_start e <= 90 * Z.of_nat k)
    /\ (forall d, d ∈ directions ->
          exists w, dict_get d (sp_estimated_wait_times_seconds plan) = Some w
                    /\ 17 <= w <= 50)
    /\ (forall d, d ∈ directions ->
          sp_adaptive_offsets plan !! d
          = Some (default 0 (coordination_offsets st !! id))).
Proof.
  intros Hid st.
  destruct (run_calls_well_formed city cs _ (init_well_formed clock city))
    as ((_ & _ & _ & Sk & _ & Sx) & HT & HO). fold st in Sk, Sx, HT, HO.
  destruct (proj2 (Sk id) Hid) as [x Hx].
  destruct (Sx id x Hx) as (Sid & Sd & Ss).
  assert (Hsig : forall d, d ∈ directions ->
                   exists s, signals x !! d = Some s /\ timing_ok s /\ static_ok x d s).
  { intros d Hd. destruct (proj2 (Sd d) Hd) as [s Hs].
    exists s. split; [exact Hs|]. split; [exact (HT id x d s Hx Hs)|exact (Ss d s Hs)]. }
  destruct (timeline_loop_ok x directions 0 [] ltac:(intros d Hd; apply Sd, Hd))
    as (entries & Hrun & Hlen & Hent).
  destruct (wait_loop_ok x directions [])
    as (waits & Hwrun & Hwin & _).
  { intros d Hd. destruct (Hsig d Hd) as (s & Hs & (_ & _ & Hr) & _).
    exists s. split; [exact Hs|]. change (2 ^ 53) with 9007199254740992. lia. }
  unfold result. rewrite generate_signal_plan_unfold, Hx, Hrun, Hwrun. simpl.
  eexists. split; [reflexivity|]. simpl.
  split; [|split; [|split; [|split]]].
  - rewrite (cycle_time_sum_const (signals x) 120).
    + rewrite (four_directions_size _ Sd). reflexivity.
    + intros d s Hs. exact (proj1 (HT id x d s Hx Hs)).
  - exact Hlen.
  - intros k e He.
    assert (Hk : (k < 4)%nat) by (apply lookup_lt_Some in He; simpl in Hlen; lia).
    destruct (lookup_lt_is_Some_2 directions k Hk) as [d Hd].
    destruct (Hent k d Hd) as (s & Hs & He'). rewrite He in He'. injection He' as ->.
    destruct (HT id x d s Hx Hs) as (_ & Hg & _). simpl.
    split; [exact Hg|].
    pose proof (elapsed_bounds x (take k directions)) as Hb.
    rewrite length_take in Hb. change (length directions) with 4%nat in Hb.
    replace (k `min` 4)%nat with k in Hb by lia.
    apply Hb. intros d' Hd'. apply elem_of_take in Hd' as (j & Hd' & _).
    apply list_elem_of_lookup_2 in Hd'.
    destruct (Hsig d' Hd') as (s' & Hs' & (_ & Hg' & _) & St).
    exists s'. split; [exact Hs'|]. unfold phase_span.
    destruct St as (_ & _ & _ & _ & _ & Hy & Ha & _). lia.
  - intros d Hd. destruct (Hsig d Hd) as (s & Hs & (_ & _ & Hr) & _).
    exists (Z.quot (red_time s) 2). split; [exact (Hwin d s Hd Hs)|].
    rewrite Z.quot_div_nonneg by lia.
    split; [apply Z.div_le_lower_bound; lia|apply Z.div_le_upper_bound; lia].
  - intros d Hd. destruct (Hsig d Hd) as (s & Hs & _).
    rewrite lookup_fmap, Hs. simpl. f_equal. exact (HO id x d s Hx Hs).
Qed.

Lemma signal_plan_in_use_witness :
  let st := run_calls [call_update_intersection_data "INT_002" (queues_only 40 2 3 5) 180;
                       call_optimize_signal_timing "INT_002";
                       call_coordinate_green_wave ["INT_001"; "INT_002"]%string
                         "MG Road" (PyInt 40)]
              (__init__ (fun _ => 0) "bengaluru") in
  exists plan,
    result (generate_signal_plan "INT_002") st = Returned (SpPlan plan)
    /\ sp_total_cycle_time plan = 120
    /\ length (sp_cycle_timeline plan) = 4%nat
    /\ (forall k e, sp_cycle_timeline plan !! k = Some e ->
          15 <= tl_duration e <= 80
          /\ 25 * Z.of_nat k <= tl_start e <= 90 * Z.of_nat k)
    /\ (forall d, d ∈ directions ->
          exists w, dict_get d (sp_estimated_wait_times_seconds plan) = Some w
                    /\ 17 <= w <= 50)
    /\ (forall d, d ∈ directions ->
          sp_adaptive_offsets plan !! d
          = Some (default 0 (coordination_offsets st !! "INT_002"))).
Proof.
  apply (signal_plan_in_use (fun _ => 0) "bengaluru").
  unfold default_ids. simpl. rewrite !elem_of_cons. auto.
Defined.
